(** * Generation client and upload pipeline of the festival application

    A shallow embedding of [src/lib/doubao_seedream.ts] (the generation
    client) and of the image utilities it calls ([processAndUploadImage],
    [processAndUploadImagesBatch]), followed by the properties checked
    against them.

    Conventions of the embedding:
    - a JavaScript string is the list of its UTF-16 code units;
    - a JavaScript [number] is [NaN], an infinity, or a finite value kept as
      a rational; products and quotients are rounded to binary64
      ([round64]: round to nearest, ties to even), and so is the integer
      read by [parseInt], which overflows to [Infinity]; the differences
      taken are of sizes and counts, which binary64 holds exactly;
    - [await]ed calls to the outside world (the provider, the image host,
      sharp, the object store, the clock) are answered by a [World] of
      oracles; the calls issued are recorded in a trace of [event]s;
    - [throw] / [try ... catch] is an error monad over that trace; loops
      carry fuel and running out of fuel is [None]. *)

From Stdlib Require Import List ZArith QArith Qround Qabs Qpower Qreduction.
From Stdlib Require Import Bool String Ascii Lia Lqa.
From Stdlib Require Import DecimalString.
Import ListNotations.
Local Open Scope Z_scope.

(** ** JavaScript strings *)

Definition jsstring := list N.

(** A source literal written in ASCII. *)
Definition lit (s : string) : jsstring :=
  map N_of_ascii (list_ascii_of_string s).

Definition str_eqb (a b : jsstring) : bool :=
  if list_eq_dec N.eq_dec a b then true else false.

(** [Boolean(s)] for a string: the empty string is falsy. *)
Definition truthy_str (s : jsstring) : bool :=
  match s with [] => false | _ => true end.

(** [s || d] for a possibly undefined string. *)
Definition str_or (s : option jsstring) (d : jsstring) : jsstring :=
  match s with
  | Some v => if truthy_str v then v else d
  | None => d
  end.

(** Decimal rendering of an integer, as a template literal prints it
    (integers below 1e21, which print without an exponent). *)
Definition dec (z : Z) : jsstring :=
  lit (NilZero.string_of_int (Z.to_int z)).

(** ** JavaScript numbers *)

Inductive number : Type :=
| NaN
| PosInf
| NegInf
| Fin (q : Q).

Definition num_of_Z (z : Z) : number := Fin (inject_Z z).
Definition num_of_nat (n : nat) : number := num_of_Z (Z.of_nat n).

Definition Qltb (a b : Q) : bool := negb (Qle_bool b a).
Definition Qsign (q : Q) : Z := Z.sgn (Qnum q).

(** [a < b]; every comparison with [NaN] is false. *)
Definition num_lt (a b : number) : bool :=
  match a, b with
  | NaN, _ | _, NaN => false
  | PosInf, _ => false
  | _, NegInf => false
  | NegInf, _ => true
  | _, PosInf => true
  | Fin x, Fin y => Qltb x y
  end.

Definition num_gt (a b : number) : bool := num_lt b a.

(** [Math.max(a, b)]. *)
Definition num_max (a b : number) : number :=
  match a, b with
  | NaN, _ | _, NaN => NaN
  | _, _ => if num_lt a b then b else a
  end.

(** [Number.isFinite]. *)
Definition isFinite (a : number) : bool :=
  match a with Fin _ => true | _ => false end.

(** [a - b]. The difference is not rounded: it is taken of two sizes, which
    are integers that binary64 holds exactly, or of the requested count, a
    number between 1 and 4, and a smaller positive count, which leaves a
    binary64 value as well. *)
Definition num_sub (a b : number) : number :=
  match a, b with
  | NaN, _ | _, NaN => NaN
  | PosInf, PosInf | NegInf, NegInf => NaN
  | PosInf, _ | _, NegInf => PosInf
  | NegInf, _ | _, PosInf => NegInf
  | Fin x, Fin y => Fin (x - y)
  end.

Definition inf_of_sign (s : Z) : number :=
  match s with
  | Z0 => NaN
  | Zpos _ => PosInf
  | Zneg _ => NegInf
  end.

Definition num_sign (a : number) : Z :=
  match a with
  | NaN => 0
  | PosInf => 1
  | NegInf => -1
  | Fin q => Qsign q
  end.

(** ** Rounding to binary64 *)

(** [floor (log2 x)] for a positive rational. *)
Definition Qfloor_log2 (x : Q) : Z :=
  let e := Z.log2 (Qnum x) - Z.log2 (Zpos (Qden x)) in
  if Qltb x (2 ^ e)%Q then e - 1 else e.

(** The integer nearest to [x], the even one of two equally near. *)
Definition round_half_even (x : Q) : Z :=
  let f := Qfloor x in
  match (x - inject_Z f ?= 1 # 2)%Q with
  | Lt => f
  | Gt => f + 1
  | Eq => if Z.even f then f else f + 1
  end.

(** The exponent of the last place of the binary64 values next to [x]:
    53 significant bits, least exponent -1022 (gradual underflow). *)
Definition last_place (x : Q) : Z :=
  Z.max (Qfloor_log2 (Qabs x)) (-1022) - 52.

(** The binary64 value of the real number [x]: round to nearest, ties to
    even; [Infinity] from [2^1024] on. *)
Definition round64 (x : Q) : number :=
  if Qeq_bool x 0 then Fin 0
  else
    let e := last_place x in
    let v := Qred (inject_Z (round_half_even (x / 2 ^ e)) * 2 ^ e) in
    if 971 <=? e then
      if Qle_bool (2 ^ 1024) (Qabs v) then (if Qltb x 0 then NegInf else PosInf)
      else Fin v
    else Fin v.

(** [a * b]: the product, rounded. *)
Definition num_mul (a b : number) : number :=
  match a, b with
  | NaN, _ | _, NaN => NaN
  | Fin x, Fin y => round64 (x * y)
  | _, _ => inf_of_sign (num_sign a * num_sign b)
  end.

(** [a / b]: the quotient, rounded; zero has no sign in this model, a
    finite value over zero takes the sign of the numerator and [0 / 0] is
    [NaN]. *)
Definition num_div (a b : number) : number :=
  match a, b with
  | NaN, _ | _, NaN => NaN
  | Fin x, Fin y =>
      if Qeq_bool y 0 then inf_of_sign (Qsign x) else round64 (x / y)
  | Fin _, _ => Fin 0
  | _, Fin y => inf_of_sign (num_sign a * (if Qeq_bool y 0 then 1 else Qsign y))
  | _, _ => NaN
  end.

(** [a || d] for a possibly undefined number: 0 and NaN are falsy. *)
Definition truthy_num (a : number) : bool :=
  match a with
  | NaN => false
  | Fin q => negb (Qeq_bool q 0)
  | _ => true
  end.

(** ** Rounding an integer to binary64 and [parseInt] *)

(** The Number value of a non-negative mathematical integer: round to
    nearest, ties to even, 53 significant bits; [None] is overflow. *)
Definition round_binary64 (z : Z) : option Z :=
  if z <? 2 ^ 53 then Some z
  else
    let e := Z.log2 z - 52 in
    let q := Z.shiftr z e in
    let r := z - q * 2 ^ e in
    let half := 2 ^ (e - 1) in
    let q' :=
      if r <? half then q
      else if half <? r then q + 1
      else if Z.even q then q else q + 1 in
    let v := q' * 2 ^ e in
    if v <? 2 ^ 1024 then Some v else None.

(** The least integer that rounds to [Infinity]. *)
Definition binary64_overflow : Z := 2 ^ 1024 - 2 ^ 970.

Definition number_of_mathInt (z : Z) : number :=
  match round_binary64 (Z.abs z) with
  | Some v => num_of_Z (Z.sgn z * v)
  | None => if z <? 0 then NegInf else PosInf
  end.

Definition is_digit (c : N) : bool := ((48 <=? c) && (c <=? 57))%N.

Definition digit_value (c : N) : Z := Z.of_N (c - 48).

(** The longest prefix of decimal digits, and what follows it. *)
Fixpoint span_digits (s : jsstring) : jsstring * jsstring :=
  match s with
  | c :: t =>
      if is_digit c then let (d, r) := span_digits t in (c :: d, r)
      else ([], s)
  | [] => ([], [])
  end.

(** Value of a digit string, most significant digit first. *)
Definition digits_value (d : jsstring) : Z :=
  fold_left (fun acc c => 10 * acc + digit_value c) d 0.

Definition is_ascii_space (c : N) : bool :=
  ((c =? 32) || ((9 <=? c) && (c <=? 13)))%N.

Fixpoint skip_space (s : jsstring) : jsstring :=
  match s with
  | c :: t => if is_ascii_space c then skip_space t else s
  | [] => []
  end.

(** An optional sign in front of the digits. *)
Definition strip_sign (s : jsstring) : bool * jsstring :=
  match s with
  | 45%N :: t => (true, t)
  | 43%N :: t => (false, t)
  | _ => (false, s)
  end.

(** [parseInt(s, 10)]: leading white space (the ASCII part of it), an
    optional sign, then the longest run of decimal digits; [NaN] when that
    run is empty. [parseInt(undefined, 10)] is [NaN]. Every digit counts,
    as in V8; the language also lets an implementation read the digits
    after the 20th as 0. *)
Definition parseInt10 (s : option jsstring) : number :=
  match s with
  | None => NaN
  | Some s =>
      let (neg, t) := strip_sign (skip_space s) in
      match fst (span_digits t) with
      | [] => NaN
      | d => number_of_mathInt (if neg then - digits_value d else digits_value d)
      end
  end.

(** [s.toLowerCase()] on the ASCII letters. *)
Definition toLowerCase (s : jsstring) : jsstring :=
  map (fun c => if ((65 <=? c) && (c <=? 90))%N then (c + 32)%N else c) s.

(** [s.split(sep)] for a one-unit separator. *)
Fixpoint split_on (sep : N) (s : jsstring) : list jsstring :=
  match s with
  | [] => [[]]
  | c :: t =>
      if (c =? sep)%N then [] :: split_on sep t
      else
        match split_on sep t with
        | p :: ps => (c :: p) :: ps
        | [] => [[c]]
        end
  end.

(** [/^[0-9]+x[0-9]+$/i.test(s)]. *)
Definition size_regex_test (s : jsstring) : bool :=
  match span_digits s with
  | (_ :: _, c :: (_ :: _) as rest) =>
      ((c =? 120) || (c =? 88))%N && forallb is_digit rest
  | _ => false
  end.

(** ** The request and its schema ([DoubaoSeedreamInputSchema]) *)

Inductive DoubaoSeedreamSize : Type := Size2K | Size4K.
Inductive SeqMode : Type := disabled | auto.
Inductive QualityTier : Type := standard | hd.

(** [quality?: number | "standard" | "hd"]. *)
Inductive quality_t : Type :=
| QNum (n : number)
| QTier (t : QualityTier).

(** [image?: string | string[]]. *)
Inductive image_ref : Type :=
| ImgOne (u : jsstring)
| ImgMany (us : list jsstring).

(** The part of sharp's [ResizeOptions] the client fills in. *)
Record ResizeOptions : Type := {
  ro_width : option number;
  ro_height : option number;
  ro_fit : option jsstring;
  ro_position : option jsstring
}.

(** The argument of [generateDoubaoSeedreamImage]. *)
Record Params : Type := {
  prompt : jsstring;
  negative_prompt : option jsstring;
  image : option image_ref;
  size : option jsstring;
  num_images : option number;
  sequential_image_generation : option SeqMode;
  stream : option bool;
  watermark : option bool;
  seed : option number;
  projectId : option jsstring;
  quality : option quality_t;
  resizeOptions : option ResizeOptions
}.

(** What [DoubaoSeedreamInputSchema.parse] returns: defaults filled in,
    [projectId] stripped as a key the schema does not know. *)
Record Validated : Type := {
  v_prompt : jsstring;
  v_negative_prompt : option jsstring;
  v_image : option image_ref;
  v_size : jsstring;
  v_num_images : number;
  v_sequential_image_generation : SeqMode;
  v_stream : bool;
  v_watermark : bool;
  v_seed : option number;
  v_quality : option quality_t
}.

(** One entry of a [ZodError]: the field and the check that failed. *)
Inductive zod_issue : Type :=
| PromptTooSmall
| PromptTooBig
| NegativePromptTooBig
| SizeInvalid
| NumImagesNotANumber
| NumImagesTooSmall
| NumImagesTooBig
| SeedNotANumber
| SeedTooSmall
| SeedTooBig
| QualityInvalid.

(** [z.number().min(lo).max(hi)]: [NaN] is not a number for zod; the two
    bounds are checked independently. *)
Definition check_number (lo hi : Z) (nan small big : zod_issue)
    (n : number) : list zod_issue :=
  match n with
  | NaN => [nan]
  | _ =>
      (if num_lt n (num_of_Z lo) then [small] else [])
      ++ (if num_gt n (num_of_Z hi) then [big] else [])
  end.

Definition check_opt {A} (chk : A -> list zod_issue) (o : option A)
    : list zod_issue :=
  match o with Some a => chk a | None => [] end.

(** [z.string().min(1).max(800, ...)]. *)
Definition check_prompt (s : jsstring) : list zod_issue :=
  (if (List.length s <? 1)%nat then [PromptTooSmall] else [])
  ++ (if (800 <? List.length s)%nat then [PromptTooBig] else []).

(** [z.string().max(500, ...)]. *)
Definition check_negative_prompt (s : jsstring) : list zod_issue :=
  if (500 <? List.length s)%nat then [NegativePromptTooBig] else [].

(** [z.union([z.enum(["2K", "4K"]), z.string().regex(...)])]. *)
Definition size_accepted (s : jsstring) : bool :=
  str_eqb s (lit "2K") || str_eqb s (lit "4K") || size_regex_test s.

Definition check_size (s : jsstring) : list zod_issue :=
  if size_accepted s then [] else [SizeInvalid].

(** [z.union([z.number().min(1).max(10), z.enum(["standard", "hd"])])]. *)
Definition check_quality (q : quality_t) : list zod_issue :=
  match q with
  | QTier _ => []
  | QNum n =>
      match check_number 1 10 QualityInvalid QualityInvalid QualityInvalid n with
      | [] => []
      | _ => [QualityInvalid]
      end
  end.

Definition schema_issues (p : Params) : list zod_issue :=
  check_prompt (prompt p)
  ++ check_opt check_negative_prompt (negative_prompt p)
  ++ check_opt check_size (size p)
  ++ check_opt
       (check_number 1 4 NumImagesNotANumber NumImagesTooSmall NumImagesTooBig)
       (num_images p)
  ++ check_opt (check_number 0 2147483647 SeedNotANumber SeedTooSmall SeedTooBig)
       (seed p)
  ++ check_opt check_quality (quality p).

Definition default {A} (d : A) (o : option A) : A :=
  match o with Some a => a | None => d end.

Definition schema_output (p : Params) : Validated := {|
  v_prompt := prompt p;
  v_negative_prompt := negative_prompt p;
  v_image := image p;
  v_size := default (lit "2K") (size p);
  v_num_images := default (num_of_Z 1) (num_images p);
  v_sequential_image_generation := default disabled (sequential_image_generation p);
  v_stream := default false (stream p);
  v_watermark := default false (watermark p);
  v_seed := seed p;
  v_quality := quality p
|}.

(** [DoubaoSeedreamInputSchema.parse]: the issues found, or the output. *)
Definition schema_parse (p : Params) : list zod_issue + Validated :=
  match schema_issues p with
  | [] => inr (schema_output p)
  | issues => inl issues
  end.

(** ** Resolution of the size (lines 89-115) *)

(** The provider tier and the resize directive handed to the pipeline. *)
Definition resolve_size (requestedSize : jsstring)
    (resizeOptions : option ResizeOptions)
    : DoubaoSeedreamSize * option ResizeOptions :=
  if size_regex_test requestedSize then
    let parts := split_on 120 (toLowerCase requestedSize) in
    let width := parseInt10 (nth_error parts 0) in
    let height := parseInt10 (nth_error parts 1) in
    if isFinite width && isFinite height
       && num_gt width (num_of_Z 0) && num_gt height (num_of_Z 0)
    then
      let maxDimension := num_max width height in
      (if num_gt maxDimension (num_of_Z 2048) then Size4K else Size2K,
       match resizeOptions with
       | Some _ => resizeOptions
       | None =>
           Some {| ro_width := Some width;
                   ro_height := Some height;
                   ro_fit := Some (lit "cover");
                   ro_position := Some (lit "center") |}
       end)
    else (Size2K, resizeOptions)
  else if str_eqb requestedSize (lit "4K") then (Size4K, resizeOptions)
  else (Size2K, resizeOptions).

(** ** The request body (lines 124-147) *)

Record DoubaoSeedreamRequest : Type := {
  rq_model : jsstring;
  rq_prompt : jsstring;
  rq_negative_prompt : option jsstring;
  rq_image : option image_ref;
  rq_size : DoubaoSeedreamSize;
  rq_num_images : option number;
  rq_sequential_image_generation : option SeqMode;
  rq_stream : bool;
  rq_response_format : jsstring;
  rq_watermark : bool;
  rq_seed : option number;
  rq_quality : option quality_t
}.

(** [if (validatedParams.negative_prompt)]: set only when non-empty. *)
Definition keep_truthy_str (s : option jsstring) : option jsstring :=
  match s with
  | Some v => if truthy_str v then Some v else None
  | None => None
  end.

(** [if (validatedParams.image)]: an array is truthy even when empty. *)
Definition keep_truthy_image (i : option image_ref) : option image_ref :=
  match i with
  | Some (ImgOne u) => if truthy_str u then i else None
  | _ => i
  end.

Definition build_request_body (v : Validated) (apiSize : DoubaoSeedreamSize)
    : DoubaoSeedreamRequest := {|
  rq_model := lit "doubao-seedream-4-0-250828";
  rq_prompt := v_prompt v;
  rq_negative_prompt := keep_truthy_str (v_negative_prompt v);
  rq_image := keep_truthy_image (v_image v);
  rq_size := apiSize;
  rq_num_images := Some (num_of_Z 2);
  rq_sequential_image_generation := Some auto;
  rq_stream := v_stream v;
  rq_response_format := lit "url";
  rq_watermark := v_watermark v;
  rq_seed := v_seed v;
  rq_quality := v_quality v
|}.

(** [{ ...requestBody }] with [num_images] deleted. *)
Definition additional_request_body (b : DoubaoSeedreamRequest)
    : DoubaoSeedreamRequest := {|
  rq_model := rq_model b;
  rq_prompt := rq_prompt b;
  rq_negative_prompt := rq_negative_prompt b;
  rq_image := rq_image b;
  rq_size := rq_size b;
  rq_num_images := None;
  rq_sequential_image_generation := rq_sequential_image_generation b;
  rq_stream := rq_stream b;
  rq_response_format := rq_response_format b;
  rq_watermark := rq_watermark b;
  rq_seed := rq_seed b;
  rq_quality := rq_quality b
|}.

(** Quality handed to the pipeline (lines 205-214), read from the raw
    [params.quality]. *)
Definition image_quality (q : option quality_t) : number :=
  match q with
  | Some (QNum n) => if truthy_num n then num_mul n (num_of_Z 10) else num_of_Z 80
  | Some (QTier standard) => num_of_Z 80
  | Some (QTier hd) => num_of_Z 95
  | None => num_of_Z 80
  end.

(** ** Thrown values *)

(** The [message] of the [Error]s that can reach a [catch]. *)
Inductive message : Type :=
| MsgZod (issues : list zod_issue)   (* message of a ZodError *)
| MsgMissingKey                      (* "SEED_EDIT_KEY 环境变量未配置" *)
| MsgApiFailed (status : Z) (statusText errorText : jsstring)
                                     (* `API 调用失败: ${status} ${statusText} - ${errorText}` *)
| MsgNoImageUrl                      (* "API 响应中未找到图像 URL" *)
| MsgAllProcessingFailed             (* '所有图像处理都失败了' *)
| MsgDownloadFailed (status : Z) (statusText : jsstring)
                                     (* `下载失败: ${status} ${statusText}` *)
| MsgEmptyImage                      (* '图像数据为空' *)
| MsgSignFailed (cause : message)    (* `生成图像访问链接失败: ${cause}` *)
| MsgUnknown                         (* "未知错误" *)
| MsgOther (text : jsstring).        (* an Error raised by the outside world *)

Inductive thrown : Type :=
| ThrownError (m : message)          (* an instance of Error *)
| ThrownValue.                       (* anything else *)

(** [error instanceof Error ? error.message : "未知错误"]. *)
Definition message_of (t : thrown) : message :=
  match t with
  | ThrownError m => m
  | ThrownValue => MsgUnknown
  end.

(** ** [processAndUploadImage] *)

Definition buffer := list N.

Record ImageProcessResult : Type := {
  success : bool;
  url : option jsstring;
  ossKey : option jsstring;
  error : option message;
  originalSize : option number;
  compressedSize : option number;
  compressionRatio : option number
}.

(** Outcome of [fetch(imageUrl, ...)] and of reading the body. *)
Inductive fetch_reply : Type :=
| FetchRejects (t : thrown)
| FetchNotOk (status : Z) (statusText : jsstring)
| FetchOk (arrayBuffer : thrown + buffer).

(** What one invocation of [processAndUploadImage] meets outside. *)
Record ItemWorld : Type := {
  iw_fetch : jsstring -> fetch_reply;
  iw_webp : buffer -> number -> option ResizeOptions -> thrown + buffer;
  iw_now : Z;                       (* Date.now() *)
  iw_random : jsstring;             (* Math.random().toString(36).substring(2, 8) *)
  iw_put : jsstring -> buffer -> thrown + unit;
  iw_signatureUrl : jsstring -> Z -> thrown + jsstring
}.

Definition ebind {A B} (m : thrown + A) (f : A -> thrown + B) : thrown + B :=
  match m with
  | inl t => inl t
  | inr a => f a
  end.

Notation "'let?' x := m 'in' k" := (ebind m (fun x => k))
  (at level 10, x name, m at level 100, k at level 200).

(** [ossImageManager.generateSignedImageUrl(ossKey, expiresInDays)]:
    whatever the signing throws is rethrown as an [Error]. *)
Definition generateSignedImageUrl (iw : ItemWorld) (key : jsstring)
    (expiresInDays : Z) : thrown + jsstring :=
  match iw_signatureUrl iw key (expiresInDays * 24 * 60 * 60) with
  | inl t => inl (ThrownError (MsgSignFailed (message_of t)))
  | inr u => inr u
  end.

(** Line 73. *)
Definition compression_ratio (originalSize compressedSize : nat) : number :=
  if num_gt (num_of_nat originalSize) (num_of_Z 0) then
    num_mul
      (num_div (num_sub (num_of_nat originalSize) (num_of_nat compressedSize))
               (num_of_nat originalSize))
      (num_of_Z 100)
  else num_of_Z 0.

(** Lines 84-86. *)
Definition oss_key (iw : ItemWorld) (projectId fileName : option jsstring)
    : jsstring :=
  let dir := lit "generated-images/" ++ str_or projectId (lit "default") ++ lit "/" in
  match keep_truthy_str fileName with
  | Some f => dir ++ f
  | None => dir ++ dec (iw_now iw) ++ lit "-" ++ iw_random iw ++ lit ".webp"
  end.

(** The [try] block of [processAndUploadImage]. *)
Definition processAndUploadImage_try (iw : ItemWorld) (imageUrl : jsstring)
    (projectId fileName : option jsstring) (quality : number)
    (resizeOptions : option ResizeOptions) : thrown + ImageProcessResult :=
  let? arrayBuffer :=
    match iw_fetch iw imageUrl with
    | FetchRejects t => inl t
    | FetchNotOk status statusText =>
        inl (ThrownError (MsgDownloadFailed status statusText))
    | FetchOk body => body
    end in
  let originalBuffer := arrayBuffer in
  let originalSize := List.length originalBuffer in
  if (originalSize =? 0)%nat then inl (ThrownError MsgEmptyImage)
  else
    let? processedBuffer := iw_webp iw originalBuffer quality resizeOptions in
    let compressedSize := List.length processedBuffer in
    let compressionRatio := compression_ratio originalSize compressedSize in
    let ossKey := oss_key iw projectId fileName in
    let? _ := iw_put iw ossKey processedBuffer in
    let? signedUrl := generateSignedImageUrl iw ossKey 30 in
    inr {| success := true;
           url := Some signedUrl;
           ossKey := Some ossKey;
           error := None;
           originalSize := Some (num_of_nat originalSize);
           compressedSize := Some (num_of_nat compressedSize);
           compressionRatio := Some compressionRatio |}.

Definition failure_result (m : message) : ImageProcessResult :=
  {| success := false; url := None; ossKey := None; error := Some m;
     originalSize := None; compressedSize := None; compressionRatio := None |}.

(** [processAndUploadImage]; [quality] defaults to 80. *)
Definition processAndUploadImage (iw : ItemWorld) (imageUrl : jsstring)
    (projectId fileName : option jsstring) (quality : option number)
    (resizeOptions : option ResizeOptions) : ImageProcessResult :=
  match processAndUploadImage_try iw imageUrl projectId fileName
          (default (num_of_Z 80) quality) resizeOptions with
  | inr r => r
  | inl t => failure_result (message_of t)
  end.

(** ** Effects: the trace of calls, exceptions, fuel *)

Inductive event : Type :=
| EvFetchApi (body : DoubaoSeedreamRequest)  (* POST to DOUBAO_SEEDREAM_API_URL *)
| EvDelay (ms : Z)                           (* await setTimeout(resolve, ms) *)
| EvWarn (call : Z)                          (* console.warn about call number [call] *)
| EvChunk (items : list (jsstring * jsstring)).
                                             (* Promise.all over (url, fileName) *)

Definition trace := list event.

(** A computation reads the trace so far and returns a value or a thrown
    value with the extended trace; [None] when the fuel ran out. *)
Definition M (A : Type) : Type := trace -> option ((thrown + A) * trace).

Definition ret {A} (a : A) : M A := fun tr => Some (inr a, tr).
Definition throw {A} (t : thrown) : M A := fun tr => Some (inl t, tr).
Definition diverge {A} : M A := fun _ => None.
Definition emit (e : event) : M unit := fun tr => Some (inr tt, tr ++ [e]).
Definition history : M trace := fun tr => Some (inr tr, tr).

Definition bind {A B} (m : M A) (f : A -> M B) : M B :=
  fun tr =>
    match m tr with
    | Some (inr a, tr') => f a tr'
    | Some (inl t, tr') => Some (inl t, tr')
    | None => None
    end.

(** [try { m } catch (e) { h e }]: effects of [m] are kept. *)
Definition try_catch {A} (m : M A) (h : thrown -> M A) : M A :=
  fun tr =>
    match m tr with
    | Some (inl t, tr') => h t tr'
    | r => r
    end.

Definition lift {A} (r : thrown + A) : M A :=
  match r with
  | inl t => throw t
  | inr a => ret a
  end.

Declare Scope js_scope.
Delimit Scope js_scope with js.
Notation "x <- m ;; k" := (bind m (fun x => k))
  (at level 61, m at next level, right associativity) : js_scope.
Notation "m ;; k" := (bind m (fun _ => k))
  (at level 61, right associativity) : js_scope.
Local Open Scope js_scope.

(** Outcome of a POST to the provider: [fetch] rejects, or the response is
    not ok (with what [response.text()] gives), or it is ok (with what
    reading it gives: [response.json()] or the access to the [url]s
    throws, or the [url]s under [data] are read, when [data] is there). *)
Inductive api_reply : Type :=
| ApiRejects (t : thrown)
| ApiNotOk (status : Z) (statusText : jsstring) (text : thrown + jsstring)
| ApiOk (json : thrown + option (list jsstring)).

Record World : Type := {
  SEED_EDIT_KEY : option jsstring;          (* process.env.SEED_EDIT_KEY *)
  api : trace -> DoubaoSeedreamRequest -> api_reply;
  item : Z -> nat -> ItemWorld;             (* item [index] of the chunk at [i] *)
  date_now : Z -> nat -> Z                  (* Date.now() at line 144 *)
}.

Definition fetch_api (w : World) (body : DoubaoSeedreamRequest) : M api_reply :=
  tr <- history ;;
  emit (EvFetchApi body) ;;
  ret (api w tr body).

(** ** [processAndUploadImagesBatch] *)

(** A relative index of [Array.prototype.slice]. *)
Definition clamp_index (len k : Z) : Z :=
  if k <? 0 then Z.max (len + k) 0 else Z.min k len.

(** [l.slice(from, to)]. *)
Definition slice {A} (l : list A) (from to : Z) : list A :=
  let len := Z.of_nat (List.length l) in
  let k := clamp_index len from in
  let final := clamp_index len to in
  firstn (Z.to_nat (final - k)) (skipn (Z.to_nat k) l).

(** [l.map((x, index) => f x index)]. *)
Fixpoint mapi_from {A B} (f : A -> nat -> B) (index : nat) (l : list A) : list B :=
  match l with
  | [] => []
  | x :: t => f x index :: mapi_from f (S index) t
  end.

Definition mapi {A B} (f : A -> nat -> B) (l : list A) : list B :=
  mapi_from f 0%nat l.

(** `batch-${i + index + 1}-${Date.now()}.webp` *)
Definition batch_file_name (w : World) (i : Z) (index : nat) : jsstring :=
  lit "batch-" ++ dec (i + Z.of_nat index + 1) ++ lit "-"
  ++ dec (date_now w i index) ++ lit ".webp".

(** The loop of lines 141-152, entered with loop variable [i]. *)
Fixpoint batch_loop (fuel : nat) (w : World) (imageUrls : list jsstring)
    (projectId : option jsstring) (quality : number) (concurrency : Z)
    (resizeOptions : option ResizeOptions) (i : Z)
    (results : list ImageProcessResult) : M (list ImageProcessResult) :=
  match fuel with
  | O => diverge
  | S fuel' =>
      if i <? Z.of_nat (List.length imageUrls) then
        let batch := slice imageUrls i (i + concurrency) in
        emit (EvChunk (mapi (fun url index => (url, batch_file_name w i index)) batch)) ;;
        let batchResults :=
          mapi (fun url index =>
                  processAndUploadImage (item w i index) url projectId
                    (Some (batch_file_name w i index)) (Some quality)
                    resizeOptions)
               batch in
        batch_loop fuel' w imageUrls projectId quality concurrency resizeOptions
          (i + concurrency) (results ++ batchResults)
      else ret results
  end.

(** [processAndUploadImagesBatch]; [concurrency] defaults to 3. *)
Definition processAndUploadImagesBatch (fuel : nat) (w : World)
    (imageUrls : list jsstring) (projectId : option jsstring)
    (quality : option number) (concurrency : option Z)
    (resizeOptions : option ResizeOptions) : M (list ImageProcessResult) :=
  batch_loop fuel w imageUrls projectId (default (num_of_Z 80) quality)
    (default 3 concurrency) resizeOptions 0 [].

(** ** [generateDoubaoSeedreamImage] *)

(** An entry of [images] in the returned value. *)
Record image_entry : Type := {
  img_url : option jsstring;
  img_ossKey : option jsstring;
  img_originalSize : option number;
  img_compressedSize : option number;
  img_compressionRatio : option number
}.

(** The returned value; an absent field is [None]. *)
Record Outcome : Type := {
  o_success : bool;
  o_urls : option (list (option jsstring));
  o_ossKeys : option (list jsstring);
  o_error : option message;
  o_images : option (list image_entry)
}.

(** One supplemental call (lines 226-258), for loop variable [i]; call
    number [i + 2] is the one the log lines name. The delay sits inside
    the [try], after the response has been read. *)
Definition supplemental_call (w : World) (requestBody : DoubaoSeedreamRequest)
    (remainingImages : number) (i : Z) (allImageUrls : list jsstring)
    : M (list jsstring) :=
  try_catch
    (additionalResponse <- fetch_api w (additional_request_body requestBody) ;;
     pushed <-
       match additionalResponse with
       | ApiRejects t => throw t
       | ApiOk (inl t) => throw t
       | ApiOk (inr (Some (first :: _))) => ret (allImageUrls ++ [first])
       | ApiOk (inr _) => ret allImageUrls
       | ApiNotOk _ _ _ => emit (EvWarn (i + 2)) ;; ret allImageUrls
       end ;;
     (if num_lt (num_of_Z i) (num_sub remainingImages (num_of_Z 1))
      then emit (EvDelay 1000) else ret tt) ;;
     ret pushed)
    (fun _ => emit (EvWarn (i + 2)) ;; ret allImageUrls).

(** The loop of lines 225-259, entered with loop variable [i]. *)
Fixpoint supplemental_loop (fuel : nat) (w : World)
    (requestBody : DoubaoSeedreamRequest) (remainingImages : number) (i : Z)
    (allImageUrls : list jsstring) : M (list jsstring) :=
  match fuel with
  | O => diverge
  | S fuel' =>
      if num_lt (num_of_Z i) remainingImages then
        urls <- supplemental_call w requestBody remainingImages i allImageUrls ;;
        supplemental_loop fuel' w requestBody remainingImages (i + 1) urls
      else ret allImageUrls
  end.

(** Iterations the loop [for (i = 0; i < remaining; i++)] can need. *)
Definition loop_fuel (remaining : number) : nat :=
  match remaining with
  | Fin q => S (Z.to_nat (Qceiling q))
  | _ => O
  end.

(** The entry built from a successful result (lines 280-286). *)
Definition to_image (result : ImageProcessResult) : image_entry := {|
  img_url := url result;
  img_ossKey := ossKey result;
  img_originalSize := originalSize result;
  img_compressedSize := compressedSize result;
  img_compressionRatio := compressionRatio result
|}.

(** [.filter((key): key is string => Boolean(key))] after the [map]. *)
Fixpoint truthy_keys (keys : list (option jsstring)) : list jsstring :=
  match keys with
  | Some k :: t => if truthy_str k then k :: truthy_keys t else truthy_keys t
  | None :: t => truthy_keys t
  | [] => []
  end.

(** Lines 85-262: validation, the primary call, the supplemental calls.
    Gives the raw URLs, the pipeline quality and the resize directive. *)
Definition acquire (w : World) (params : Params)
    : M (list jsstring * number * option ResizeOptions) :=
  validatedParams <-
    match schema_parse params with
    | inl issues => throw (ThrownError (MsgZod issues))
    | inr v => ret v
    end ;;
  let requestedSize := v_size validatedParams in
  let (apiSize, targetResizeOptions) :=
    resolve_size requestedSize (resizeOptions params) in
  match keep_truthy_str (SEED_EDIT_KEY w) with
  | None => throw (ThrownError MsgMissingKey)
  | Some _ =>
      let requestBody := build_request_body validatedParams apiSize in
      response <- fetch_api w requestBody ;;
      data <-
        match response with
        | ApiRejects t => throw t
        | ApiNotOk status statusText (inl t) => throw t
        | ApiNotOk status statusText (inr errorText) =>
            throw (ThrownError (MsgApiFailed status statusText errorText))
        | ApiOk json => lift json
        end ;;
      let imageUrls := default [] data in
      if (List.length imageUrls =? 0)%nat then throw (ThrownError MsgNoImageUrl)
      else
        let imageQuality := image_quality (quality params) in
        let requestedImages :=
          if truthy_num (v_num_images validatedParams)
          then v_num_images validatedParams else num_of_Z 1 in
        allImageUrls <-
          (if num_lt (num_of_nat (List.length imageUrls)) requestedImages then
             let remainingImages :=
               num_sub requestedImages (num_of_nat (List.length imageUrls)) in
             supplemental_loop (loop_fuel remainingImages) w requestBody
               remainingImages 0 imageUrls
           else ret imageUrls) ;;
        ret (allImageUrls, imageQuality, targetResizeOptions)
  end.

(** Lines 264-303: the pipeline and the value returned on success. *)
Definition process (w : World) (params : Params)
    (acquired : list jsstring * number * option ResizeOptions) : M Outcome :=
  let '(allImageUrls, imageQuality, targetResizeOptions) := acquired in
  processResults <-
    processAndUploadImagesBatch (S (List.length allImageUrls)) w allImageUrls
      (projectId params) (Some imageQuality) (Some 3) targetResizeOptions ;;
  let successfulResults := filter success processResults in
  if (List.length successfulResults =? 0)%nat
  then throw (ThrownError MsgAllProcessingFailed)
  else
    let images := map to_image successfulResults in
    ret {| o_success := true;
           o_urls := Some (map img_url images);
           o_ossKeys := Some (truthy_keys (map img_ossKey images));
           o_error := None;
           o_images := Some images |}.

(** The [catch] of lines 305-313. *)
Definition failed (errorMessage : message) : Outcome :=
  {| o_success := false; o_urls := None; o_ossKeys := None;
     o_error := Some errorMessage; o_images := None |}.

(** [generateDoubaoSeedreamImage], run from the empty trace: what the
    promise settles to ([inr] resolves, [inl] rejects) and the calls made. *)
Definition generateDoubaoSeedreamImage (w : World) (params : Params)
    : option ((thrown + Outcome) * trace) :=
  try_catch (acquired <- acquire w params ;; process w params acquired)
            (fun e => ret (failed (message_of e))) [].

(** * Vocabulary of the properties *)

(** ** Requests and sizes *)

(** [n] is a finite number between the integers [lo] and [hi]. *)
Definition within (lo hi : Z) (n : number) : Prop :=
  exists q, n = Fin q /\ (inject_Z lo <= q)%Q /\ (q <= inject_Z hi)%Q.

(** The fields of a request that pass the schema. *)
Definition fields_valid (p : Params) : Prop :=
  (1 <= List.length (prompt p) <= 800)%nat
  /\ (forall s, negative_prompt p = Some s -> (List.length s <= 500)%nat)
  /\ (forall s, size p = Some s -> size_accepted s = true)
  /\ (forall n, num_images p = Some n -> within 1 4 n)
  /\ (forall n, seed p = Some n -> within 0 2147483647 n)
  /\ (forall n, quality p = Some (QNum n) -> within 1 10 n).

(** A non-empty string of decimal digits. *)
Definition digit_string (d : jsstring) : Prop :=
  d <> [] /\ forallb is_digit d = true.

(** The letter of a size string: [x] or [X]. *)
Definition is_times (c : N) : Prop := c = 120%N \/ c = 88%N.

(** The directive derived from a size string (lines 103-108). *)
Definition derived_resize (width height : number) : ResizeOptions :=
  {| ro_width := Some width;
     ro_height := Some height;
     ro_fit := Some (lit "cover");
     ro_position := Some (lit "center") |}.

(** A request that sets only the prompt. *)
Definition prompt_only (s : jsstring) : Params := {|
  prompt := s;
  negative_prompt := None;
  image := None;
  size := None;
  num_images := None;
  sequential_image_generation := None;
  stream := None;
  watermark := None;
  seed := None;
  projectId := None;
  quality := None;
  resizeOptions := None
|}.

Definition with_size (s : jsstring) (p : Params) : Params := {|
  prompt := prompt p;
  negative_prompt := negative_prompt p;
  image := image p;
  size := Some s;
  num_images := num_images p;
  sequential_image_generation := sequential_image_generation p;
  stream := stream p;
  watermark := watermark p;
  seed := seed p;
  projectId := projectId p;
  quality := quality p;
  resizeOptions := resizeOptions p
|}.

Definition with_num_images (n : number) (p : Params) : Params := {|
  prompt := prompt p;
  negative_prompt := negative_prompt p;
  image := image p;
  size := size p;
  num_images := Some n;
  sequential_image_generation := sequential_image_generation p;
  stream := stream p;
  watermark := watermark p;
  seed := seed p;
  projectId := projectId p;
  quality := quality p;
  resizeOptions := resizeOptions p
|}.

Definition with_negative_prompt (s : jsstring) (p : Params) : Params := {|
  prompt := prompt p;
  negative_prompt := Some s;
  image := image p;
  size := size p;
  num_images := num_images p;
  sequential_image_generation := sequential_image_generation p;
  stream := stream p;
  watermark := watermark p;
  seed := seed p;
  projectId := projectId p;
  quality := quality p;
  resizeOptions := resizeOptions p
|}.

(** The prompt of the spec's scenario, 秋山红叶, as code units. *)
Definition autumn_prompt : jsstring := [31179; 23665; 32418; 21494]%N.

(** [{prompt: "秋山红叶", size: "2K", num_images: 1}]. *)
Definition autumn_request : Params :=
  with_num_images (num_of_Z 1) (with_size (lit "2K") (prompt_only autumn_prompt)).

(** The tier sent to the provider for a request that validates. *)
Definition api_size (p : Params) : DoubaoSeedreamSize :=
  fst (resolve_size (v_size (schema_output p)) (resizeOptions p)).

(** The resize directive handed to the pipeline for such a request. *)
Definition target_resize (p : Params) : option ResizeOptions :=
  snd (resolve_size (v_size (schema_output p)) (resizeOptions p)).

(** A size string that is neither a tier name nor of the form W x H. *)
Definition malformed_size (s : jsstring) : Prop := size_accepted s = false.

(** A width of 401 digits. *)
Definition huge_width : jsstring := lit "1" ++ repeat 48%N 400.

(** ** Sample worlds and pipeline results *)

(** An image host, encoder and store that work: 4 bytes in, 2 bytes out. *)
Definition good_item : ItemWorld := {|
  iw_fetch := fun _ => FetchOk (inr [82; 73; 70; 70]%N);
  iw_webp := fun _ _ _ => inr [87; 69]%N;
  iw_now := 1700000000000;
  iw_random := lit "k3x9qz";
  iw_put := fun _ _ => inr tt;
  iw_signatureUrl := fun key _ => inr (lit "https://oss.example/" ++ key)
|}.

(** An image host that answers 404. *)
Definition missing_item : ItemWorld := {|
  iw_fetch := fun _ => FetchNotOk 404 (lit "Not Found");
  iw_webp := iw_webp good_item;
  iw_now := iw_now good_item;
  iw_random := iw_random good_item;
  iw_put := iw_put good_item;
  iw_signatureUrl := iw_signatureUrl good_item
|}.

(** A provider that returns two images on every call. *)
Definition sample_world : World := {|
  SEED_EDIT_KEY := Some (lit "secret");
  api := fun _ _ => ApiOk (inr (Some [lit "https://p.example/1.png";
                                      lit "https://p.example/2.png"]));
  item := fun _ _ => good_item;
  date_now := fun _ _ => 1700000000000
|}.

(** The record returned when every step worked. *)
Definition processed_image (iw : ItemWorld) (projectId fileName : option jsstring)
    (original processed : buffer) (signedUrl : jsstring) : ImageProcessResult :=
  {| success := true;
     url := Some signedUrl;
     ossKey := Some (oss_key iw projectId fileName);
     error := None;
     originalSize := Some (num_of_nat (List.length original));
     compressedSize := Some (num_of_nat (List.length processed));
     compressionRatio :=
       Some (compression_ratio (List.length original) (List.length processed)) |}.

(** Chunk number [j] of a list cut into chunks of [c]. *)
Definition chunk_at {A} (c : nat) (l : list A) (j : nat) : list A :=
  firstn c (skipn (j * c) l).

(** Number of chunks of [c] needed for [n] items. *)
Definition chunk_count (c n : nat) : nat := ((n + c - 1) / c)%nat.

(** What chunk [j] launches: each URL with its file name. *)
Definition chunk_items (w : World) (c : nat) (urls : list jsstring) (j : nat)
    : list (jsstring * jsstring) :=
  mapi (fun url index => (url, batch_file_name w (Z.of_nat (j * c)) index))
       (chunk_at c urls j).

(** What chunk [j] returns. *)
Definition chunk_results (w : World) (projectId : option jsstring) (q : number)
    (ro : option ResizeOptions) (c : nat) (urls : list jsstring) (j : nat)
    : list ImageProcessResult :=
  mapi (fun url index =>
          processAndUploadImage (item w (Z.of_nat (j * c)) index) url projectId
            (Some (batch_file_name w (Z.of_nat (j * c)) index)) (Some q) ro)
       (chunk_at c urls j).

(** The result of the URL at position [k] of a batch cut into chunks of
    [c]: it is item [k mod c] of the chunk that starts at [k / c * c]. *)
Definition result_at (w : World) (projectId : option jsstring) (q : number)
    (ro : option ResizeOptions) (c : nat) (k : nat) (url : jsstring)
    : ImageProcessResult :=
  processAndUploadImage (item w (Z.of_nat (k / c * c)) (k mod c)%nat) url projectId
    (Some (batch_file_name w (Z.of_nat (k / c * c)) (k mod c)%nat)) (Some q) ro.

(** A world where the second item of the first chunk cannot be fetched. *)
Definition middle_fails_world : World := {|
  SEED_EDIT_KEY := SEED_EDIT_KEY sample_world;
  api := api sample_world;
  item := fun i index =>
            if (i =? 0) && (index =? 1)%nat then missing_item else good_item;
  date_now := date_now sample_world
|}.

Definition urls_ABC : list jsstring := [lit "A"; lit "B"; lit "C"].

(** ** Runs of the whole call *)

(** The request bodies POSTed to the provider, in order. *)
Definition api_calls (tr : trace) : list DoubaoSeedreamRequest :=
  flat_map (fun e => match e with EvFetchApi b => [b] | _ => [] end) tr.

(** What one supplemental call adds to the URLs and, after its POST, to
    the trace, by the provider's reply. *)
Definition supplemental_effect (reply : api_reply) (remainingImages : number)
    (i : Z) (allImageUrls : list jsstring) : list jsstring * list event :=
  let pause :=
    if num_lt (num_of_Z i) (num_sub remainingImages (num_of_Z 1))
    then [EvDelay 1000] else [] in
  match reply with
  | ApiRejects _ | ApiOk (inl _) => (allImageUrls, [EvWarn (i + 2)])
  | ApiNotOk _ _ _ => (allImageUrls, EvWarn (i + 2) :: pause)
  | ApiOk (inr (Some (first :: _))) => (allImageUrls ++ [first], pause)
  | ApiOk (inr _) => (allImageUrls, pause)
  end.

(** The body of the primary request of a request that validates. *)
Definition primary_body (p : Params) : DoubaoSeedreamRequest :=
  build_request_body (schema_output p) (api_size p).

(** What the primary reply makes the call throw, if anything (lines
    173-197). *)
Definition primary_failure (reply : api_reply) : option thrown :=
  match reply with
  | ApiRejects t => Some t
  | ApiNotOk _ _ (inl t) => Some t
  | ApiNotOk status statusText (inr errorText) =>
      Some (ThrownError (MsgApiFailed status statusText errorText))
  | ApiOk (inl t) => Some t
  | ApiOk (inr data) =>
      match default [] data with
      | [] => Some (ThrownError MsgNoImageUrl)
      | _ => None
      end
  end.

(** The number of images asked for, [validatedParams.num_images || 1]. *)
Definition requested_images (p : Params) : number :=
  if truthy_num (v_num_images (schema_output p))
  then v_num_images (schema_output p) else num_of_Z 1.

(** The value returned when [successful] is the non-empty list of
    successful results (lines 280-303). *)
Definition success_outcome (successful : list ImageProcessResult) : Outcome :=
  {| o_success := true;
     o_urls := Some (map url successful);
     o_ossKeys := Some (truthy_keys (map ossKey successful));
     o_error := None;
     o_images := Some (map to_image successful) |}.

(** The chunk events of the pipeline run on [urls] with concurrency 3. *)
Definition pipeline_events (w : World) (urls : list jsstring) : trace :=
  map (fun j => EvChunk (chunk_items w 3 urls j))
      (seq 0 (chunk_count 3 (List.length urls))).

(** The results of the pipeline run on [urls]. *)
Definition pipeline_results (w : World) (p : Params) (q : number)
    (ro : option ResizeOptions) (urls : list jsstring) : list ImageProcessResult :=
  mapi (fun url k => result_at w (projectId p) q ro 3 k url) urls.

(** The four ways lines 85-262 end: validation fails, the key is missing,
    the primary call fails, or the raw URLs are there. *)
Inductive acquire_outcome (w : World) (p : Params) :
    option ((thrown + list jsstring * number * option ResizeOptions) * trace) -> Prop :=
| acq_invalid issues :
    schema_parse p = inl issues ->
    acquire_outcome w p (Some (inl (ThrownError (MsgZod issues)), []))
| acq_no_key :
    schema_parse p = inr (schema_output p) ->
    keep_truthy_str (SEED_EDIT_KEY w) = None ->
    acquire_outcome w p (Some (inl (ThrownError MsgMissingKey), []))
| acq_primary_failed t :
    schema_parse p = inr (schema_output p) ->
    keep_truthy_str (SEED_EDIT_KEY w) <> None ->
    primary_failure (api w [] (primary_body p)) = Some t ->
    acquire_outcome w p (Some (inl t, [EvFetchApi (primary_body p)]))
| acq_urls data urls ext :
    schema_parse p = inr (schema_output p) ->
    keep_truthy_str (SEED_EDIT_KEY w) <> None ->
    api w [] (primary_body p) = ApiOk (inr data) ->
    default [] data <> [] ->
    (List.length (default [] data) <= List.length urls)%nat ->
    api_calls ext
    = repeat (additional_request_body (primary_body p))
        (match num_sub (requested_images p)
                 (num_of_nat (List.length (default [] data))) with
         | Fin q => Z.to_nat (Qceiling q)
         | _ => 0%nat
         end) ->
    acquire_outcome w p
      (Some (inr (urls, image_quality (quality p), target_resize p),
             EvFetchApi (primary_body p) :: ext)).

(** What the processing step settles to, given the pipeline's results. *)
Definition processed (results : list ImageProcessResult) : thrown + Outcome :=
  match filter success results with
  | [] => inl (ThrownError MsgAllProcessingFailed)
  | successful => inr (success_outcome successful)
  end.

(** The value a thrown value becomes in the [catch]. *)
Definition settle (r : thrown + Outcome) : Outcome :=
  match r with
  | inr outcome => outcome
  | inl e => failed (message_of e)
  end.

(** A world with no API key. *)
Definition keyless_world : World := {|
  SEED_EDIT_KEY := None;
  api := api sample_world;
  item := item sample_world;
  date_now := date_now sample_world
|}.

(** A provider that returns one image, then drops the connection of the
    next call, then answers again. *)
Definition flaky_world : World := {|
  SEED_EDIT_KEY := SEED_EDIT_KEY sample_world;
  api := fun tr _ =>
           match List.length (api_calls tr) with
           | 0%nat => ApiOk (inr (Some [lit "https://p.example/1.png"]))
           | 1%nat => ApiRejects (ThrownError (MsgOther (lit "fetch failed")))
           | _ => ApiOk (inr (Some [lit "https://p.example/3.png"]))
           end;
  item := item sample_world;
  date_now := date_now sample_world
|}.

(** The same provider answering the second call with HTTP 429. *)
Definition throttled_world : World := {|
  SEED_EDIT_KEY := SEED_EDIT_KEY sample_world;
  api := fun tr _ =>
           match List.length (api_calls tr) with
           | 0%nat => ApiOk (inr (Some [lit "https://p.example/1.png"]))
           | 1%nat => ApiNotOk 429 (lit "Too Many Requests") (inr (lit "slow down"))
           | _ => ApiOk (inr (Some [lit "https://p.example/3.png"]))
           end;
  item := item sample_world;
  date_now := date_now sample_world
|}.

Definition three_images : Params := with_num_images (num_of_Z 3) autumn_request.

(** * The rest of the client, the image utilities and the object store manager *)

(** ** [generateDoubaoSeedreamImagesBatch] and [getSupportedImageSizes] *)

(** [generateDoubaoSeedreamImage] as a step of a longer run: the same
    body, started from the trace so far. *)
Definition generateDoubaoSeedreamImage_from (w : World) (params : Params)
    : M Outcome :=
  try_catch (acquired <- acquire w params ;; process w params acquired)
            (fun e => ret (failed (message_of e))).

(** The [options] of the batch variant; [size] is a tier name there. *)
Record BatchOptions : Type := {
  bo_negative_prompt : option jsstring;
  bo_image : option image_ref;
  bo_size : option DoubaoSeedreamSize;
  bo_num_images : option number;
  bo_sequential_image_generation : option SeqMode;
  bo_stream : option bool;
  bo_watermark : option bool;
  bo_seed : option number;
  bo_projectId : option jsstring;
  bo_quality : option quality_t
}.

(** The string a tier name is. *)
Definition size_token (s : DoubaoSeedreamSize) : jsstring :=
  match s with
  | Size2K => lit "2K"
  | Size4K => lit "4K"
  end.

(** [{ prompt, ...options }]. *)
Definition batch_params (p : jsstring) (o : BatchOptions) : Params := {|
  prompt := p;
  negative_prompt := bo_negative_prompt o;
  image := bo_image o;
  size := option_map size_token (bo_size o);
  num_images := bo_num_images o;
  sequential_image_generation := bo_sequential_image_generation o;
  stream := bo_stream o;
  watermark := bo_watermark o;
  seed := bo_seed o;
  projectId := bo_projectId o;
  quality := bo_quality o;
  resizeOptions := None
|}.

(** [{ prompt, ...result }]. *)
Record BatchEntry : Type := {
  be_prompt : jsstring;
  be_result : Outcome
}.

(** The loop of lines 339-352 over the prompts left; prompt number [k]
    meets the world [ws k]. *)
Fixpoint prompts_loop (ws : nat -> World) (k : nat) (prompts : list jsstring)
    (options : BatchOptions) (results : list BatchEntry) : M (list BatchEntry) :=
  match prompts with
  | [] => ret results
  | p :: rest =>
      result <- generateDoubaoSeedreamImage_from (ws k) (batch_params p options) ;;
      emit (EvDelay 1000) ;;
      prompts_loop ws (S k) rest options
        (results ++ [{| be_prompt := p; be_result := result |}])
  end.

(** [generateDoubaoSeedreamImagesBatch], run from the empty trace. *)
Definition generateDoubaoSeedreamImagesBatch (ws : nat -> World)
    (prompts : list jsstring) (options : BatchOptions)
    : option ((thrown + list BatchEntry) * trace) :=
  prompts_loop ws 0 prompts options [] [].

(** An entry of [getSupportedImageSizes]. *)
Record SizeChoice : Type := {
  sc_value : jsstring;
  sc_label : jsstring;
  sc_ratio : jsstring
}.

(** [getSupportedImageSizes]; the labels are "2K (2048×2048)" and
    "4K (4096×4096)", with the multiplication sign U+00D7. *)
Definition getSupportedImageSizes : list SizeChoice :=
  [ {| sc_value := lit "2K";
       sc_label := lit "2K (2048" ++ [215%N] ++ lit "2048)";
       sc_ratio := lit "1:1" |};
    {| sc_value := lit "4K";
       sc_label := lit "4K (4096" ++ [215%N] ++ lit "4096)";
       sc_ratio := lit "1:1" |} ].

(** ** Words for the further properties *)

(** [s.startsWith(prefix)]. *)
Definition starts_with (prefix s : jsstring) : Prop :=
  firstn (List.length prefix) s = prefix.

(** ** [generateThumbnail] *)

(** What one invocation of [generateThumbnail] meets outside: the plain
    [fetch(imageUrl)], the resize to cover [width x height] followed by the
    WebP encoding at quality 85, the way a number prints in a template
    literal, and the clock, random source and object store. *)
Record ThumbWorld : Type := {
  tw_fetch : jsstring -> fetch_reply;
  tw_resize_webp : buffer -> number -> number -> thrown + buffer;
  tw_show : number -> jsstring;
  tw_store : ItemWorld
}.


(** Lines 231-234. *)
Definition thumbnail_key (tw : ThumbWorld) (width height : number)
    (projectId : option jsstring) : jsstring :=
  lit "thumbnails/" ++ str_or projectId (lit "default") ++ lit "/"
  ++ dec (iw_now (tw_store tw)) ++ lit "-" ++ iw_random (tw_store tw) ++ lit "-"
  ++ tw_show tw width ++ lit "x" ++ tw_show tw height ++ lit ".webp".



(** ** The object store manager ([OSSImageManager]) *)

Record ImageDownloadResult : Type := {
  dr_ossKey : jsstring;
  dr_originalUrl : jsstring;
  dr_success : bool;
  dr_error : option message
}.

(** Outcome of the [fetch] of [downloadAndSaveImage]: rejected, not ok,
    or ok with the [content-type] header, if any, and the body. *)
Inductive download_reply : Type :=
| DlRejects (t : thrown)
| DlNotOk (status : Z) (statusText : jsstring)
| DlOk (contentType : option jsstring) (arrayBuffer : thrown + buffer).

(** What one invocation of [downloadAndSaveImage] meets outside; [sw_put]
    receives the key, the bytes and the [Content-Type] header. *)
Record SaveWorld : Type := {
  sw_fetch : jsstring -> download_reply;
  sw_now : Z;
  sw_show : number -> jsstring;
  sw_put : jsstring -> buffer -> jsstring -> thrown + unit
}.

Fixpoint is_prefix (p s : jsstring) : bool :=
  match p, s with
  | [], _ => true
  | a :: p', b :: s' => (a =? b)%N && is_prefix p' s'
  | _ :: _, [] => false
  end.

(** [s.includes(sub)]. *)
Fixpoint includes (s sub : jsstring) : bool :=
  is_prefix sub s
  || match s with
     | [] => false
     | _ :: t => includes t sub
     end.

(** Lines 58-67 of the manager: the extension chosen for a content type. *)
Definition extension_of (contentType : jsstring) : jsstring :=
  if includes contentType (lit "png") then lit "png"
  else if includes contentType (lit "jpeg") || includes contentType (lit "jpg")
       then lit "jpg"
  else if includes contentType (lit "webp") then lit "webp"
  else lit "jpg".

(** The [Content-Type] of the upload: [contentType || `image/${extension}`]. *)
Definition upload_content_type (contentType : jsstring) : jsstring :=
  if truthy_str contentType then contentType
  else lit "image/" ++ extension_of contentType.

Definition page_key (sw : SaveWorld) (projectId assetId : jsstring)
    (pageNumber : number) (extension : jsstring) : jsstring :=
  lit "projects/" ++ projectId ++ lit "/assets/" ++ assetId
  ++ lit "/pages/page-" ++ sw_show sw pageNumber ++ lit "-" ++ dec (sw_now sw)
  ++ lit "." ++ extension.

(** The [try] block of [downloadAndSaveImage]. *)
Definition downloadAndSaveImage_try (sw : SaveWorld) (imageUrl : jsstring)
    (projectId assetId : jsstring) (pageNumber : number)
    : thrown + ImageDownloadResult :=
  match sw_fetch sw imageUrl with
  | DlRejects t => inl t
  | DlNotOk status statusText =>
      inl (ThrownError (MsgDownloadFailed status statusText))
  | DlOk header body =>
      let? buffer := body in
      if (List.length buffer =? 0)%nat then inl (ThrownError MsgEmptyImage)
      else
        let contentType := str_or header [] in
        let extension := extension_of contentType in
        let ossKey := page_key sw projectId assetId pageNumber extension in
        let? _ := sw_put sw ossKey buffer (upload_content_type contentType) in
        inr {| dr_ossKey := ossKey;
               dr_originalUrl := imageUrl;
               dr_success := true;
               dr_error := None |}
  end.

Definition downloadAndSaveImage (sw : SaveWorld) (imageUrl : jsstring)
    (projectId assetId : jsstring) (pageNumber : number) : ImageDownloadResult :=
  match downloadAndSaveImage_try sw imageUrl projectId assetId pageNumber with
  | inr r => r
  | inl t =>
      {| dr_ossKey := [];
         dr_originalUrl := imageUrl;
         dr_success := false;
         dr_error := Some (message_of t) |}
  end.

(** The arguments of one call of [onProgress]. *)
Record ProgressCall : Type := {
  pc_completed : nat;
  pc_total : nat;
  pc_current : option ImageDownloadResult
}.

(** The loop of [downloadAndSaveImages], entered with loop variable [i];
    the calls of [onProgress] made so far are kept in [calls]. A callback
    that throws makes the batch reject. *)
Fixpoint save_loop (fuel : nat) (sws : Z -> nat -> SaveWorld)
    (imageUrls : list jsstring) (projectId assetId : jsstring) (concurrency : Z)
    (onProgress : option (ProgressCall -> thrown + unit)) (i : Z)
    (results : list ImageDownloadResult) (calls : list ProgressCall)
    : option ((thrown + list ImageDownloadResult) * list ProgressCall) :=
  match fuel with
  | O => None
  | S fuel' =>
      if i <? Z.of_nat (List.length imageUrls) then
        let batch := slice imageUrls i (i + concurrency) in
        let batchResults :=
          mapi (fun url index =>
                  downloadAndSaveImage (sws i index) url projectId assetId
                    (num_of_Z (i + Z.of_nat index + 1)))
               batch in
        let results' := results ++ batchResults in
        match onProgress with
        | Some callback =>
            let call :=
              {| pc_completed := List.length results';
                 pc_total := List.length imageUrls;
                 pc_current := List.last (map Some batchResults) None |} in
            match callback call with
            | inl t => Some (inl t, calls ++ [call])
            | inr _ =>
                save_loop fuel' sws imageUrls projectId assetId concurrency
                  onProgress (i + concurrency) results' (calls ++ [call])
            end
        | None =>
            save_loop fuel' sws imageUrls projectId assetId concurrency
              onProgress (i + concurrency) results' calls
        end
      else Some (inr results, calls)
  end.

(** [downloadAndSaveImages]; [concurrency] defaults to 3. *)
Definition downloadAndSaveImages (fuel : nat) (sws : Z -> nat -> SaveWorld)
    (imageUrls : list jsstring) (projectId assetId : jsstring)
    (concurrency : option Z) (onProgress : option (ProgressCall -> thrown + unit))
    : option ((thrown + list ImageDownloadResult) * list ProgressCall) :=
  save_loop fuel sws imageUrls projectId assetId (default 3 concurrency)
    onProgress 0 [] [].

(** The result of the URL at position [k] of such a batch. *)
Definition saved_at (sws : Z -> nat -> SaveWorld) (projectId assetId : jsstring)
    (c : nat) (k : nat) (url : jsstring) : ImageDownloadResult :=
  downloadAndSaveImage (sws (Z.of_nat (k / c * c)) (k mod c)%nat) url projectId
    assetId (num_of_Z (Z.of_nat k + 1)).

(** What chunk [j] of such a batch returns. *)
Definition saved_chunk (sws : Z -> nat -> SaveWorld) (projectId assetId : jsstring)
    (c : nat) (urls : list jsstring) (j : nat) : list ImageDownloadResult :=
  mapi (fun url index =>
          downloadAndSaveImage (sws (Z.of_nat (j * c)) index) url projectId assetId
            (num_of_Z (Z.of_nat (j * c) + Z.of_nat index + 1)))
       (chunk_at c urls j).

(** What the progress callback is given after chunk [j]. *)
Definition progress_at (sws : Z -> nat -> SaveWorld) (projectId assetId : jsstring)
    (c : nat) (urls : list jsstring) (j : nat) : ProgressCall :=
  {| pc_completed := Nat.min (S j * c) (List.length urls);
     pc_total := List.length urls;
     pc_current :=
       List.last (map Some (saved_chunk sws projectId assetId c urls j)) None |}.

(** A world in which every host serves a small PNG and the store accepts
    every upload. *)
Definition png_host (i : Z) (index : nat) : SaveWorld :=
  {| sw_fetch := fun _ => DlOk (Some (lit "image/png")) (inr [137; 80; 78; 71]%N);
     sw_now := 1700000000000 + i + Z.of_nat index;
     sw_show := fun n => match n with
                         | Fin q => dec (Qfloor q)
                         | _ => lit "NaN"
                         end;
     sw_put := fun _ _ _ => inr tt |}.

Definition five_urls : list jsstring :=
  [lit "https://p.example/1"; lit "https://p.example/2"; lit "https://p.example/3";
   lit "https://p.example/4"; lit "https://p.example/5"].




(** ** The poem image route *)

(** [phone.replace(/[^0-9]/g, "")]. *)
Definition digits_of (phone : jsstring) : jsstring := filter is_digit phone.

(** "中国风古典画，重阳节主题，诗情画意，细腻笔触，高品质" *)
Definition basePrompt : jsstring :=
  [20013; 22269; 39118; 21476; 20856; 30011; 65292; 37325; 38451; 33410; 20027;
   39064; 65292; 35799; 24773; 30011; 24847; 65292; 32454; 33147; 31508; 35302;
   65292; 39640; 21697; 36136]%N.

(** "金黄菊花，秋天山峰，古典建筑，茱萸，温暖色调" *)
Definition chongyangElements : jsstring :=
  [37329; 40644; 33738; 33457; 65292; 31179; 22825; 23665; 23792; 65292; 21476;
   20856; 24314; 31569; 65292; 33585; 33848; 65292; 28201; 26262; 33394; 35843]%N.

(** The fullwidth comma "，". *)
Definition comma : jsstring := [65292]%N.

(** "，水墨画风格，意境深远，艺术感强" *)
Definition style_suffix : jsstring :=
  [65292; 27700; 22696; 30011; 39118; 26684; 65292; 24847; 22659; 28145; 36828;
   65292; 33402; 26415; 24863; 24378]%N.

(** "标题：" and "内容：" *)
Definition title_label : jsstring := [26631; 39064; 65306]%N.
Definition content_label : jsstring := [20869; 23481; 65306]%N.

Definition buildPoemImagePrompt (keywords : jsstring)
    (title content : option jsstring) : jsstring :=
  let prompt :=
    keywords ++ comma ++ chongyangElements ++ comma ++ basePrompt ++ style_suffix in
  let prompt :=
    match keep_truthy_str title with
    | Some t => title_label ++ t ++ comma ++ prompt
    | None => prompt
    end in
  match keep_truthy_str content with
  | Some c => content_label ++ c ++ comma ++ prompt
  | None => prompt
  end.

(** The argument of the route's call of [generateDoubaoSeedreamImage], for
    a record with phone [phone] and (integer) id [recordId]. *)
Definition poem_image_params (keywords : jsstring) (title content : option jsstring)
    (phone : jsstring) (recordId : Z) : Params := {|
  prompt := buildPoemImagePrompt keywords title content;
  negative_prompt := None;
  image := None;
  size := Some (lit "2K");
  num_images := None;
  sequential_image_generation := None;
  stream := None;
  watermark := None;
  seed := None;
  projectId := Some (lit "poem/" ++ digits_of phone ++ lit "/" ++ dec recordId);
  quality := Some (QTier hd);
  resizeOptions := None
|}.

(** The length the optional part [s] adds to the prompt. *)
Definition labelled_length (s : option jsstring) : nat :=
  match keep_truthy_str s with
  | Some v => (List.length v + 4)%nat
  | None => 0%nat
  end.

(** ** The poem route: choice of a template *)

Record PoemTemplate : Type := {
  t_elements : list jsstring;
  t_title : jsstring;
  t_template : jsstring;
  t_keywords : jsstring
}.

(** "菊花" *)
Definition element_0 : jsstring := [33738; 33457]%N.

(** "登高" *)
Definition element_1 : jsstring := [30331; 39640]%N.

(** "秋风" *)
Definition element_2 : jsstring := [31179; 39118]%N.

(** "敬老" *)
Definition element_3 : jsstring := [25964; 32769]%N.

(** "团圆" *)
Definition element_4 : jsstring := [22242; 22278]%N.

(** "亲情" *)
Definition element_5 : jsstring := [20146; 24773]%N.

(** "思乡" *)
Definition element_6 : jsstring := [24605; 20065]%N.

(** "明月" *)
Definition element_7 : jsstring := [26126; 26376]%N.

(** "茱萸" *)
Definition element_8 : jsstring := [33585; 33848]%N.

(** Elements "菊花" "登高" "秋风"; title "重阳登高";
    poem "九九登高望远山，秋风萧瑟叶飘然。手持茱萸思故里，遥寄亲情到云边。";
    keywords "秋天山峰，金黄菊花，古典山水画，中国风，暖色调，重阳节氛围". *)
Definition template_0 : PoemTemplate := {|
  t_elements := [element_0; element_1; element_2];
  t_title :=
    [37325; 38451; 30331; 39640]%N;
  t_template :=
    [20061; 20061; 30331; 39640; 26395; 36828; 23665; 65292; 31179; 39118; 33831; 29791;
    21494; 39128; 28982; 12290; 25163; 25345; 33585; 33848; 24605; 25925; 37324; 65292;
    36965; 23492; 20146; 24773; 21040; 20113; 36793; 12290]%N;
  t_keywords :=
    [31179; 22825; 23665; 23792; 65292; 37329; 40644; 33738; 33457; 65292; 21476; 20856;
    23665; 27700; 30011; 65292; 20013; 22269; 39118; 65292; 26262; 33394; 35843; 65292;
    37325; 38451; 33410; 27675; 22260]%N
|}.

(** Elements "菊花" "敬老" "团圆"; title "菊花香";
    poem "金菊绽放满庭芳，重阳佳节倍思乡。举杯遥祝亲人健，但愿长安共此光。";
    keywords "盛开的金色菊花，中式庭院，秋天，温馨氛围，中国画风格". *)
Definition template_1 : PoemTemplate := {|
  t_elements := [element_0; element_3; element_4];
  t_title :=
    [33738; 33457; 39321]%N;
  t_template :=
    [37329; 33738; 32509; 25918; 28385; 24237; 33459; 65292; 37325; 38451; 20339; 33410;
    20493; 24605; 20065; 12290; 20030; 26479; 36965; 31069; 20146; 20154; 20581; 65292;
    20294; 24895; 38271; 23433; 20849; 27492; 20809; 12290]%N;
  t_keywords :=
    [30427; 24320; 30340; 37329; 33394; 33738; 33457; 65292; 20013; 24335; 24237; 38498;
    65292; 31179; 22825; 65292; 28201; 39336; 27675; 22260; 65292; 20013; 22269; 30011;
    39118; 26684]%N
|}.

(** Elements "敬老" "亲情" "团圆"; title "敬老情深";
    poem "重阳佳节寄深情，敬老尊贤代代承。团圆时刻心相聚，天伦之乐暖人心。";
    keywords "温馨家庭聚会，祖孙三代，菊花茶，传统中式客厅，温暖色调". *)
Definition template_2 : PoemTemplate := {|
  t_elements := [element_3; element_5; element_4];
  t_title :=
    [25964; 32769; 24773; 28145]%N;
  t_template :=
    [37325; 38451; 20339; 33410; 23492; 28145; 24773; 65292; 25964; 32769; 23562; 36132;
    20195; 20195; 25215; 12290; 22242; 22278; 26102; 21051; 24515; 30456; 32858; 65292;
    22825; 20262; 20043; 20048; 26262; 20154; 24515; 12290]%N;
  t_keywords :=
    [28201; 39336; 23478; 24237; 32858; 20250; 65292; 31062; 23385; 19977; 20195; 65292;
    33738; 33457; 33590; 65292; 20256; 32479; 20013; 24335; 23458; 21381; 65292; 28201;
    26262; 33394; 35843]%N
|}.

(** Elements "思乡" "明月" "茱萸"; title "秋思";
    poem "明月高悬照九州，秋风送爽上高楼。遍插茱萸少一人，他乡游子泪双流。";
    keywords "明月，古典高楼，秋天夜晚，茱萸，思乡意境，中国水墨画风格". *)
Definition template_3 : PoemTemplate := {|
  t_elements := [element_6; element_7; element_8];
  t_title :=
    [31179; 24605]%N;
  t_template :=
    [26126; 26376; 39640; 24748; 29031; 20061; 24030; 65292; 31179; 39118; 36865; 29245;
    19978; 39640; 27004; 12290; 36941; 25554; 33585; 33848; 23569; 19968; 20154; 65292;
    20182; 20065; 28216; 23376; 27882; 21452; 27969; 12290]%N;
  t_keywords :=
    [26126; 26376; 65292; 21476; 20856; 39640; 27004; 65292; 31179; 22825; 22812; 26202;
    65292; 33585; 33848; 65292; 24605; 20065; 24847; 22659; 65292; 20013; 22269; 27700;
    22696; 30011; 39118; 26684]%N
|}.

Definition POEM_TEMPLATES : list PoemTemplate :=
  [template_0; template_1; template_2; template_3].

(** What [selectPoemTemplate] returns. *)
Record PoemPick : Type := {
  pk_title : jsstring;
  pk_content : jsstring;
  pk_keywords : jsstring
}.

Definition pick_of (t : PoemTemplate) : PoemPick :=
  {| pk_title := t_title t; pk_content := t_template t; pk_keywords := t_keywords t |}.

(** [template.elements.filter(el => elements.includes(el)).length]. *)
Definition matches (elements : list jsstring) (template : PoemTemplate) : nat :=
  List.length (filter (fun el => existsb (str_eqb el) elements) (t_elements template)).

(** One turn of the loop over the templates, on [(bestMatch, maxMatches)]. *)
Definition better (elements : list jsstring) (state : option PoemTemplate * nat)
    (template : PoemTemplate) : option PoemTemplate * nat :=
  if (snd state <? matches elements template)%nat
  then (Some template, matches elements template)
  else state.

(** [l[z]] for an integer index; [None] is [undefined]. *)
Definition at_index {A} (l : list A) (z : Z) : option A :=
  if z <? 0 then None else nth_error l (Z.to_nat z).

(** [selectPoemTemplate], with [random] the value of [Math.random()];
    [None] is the [TypeError] of reading a property of [undefined]. *)
Definition selectPoemTemplate (random : Q) (elements : list jsstring)
    : option PoemPick :=
  let (bestMatch, maxMatches) :=
    fold_left (better elements) POEM_TEMPLATES (at_index POEM_TEMPLATES 0, 0%nat) in
  let bestMatch :=
    if (maxMatches =? 0)%nat
    then at_index POEM_TEMPLATES
           (Qfloor (random * inject_Z (Z.of_nat (List.length POEM_TEMPLATES))))
    else bestMatch in
  option_map pick_of bestMatch.

(** ** The photo restore routes *)

(** "请对输入的老照片进行修复，保持人物外观真实自然，修正刮痕、噪点和模糊，
    还原为彩色光影，并且变成清晰的图像，犹如索尼相机拍摄，高色彩饱和度。" *)
Definition fallbackPrompt : jsstring :=
  [35831; 23545; 36755; 20837; 30340; 32769; 29031; 29255; 36827; 34892; 20462;
   22797; 65292; 20445; 25345; 20154; 29289; 22806; 35266; 30495; 23454; 33258;
   28982; 65292; 20462; 27491; 21038; 30165; 12289; 22122; 28857; 21644; 27169;
   31946; 65292; 36824; 21407; 20026; 24425; 33394; 20809; 24433; 65292; 24182;
   19988; 21464; 25104; 28165; 26224; 30340; 22270; 20687; 65292; 29369; 22914;
   32034; 23612; 30456; 26426; 25293; 25668; 65292; 39640; 33394; 24425; 39281;
   21644; 24230; 12290]%N.

(** [makeProjectPrefix], with [uuid] the value of [randomUUID()]. *)
Definition makeProjectPrefix (uuid : jsstring) (phone : jsstring) : jsstring :=
  let normalized := digits_of phone in
  lit "photo-restore/"
  ++ (if truthy_str normalized then normalized else lit "guest")
  ++ lit "/" ++ uuid.

(** `${projectPrefix}/original.${finalExtension}` *)
Definition original_key (projectPrefix finalExtension : jsstring) : jsstring :=
  projectPrefix ++ lit "/original." ++ finalExtension.

(** The argument of the routes' call of [generateDoubaoSeedreamImage]. *)
Definition photo_restore_params (originalUrl projectPrefix : jsstring) : Params := {|
  prompt := fallbackPrompt;
  negative_prompt := None;
  image := Some (ImgOne originalUrl);
  size := Some (lit "2K");
  num_images := None;
  sequential_image_generation := None;
  stream := None;
  watermark := None;
  seed := None;
  projectId := Some projectPrefix;
  quality := Some (QTier hd);
  resizeOptions := None
|}.

(** The directory and file name stem shared by the keys of one call. *)
Definition batch_key_prefix (projectId : option jsstring) : jsstring :=
  lit "generated-images/" ++ str_or projectId (lit "default") ++ lit "/batch-".

(** * Properties *)

(** ** Comparisons *)

Lemma Qltb_true (a b : Q) : Qltb a b = true <-> (a < b)%Q.
Proof.
  unfold Qltb. rewrite negb_true_iff. split; intro H.
  - apply Qnot_le_lt. intro Hle. apply Qle_bool_iff in Hle. congruence.
  - destruct (Qle_bool b a) eqn:E; [|reflexivity].
    apply Qle_bool_iff in E. exfalso. apply (Qlt_not_le _ _ H E).
Qed.

Lemma Qltb_false (a b : Q) : Qltb a b = false <-> (b <= a)%Q.
Proof.
  unfold Qltb. rewrite negb_false_iff. apply Qle_bool_iff.
Qed.

(** ** Rounding to binary64 *)

Lemma round_half_even_ge (x : Q) (k : Z) :
  (inject_Z k <= x)%Q -> k <= round_half_even x.
Proof.
  intro H. unfold round_half_even.
  assert (Hk : k <= Qfloor x).
  { rewrite <- (Qfloor_Z k). apply Qfloor_resp_le. exact H. }
  destruct (x - inject_Z (Qfloor x) ?= 1 # 2)%Q; [destruct (Z.even (Qfloor x))| |]; lia.
Qed.

Lemma round_half_even_le (x : Q) (k : Z) :
  (x <= inject_Z k)%Q -> round_half_even x <= k.
Proof.
  intro H. unfold round_half_even.
  pose proof (Qfloor_le x) as Hf.
  assert (Hk : Qfloor x <= k).
  { rewrite Zle_Qle. eapply Qle_trans; eassumption. }
  assert (Hup : (0 < x - inject_Z (Qfloor x))%Q -> Qfloor x + 1 <= k).
  { intro Hpos. assert (Hlt : (inject_Z (Qfloor x) < inject_Z k)%Q) by lra.
    rewrite <- Zlt_Qlt in Hlt. lia. }
  destruct (x - inject_Z (Qfloor x) ?= 1 # 2)%Q eqn:E.
  - apply Qeq_alt in E. destruct (Z.even (Qfloor x)); [lia|]. apply Hup. lra.
  - lia.
  - apply Qgt_alt in E. apply Hup. lra.
Qed.

Lemma round_half_even_near (x : Q) :
  (Qabs (inject_Z (round_half_even x) - x) <= 1 # 2)%Q.
Proof.
  unfold round_half_even.
  pose proof (Qfloor_le x) as Hf. pose proof (Qlt_floor x) as Hc.
  rewrite inject_Z_plus in Hc. change (inject_Z 1) with 1%Q in Hc.
  apply Qabs_Qle_condition.
  destruct (x - inject_Z (Qfloor x) ?= 1 # 2)%Q eqn:E.
  - apply Qeq_alt in E.
    destruct (Z.even (Qfloor x));
      [|rewrite inject_Z_plus; change (inject_Z 1) with 1%Q]; lra.
  - apply Qlt_alt in E. lra.
  - apply Qgt_alt in E. rewrite inject_Z_plus. change (inject_Z 1) with 1%Q. lra.
Qed.

Lemma pow2_pos (e : Z) : (0 < 2 ^ e)%Q.
Proof. apply Qpower_0_lt. reflexivity. Qed.

Lemma pow2_succ (e : Z) : (2 ^ (e + 1) == 2 ^ e * 2)%Q.
Proof. rewrite Qpower_plus by discriminate. reflexivity. Qed.

Lemma pow2_pred (e : Z) : (2 ^ (e - 1) * 2 == 2 ^ e)%Q.
Proof. rewrite <- pow2_succ. replace (e - 1 + 1) with e by lia. reflexivity. Qed.

Lemma pow2_inject (k : Z) : 0 <= k -> (inject_Z (2 ^ k) == 2 ^ k)%Q.
Proof. intro H. rewrite (Zpower_Qpower 2 k H). reflexivity. Qed.

Lemma pow2_log2 (n : Z) :
  0 < n ->
  (2 ^ Z.log2 n <= inject_Z n)%Q /\ (inject_Z n < 2 ^ Z.log2 n * 2)%Q.
Proof.
  intro Hn. destruct (Z.log2_spec n Hn) as [Hlo Hhi].
  pose proof (Z.log2_nonneg n) as H0.
  split.
  - rewrite <- pow2_inject by exact H0. rewrite <- Zle_Qle. exact Hlo.
  - rewrite <- pow2_succ. rewrite <- pow2_inject by lia.
    rewrite <- Zlt_Qlt. exact Hhi.
Qed.

Lemma Qfloor_log2_spec (x : Q) :
  (0 < x)%Q -> (2 ^ Qfloor_log2 x <= x)%Q /\ (x < 2 ^ (Qfloor_log2 x + 1))%Q.
Proof.
  intro Hx. unfold Qfloor_log2.
  destruct x as [n d].
  assert (Hn : 0 < n) by (unfold Qlt in Hx; simpl in Hx; lia).
  cbn [Qnum Qden].
  destruct (pow2_log2 n Hn) as [An1 An2].
  destruct (pow2_log2 (Zpos d) eq_refl) as [Ad1 Ad2].
  set (ln := Z.log2 n) in *. set (ld := Z.log2 (Zpos d)) in *.
  pose proof (pow2_pos ln) as PA. pose proof (pow2_pos ld) as PB.
  pose proof (pow2_pos (ln - ld)) as PT.
  assert (HT : (2 ^ (ln - ld) * 2 ^ ld == 2 ^ ln)%Q).
  { rewrite <- Qpower_plus by discriminate.
    replace (ln - ld + ld) with ln by lia. reflexivity. }
  assert (Hxd : ((n # d) * inject_Z (Zpos d) == inject_Z n)%Q).
  { unfold Qeq, Qmult, inject_Z. simpl. lia. }
  assert (Hd : (0 < inject_Z (Zpos d))%Q) by reflexivity.
  set (x := (n # d)) in *. set (T := (2 ^ (ln - ld))%Q) in *.
  set (A := (2 ^ ln)%Q) in *. set (B := (2 ^ ld)%Q) in *.
  set (N := inject_Z n) in *. set (D := inject_Z (Zpos d)) in *.
  assert (Hlow : (T < x * 2)%Q).
  { apply (Qmult_lt_r _ _ D Hd). nra. }
  assert (Hhigh : (x < T * 2)%Q).
  { apply (Qmult_lt_r _ _ D Hd). nra. }
  unfold Qltb. destruct (Qle_bool T x) eqn:E; cbn [negb].
  - apply Qle_bool_iff in E. split; [exact E|].
    subst T. rewrite pow2_succ. exact Hhigh.
  - assert (Hlt : (x < T)%Q).
    { apply Qnot_le_lt. intro H. apply Qle_bool_iff in H. congruence. }
    replace (ln - ld - 1 + 1) with (ln - ld) by lia. split; [|exact Hlt].
    pose proof (pow2_pred (ln - ld)) as Hp. fold T in Hp.
    apply Qlt_le_weak. apply (Qmult_lt_r _ _ 2); [reflexivity|].
    rewrite Hp. exact Hlow.
Qed.

Lemma last_place_le (x : Q) (k : Z) :
  ~ (x == 0)%Q -> (Qabs x < 2 ^ k)%Q -> -1021 <= k -> last_place x <= k - 53.
Proof.
  intros Hx Hk Hmin. unfold last_place.
  assert (Hpos : (0 < Qabs x)%Q).
  { destruct (Qlt_le_dec 0 (Qabs x)) as [H|H]; [exact H|].
    exfalso. apply Hx. apply Qabs_Qle_condition in H. lra. }
  destruct (Qfloor_log2_spec (Qabs x) Hpos) as [Hlo _].
  assert (Hlt : (2 ^ Qfloor_log2 (Qabs x) < 2 ^ k)%Q)
    by (eapply Qle_lt_trans; eassumption).
  apply Qpower_lt_compat_l_inv in Hlt; [|reflexivity]. lia.
Qed.

(** What [round64] gives for a non-zero [x] of magnitude below [2^53]. *)
Lemma round64_small (x : Q) :
  ~ (x == 0)%Q -> (Qabs x < 2 ^ 53)%Q ->
  round64 x
  = Fin (Qred (inject_Z (round_half_even (x / 2 ^ last_place x))
               * 2 ^ last_place x)).
Proof.
  intros Hx Hk. unfold round64.
  destruct (Qeq_bool x 0) eqn:E; [apply Qeq_bool_eq in E; contradiction|].
  pose proof (last_place_le x 53 Hx Hk ltac:(lia)) as He.
  cbv zeta. destruct (Z.leb_spec 971 (last_place x)) as [H|H]; [lia|reflexivity].
Qed.

Lemma round64_zero (x : Q) : (x == 0)%Q -> round64 x = Fin 0.
Proof.
  intro H. unfold round64. apply Qeq_bool_iff in H. rewrite H. reflexivity.
Qed.

(** Rounding never crosses an integer: integers of magnitude below [2^53]
    are binary64 values. *)
Lemma round64_between (x : Q) (a b : Z) :
  (Qabs x < 2 ^ 53)%Q -> (inject_Z a <= x)%Q -> (x <= inject_Z b)%Q ->
  exists v, round64 x = Fin v /\ Qred v = v
            /\ (inject_Z a <= v)%Q /\ (v <= inject_Z b)%Q.
Proof.
  intros Hk Ha Hb.
  destruct (Qeq_dec x 0) as [H0|H0].
  - exists 0%Q. rewrite (round64_zero x H0). split; [reflexivity|].
    split; [reflexivity|]. split; lra.
  - rewrite (round64_small x H0 Hk).
    pose proof (last_place_le x 53 H0 Hk ltac:(lia)) as He.
    set (e := last_place x) in *.
    eexists. split; [reflexivity|].
    split; [apply Qred_complete, Qred_correct|].
    rewrite Qred_correct.
    pose proof (pow2_pos e) as Pe.
    assert (Hgrid : forall z : Z,
               (inject_Z z / 2 ^ e == inject_Z (z * 2 ^ (- e)))%Q).
    { intro z. rewrite inject_Z_mult, pow2_inject by lia.
      rewrite Qpower_opp. reflexivity. }
    split.
    + assert (H : a * 2 ^ (- e) <= round_half_even (x / 2 ^ e)).
      { apply round_half_even_ge. rewrite <- Hgrid.
        apply Qmult_le_compat_r; [exact Ha|].
        apply Qlt_le_weak, Qinv_lt_0_compat, Pe. }
      rewrite Zle_Qle in H. rewrite <- Hgrid in H.
      apply (Qmult_le_r _ _ (/ 2 ^ e)); [apply Qinv_lt_0_compat, Pe|].
      rewrite <- Qmult_assoc, Qmult_inv_r by lra. rewrite Qmult_1_r. exact H.
    + assert (H : round_half_even (x / 2 ^ e) <= b * 2 ^ (- e)).
      { apply round_half_even_le. rewrite <- Hgrid.
        apply Qmult_le_compat_r; [exact Hb|].
        apply Qlt_le_weak, Qinv_lt_0_compat, Pe. }
      rewrite Zle_Qle in H. rewrite <- Hgrid in H.
      apply (Qmult_le_r _ _ (/ 2 ^ e)); [apply Qinv_lt_0_compat, Pe|].
      rewrite <- Qmult_assoc, Qmult_inv_r by lra. rewrite Qmult_1_r. exact H.
Qed.

Lemma Qred_inject_Z (z : Z) : Qred (inject_Z z) = inject_Z z.
Proof.
  unfold Qred, inject_Z. cbn [Qnum Qden].
  pose proof (Z.ggcd_gcd z 1) as Hg.
  pose proof (Z.ggcd_correct_divisors z 1) as Hd.
  destruct (Z.ggcd z 1) as [g [aa bb]]. cbn [fst snd] in *.
  rewrite Z.gcd_1_r in Hg. subst g. destruct Hd as [Ha Hb].
  rewrite Z.mul_1_l in Ha, Hb. subst aa bb. reflexivity.
Qed.

(** An integer of magnitude below [2^53] is its own binary64 value. *)
Lemma round64_integer (x : Q) (z : Z) :
  (x == inject_Z z)%Q -> Z.abs z < 2 ^ 53 -> round64 x = Fin (inject_Z z).
Proof.
  intros Hx Hz.
  assert (Hk : (Qabs x < 2 ^ 53)%Q).
  { apply Qabs_Qlt_condition. rewrite Hx, <- pow2_inject by lia.
    rewrite <- inject_Z_opp, <- !Zlt_Qlt. lia. }
  destruct (round64_between x z z Hk) as (v & -> & Hv & Hlo & Hhi);
    [rewrite Hx; apply Qle_refl | rewrite Hx; apply Qle_refl|].
  f_equal. rewrite <- Hv.
  assert (E : (v == inject_Z z)%Q) by (apply Qle_antisym; assumption).
  rewrite (Qred_complete _ _ E). apply Qred_inject_Z.
Qed.

(** The error of rounding a value of magnitude below [2^k]. *)
Lemma round64_error (x : Q) (k : Z) :
  (Qabs x < 2 ^ k)%Q -> -1021 <= k <= 53 ->
  exists v, round64 x = Fin v /\ (Qabs (v - x) <= 2 ^ (k - 54))%Q.
Proof.
  intros Hk Hrange.
  destruct (Qeq_dec x 0) as [H0|H0].
  - exists 0%Q. rewrite (round64_zero x H0). split; [reflexivity|].
    assert (E : (0 - x == 0)%Q) by lra. rewrite E.
    apply Qlt_le_weak, pow2_pos.
  - assert (Hk53 : (Qabs x < 2 ^ 53)%Q).
    { eapply Qlt_le_trans; [exact Hk|].
      apply Qpower_le_compat_l; [lia | discriminate]. }
    rewrite (round64_small x H0 Hk53).
    pose proof (last_place_le x k H0 Hk ltac:(lia)) as He.
    set (e := last_place x) in *.
    eexists. split; [reflexivity|]. rewrite Qred_correct.
    pose proof (pow2_pos e) as Pe.
    pose proof (round_half_even_near (x / 2 ^ e)) as Hn.
    set (m := inject_Z (round_half_even (x / 2 ^ e))) in *.
    assert (E : (m * 2 ^ e - x == (m - x / 2 ^ e) * 2 ^ e)%Q).
    { field. lra. }
    rewrite E, Qabs_Qmult, (Qabs_pos (2 ^ e)) by lra.
    assert (Hhalf : (2 ^ (e - 1) * 2 == 2 ^ e)%Q) by apply pow2_pred.
    assert (Hmono : (2 ^ (e - 1) <= 2 ^ (k - 54))%Q)
      by (apply Qpower_le_compat_l; [lia | discriminate]).
    pose proof (pow2_pos (e - 1)) as Pe1.
    set (err := Qabs (m - x / 2 ^ e)) in *.
    set (P := (2 ^ e)%Q) in *. set (P1 := (2 ^ (e - 1))%Q) in *.
    set (K := (2 ^ (k - 54))%Q) in *.
    assert (H0e : (0 <= err)%Q) by apply Qabs_nonneg.
    nra.
Qed.

(** [round64] on a few reals, against the binary64 values: a third, the
    odd integers next to [2^53] (two ties), half of the least subnormal (a
    tie, to zero), and the two sides of the overflow threshold. *)
Lemma round64_samples :
  round64 (1 # 3) = Fin (6004799503160661 # 18014398509481984)
  /\ round64 (inject_Z (2 ^ 53 + 1)) = Fin (inject_Z (2 ^ 53))
  /\ round64 (inject_Z (2 ^ 53 + 3)) = Fin (inject_Z (2 ^ 53 + 4))
  /\ round64 (1 # Z.to_pos (2 ^ 1075)) = Fin 0
  /\ round64 (3 # Z.to_pos (2 ^ 1075)) = Fin (1 # Z.to_pos (2 ^ 1073))
  /\ round64 (inject_Z (binary64_overflow - 1)) = Fin (inject_Z (2 ^ 1024 - 2 ^ 971))
  /\ round64 (inject_Z binary64_overflow) = PosInf
  /\ round64 (- inject_Z binary64_overflow) = NegInf.
Proof. vm_compute. repeat split. Qed.

Lemma round64_not_nan (x : Q) : round64 x <> NaN.
Proof.
  unfold round64. destruct (Qeq_bool x 0); [discriminate|]. cbv zeta.
  destruct (971 <=? last_place x); [|discriminate].
  destruct (Qle_bool _ _); [destruct (Qltb x 0)|]; discriminate.
Qed.

(** ** The schema's checks *)

Lemma check_number_nil (lo hi : Z) (nan small big : zod_issue) (n : number) :
  check_number lo hi nan small big n = [] <-> within lo hi n.
Proof.
  unfold within. destruct n as [| | |q]; simpl.
  - split; [discriminate | intros (q & H & _); discriminate].
  - split; [discriminate | intros (q & H & _); discriminate].
  - split; [discriminate | intros (q & H & _); discriminate].
  - unfold num_gt. simpl.
    destruct (Qltb q (inject_Z lo)) eqn:E1; destruct (Qltb (inject_Z hi) q) eqn:E2;
      simpl; split; try discriminate; try (intros _; reflexivity).
    + intros (q' & Hq & Hlo & Hhi). inversion Hq; subst q'.
      apply Qltb_true in E1. exfalso. apply (Qlt_not_le _ _ E1 Hlo).
    + intros (q' & Hq & Hlo & Hhi). inversion Hq; subst q'.
      apply Qltb_true in E1. exfalso. apply (Qlt_not_le _ _ E1 Hlo).
    + intros (q' & Hq & Hlo & Hhi). inversion Hq; subst q'.
      apply Qltb_true in E2. exfalso. apply (Qlt_not_le _ _ E2 Hhi).
    + intros _. exists q. apply Qltb_false in E1, E2. auto.
Qed.

Lemma check_prompt_nil (s : jsstring) :
  check_prompt s = [] <-> (1 <= List.length s <= 800)%nat.
Proof.
  unfold check_prompt.
  destruct (List.length s <? 1)%nat eqn:E1; destruct (800 <? List.length s)%nat eqn:E2;
    simpl; split; try discriminate; try reflexivity;
    rewrite ?Nat.ltb_lt, ?Nat.ltb_ge in *; lia.
Qed.

Lemma check_negative_prompt_nil (s : jsstring) :
  check_negative_prompt s = [] <-> (List.length s <= 500)%nat.
Proof.
  unfold check_negative_prompt.
  destruct (500 <? List.length s)%nat eqn:E; split; try discriminate; try reflexivity;
    rewrite ?Nat.ltb_lt, ?Nat.ltb_ge in *; lia.
Qed.

Lemma check_size_nil (s : jsstring) :
  check_size s = [] <-> size_accepted s = true.
Proof.
  unfold check_size. destruct (size_accepted s); split; congruence.
Qed.

Lemma check_quality_nil (q : quality_t) :
  check_quality q = [] <-> (forall n, q = QNum n -> within 1 10 n).
Proof.
  destruct q as [n|t]; simpl.
  - destruct (check_number 1 10 QualityInvalid QualityInvalid QualityInvalid n) eqn:E.
    + apply check_number_nil in E. split; [|reflexivity].
      intros _ m Hm. inversion Hm; subst; exact E.
    + split; [discriminate|]. intro H.
      assert (W : within 1 10 n) by (apply H; reflexivity).
      apply (check_number_nil 1 10 QualityInvalid QualityInvalid QualityInvalid) in W.
      congruence.
  - split; [intros _ n Hn; discriminate | reflexivity].
Qed.

Lemma check_opt_nil {A} (chk : A -> list zod_issue) (o : option A) :
  check_opt chk o = [] <-> (forall a, o = Some a -> chk a = []).
Proof.
  destruct o as [a|]; simpl; split; intro H.
  - intros b Hb. inversion Hb; subst; exact H.
  - apply H; reflexivity.
  - intros b Hb; discriminate.
  - reflexivity.
Qed.

Lemma app_nil_iff {A} (l1 l2 : list A) : l1 ++ l2 = [] <-> l1 = [] /\ l2 = [].
Proof.
  split.
  - apply app_eq_nil.
  - intros [-> ->]. reflexivity.
Qed.

Lemma schema_issues_nil (p : Params) :
  schema_issues p = [] <-> fields_valid p.
Proof.
  unfold schema_issues, fields_valid.
  rewrite !app_nil_iff, check_prompt_nil, !check_opt_nil.
  split.
  - intros (H1 & H2 & H3 & H4 & H5 & H6). repeat split; try apply H1.
    + intros s Hs. apply check_negative_prompt_nil, H2, Hs.
    + intros s Hs. apply check_size_nil, H3, Hs.
    + intros n Hn. eapply check_number_nil, H4, Hn.
    + intros n Hn. eapply check_number_nil, H5, Hn.
    + intros n Hn. apply (proj1 (check_quality_nil _) (H6 _ Hn)). reflexivity.
  - intros (H1 & H2 & H3 & H4 & H5 & H6). repeat split; try apply H1.
    + intros s Hs. apply check_negative_prompt_nil, H2, Hs.
    + intros s Hs. apply check_size_nil, H3, Hs.
    + intros n Hn. apply check_number_nil, H4, Hn.
    + intros n Hn. apply check_number_nil, H5, Hn.
    + intros q Hq. apply check_quality_nil. intros n Hn. subst q. apply H6, Hq.
Qed.

Lemma schema_parse_ok (p : Params) :
  fields_valid p <-> schema_parse p = inr (schema_output p).
Proof.
  rewrite <- schema_issues_nil. unfold schema_parse.
  destruct (schema_issues p); split; congruence.
Qed.

Lemma schema_parse_rejects (p : Params) :
  ~ fields_valid p <-> exists issues, schema_parse p = inl issues.
Proof.
  rewrite <- schema_issues_nil. unfold schema_parse.
  destruct (schema_issues p) as [|i l]; split.
  - intro H; exfalso; apply H; reflexivity.
  - intros [issues H]; discriminate.
  - intros _. exists (i :: l). reflexivity.
  - intros _ H; discriminate.
Qed.

Lemma generate_validation_error (w : World) (p : Params) (issues : list zod_issue) :
  schema_parse p = inl issues ->
  generateDoubaoSeedreamImage w p = Some (inr (failed (MsgZod issues)), []).
Proof.
  intro H. unfold generateDoubaoSeedreamImage, try_catch, bind, acquire.
  rewrite H. reflexivity.
Qed.

(** ** Size strings *)

Lemma is_times_not_digit (c : N) : is_times c -> is_digit c = false.
Proof. intros [-> | ->]; reflexivity. Qed.

Lemma span_digits_app (d rest : jsstring) (c : N) :
  forallb is_digit d = true -> is_digit c = false ->
  span_digits (d ++ c :: rest) = (d, c :: rest).
Proof.
  intros Hd Hc. induction d as [|a d IH]; simpl.
  - rewrite Hc. reflexivity.
  - simpl in Hd. apply andb_prop in Hd as [Ha Hd].
    rewrite Ha, (IH Hd). reflexivity.
Qed.

Lemma span_digits_all (d : jsstring) :
  forallb is_digit d = true -> span_digits d = (d, []).
Proof.
  induction d as [|a d IH]; simpl; intro Hd; [reflexivity|].
  apply andb_prop in Hd as [Ha Hd]. rewrite Ha, (IH Hd). reflexivity.
Qed.

Lemma size_regex_test_WxH (dw dh : jsstring) (c : N) :
  digit_string dw -> digit_string dh -> is_times c ->
  size_regex_test (dw ++ c :: dh) = true.
Proof.
  intros [Hw1 Hw2] [Hh1 Hh2] Hc. unfold size_regex_test.
  rewrite (span_digits_app _ _ _ Hw2 (is_times_not_digit _ Hc)).
  destruct dw as [|a dw]; [congruence|].
  destruct dh as [|b dh]; [congruence|].
  rewrite Hh2, andb_true_r. destruct Hc as [-> | ->]; reflexivity.
Qed.

Lemma toLowerCase_digits (d : jsstring) :
  forallb is_digit d = true -> toLowerCase d = d.
Proof.
  unfold toLowerCase. induction d as [|a d IH]; simpl; intro Hd; [reflexivity|].
  apply andb_prop in Hd as [Ha Hd]. rewrite (IH Hd).
  unfold is_digit in Ha. apply andb_prop in Ha as [Ha1 Ha2].
  apply N.leb_le in Ha1, Ha2.
  destruct (65 <=? a)%N eqn:E; simpl; [|reflexivity].
  apply N.leb_le in E. lia.
Qed.

Lemma toLowerCase_WxH (dw dh : jsstring) (c : N) :
  digit_string dw -> digit_string dh -> is_times c ->
  toLowerCase (dw ++ c :: dh) = dw ++ 120%N :: dh.
Proof.
  intros [_ Hw] [_ Hh] Hc.
  assert (E : toLowerCase (dw ++ c :: dh)
              = toLowerCase dw ++ toLowerCase [c] ++ toLowerCase dh).
  { unfold toLowerCase. rewrite map_app. reflexivity. }
  rewrite E, (toLowerCase_digits _ Hw), (toLowerCase_digits _ Hh).
  destruct Hc as [-> | ->]; reflexivity.
Qed.

Lemma split_on_digits (d : jsstring) :
  forallb is_digit d = true -> split_on 120 d = [d].
Proof.
  induction d as [|a d IH]; simpl; intro Hd; [reflexivity|].
  apply andb_prop in Hd as [Ha Hd]. rewrite (IH Hd).
  destruct (a =? 120)%N eqn:E; [|reflexivity].
  apply N.eqb_eq in E. subst a. discriminate.
Qed.

Lemma split_on_WxH (dw dh : jsstring) :
  forallb is_digit dw = true -> forallb is_digit dh = true ->
  split_on 120 (dw ++ 120%N :: dh) = [dw; dh].
Proof.
  intros Hw Hh. induction dw as [|a dw IH]; simpl.
  - rewrite (split_on_digits _ Hh). reflexivity.
  - simpl in Hw. apply andb_prop in Hw as [Ha Hw]. rewrite (IH Hw).
    destruct (a =? 120)%N eqn:E; [|reflexivity].
    apply N.eqb_eq in E. subst a. discriminate.
Qed.

Lemma parseInt10_digits (d : jsstring) :
  digit_string d -> parseInt10 (Some d) = number_of_mathInt (digits_value d).
Proof.
  intros [Hne Hd]. destruct d as [|a d]; [congruence|].
  unfold parseInt10.
  assert (Ha : is_digit a = true) by (simpl in Hd; apply andb_prop in Hd; tauto).
  assert (Hs : skip_space (a :: d) = a :: d).
  { simpl. unfold is_digit in Ha. apply andb_prop in Ha as [H1 H2].
    apply N.leb_le in H1, H2. unfold is_ascii_space.
    destruct (a =? 32)%N eqn:E1; [apply N.eqb_eq in E1; lia|].
    destruct (a <=? 13)%N eqn:E2; [apply N.leb_le in E2; lia|].
    rewrite andb_false_r. reflexivity. }
  rewrite Hs.
  assert (Hsign : strip_sign (a :: d) = (false, a :: d)).
  { unfold strip_sign.
    destruct (N.eq_dec a 45) as [->|N1]; [discriminate|].
    destruct (N.eq_dec a 43) as [->|N2]; [discriminate|].
    destruct a as [|pa]; [reflexivity|].
    repeat (destruct pa as [pa|pa|]; try reflexivity; try congruence). }
  rewrite Hsign, (span_digits_all _ Hd). reflexivity.
Qed.

(** The two numbers read off a size string [W x H]. *)
Lemma resolve_size_parts (dw dh : jsstring) (c : N) :
  digit_string dw -> digit_string dh -> is_times c ->
  let parts := split_on 120 (toLowerCase (dw ++ c :: dh)) in
  parseInt10 (nth_error parts 0) = number_of_mathInt (digits_value dw)
  /\ parseInt10 (nth_error parts 1) = number_of_mathInt (digits_value dh).
Proof.
  intros Hw Hh Hc. cbv zeta.
  rewrite (toLowerCase_WxH _ _ _ Hw Hh Hc), (split_on_WxH _ _ (proj2 Hw) (proj2 Hh)).
  simpl. split; apply parseInt10_digits; assumption.
Qed.

(** ** Rounding *)

Lemma digits_value_nonneg (d : jsstring) : 0 <= digits_value d.
Proof.
  unfold digits_value.
  assert (G : forall acc, 0 <= acc ->
            0 <= fold_left (fun a c => 10 * a + digit_value c) d acc).
  { induction d as [|c d IH]; cbn [fold_left]; intros acc Hacc; [exact Hacc|].
    apply IH. unfold digit_value.
    pose proof (N2Z.is_nonneg (c - 48)). lia. }
  apply G. lia.
Qed.

Lemma round_binary64_exact (z : Z) : z < 2 ^ 53 -> round_binary64 z = Some z.
Proof.
  intro H. unfold round_binary64.
  destruct (z <? 2 ^ 53) eqn:E; [reflexivity|]. apply Z.ltb_ge in E. lia.
Qed.

Lemma shiftr_log2_lower (z : Z) :
  2 ^ 53 <= z -> 2 ^ 52 <= Z.shiftr z (Z.log2 z - 52).
Proof.
  intro Hz. assert (Hpos : 0 < z) by lia.
  assert (HL : 53 <= Z.log2 z) by (apply Z.log2_le_pow2; lia).
  rewrite Z.shiftr_div_pow2 by lia.
  destruct (Z.log2_spec z Hpos) as [Hlo _].
  remember (Z.log2 z - 52) as e eqn:He.
  replace (Z.log2 z) with (52 + e) in Hlo by lia.
  rewrite Z.pow_add_r in Hlo by lia.
  apply Z.div_le_lower_bound; [apply Z.pow_pos_nonneg; lia|].
  rewrite Z.mul_comm. exact Hlo.
Qed.

(** A value of 2^53 or more stays at 2^52 or more when rounded. *)
Lemma round_binary64_large (z v : Z) :
  2 ^ 53 <= z -> round_binary64 z = Some v -> 2 ^ 52 <= v.
Proof.
  intros Hz. unfold round_binary64.
  destruct (z <? 2 ^ 53) eqn:E; [apply Z.ltb_lt in E; lia|].
  pose proof (shiftr_log2_lower z Hz) as Hq.
  assert (HL : 53 <= Z.log2 z) by (apply Z.log2_le_pow2; lia).
  remember (Z.log2 z - 52) as e eqn:He.
  remember (Z.shiftr z e) as q eqn:Eq.
  assert (Hp : 1 <= 2 ^ e) by (apply Z.lt_pred_le, Z.pow_pos_nonneg; lia).
  cbv zeta.
  match goal with
  | |- context [if ?c then Some (?a * _) else None] =>
      assert (Hq' : q <= a)
  end.
  { destruct (z - q * 2 ^ e <? 2 ^ (e - 1)); [lia|].
    destruct (2 ^ (e - 1) <? z - q * 2 ^ e); [lia|].
    destruct (Z.even q); lia. }
  match goal with
  | |- context [if ?c then Some (?a * _) else None] => remember a as q' eqn:Eq'
  end.
  destruct (q' * 2 ^ e <? 2 ^ 1024); [|discriminate].
  intro Hv. inversion Hv; subst v. nia.
Qed.

(** Overflow starts at [2^1024 - 2^970], half an ulp above the largest
    finite binary64 value. *)
Lemma round_binary64_overflow (z : Z) :
  0 <= z -> (round_binary64 z = None <-> binary64_overflow <= z).
Proof.
  intro Hz. unfold round_binary64, binary64_overflow.
  destruct (z <? 2 ^ 53) eqn:E.
  { apply Z.ltb_lt in E. split; [discriminate|].
    intro H. assert (2 ^ 53 < 2 ^ 1024 - 2 ^ 970) by (vm_compute; reflexivity). lia. }
  apply Z.ltb_ge in E.
  assert (Hpos : 0 < z) by lia.
  pose proof (shiftr_log2_lower z E) as Hq.
  assert (HL : 53 <= Z.log2 z) by (apply Z.log2_le_pow2; lia).
  destruct (Z.log2_spec z Hpos) as [Hlo Hhi].
  remember (Z.log2 z) as L eqn:EL.
  remember (L - 52) as e eqn:He.
  rewrite Z.shiftr_div_pow2 in * by lia.
  assert (HP : 0 < 2 ^ e) by (apply Z.pow_pos_nonneg; lia).
  assert (Hhalf : 2 ^ e = 2 * 2 ^ (e - 1)).
  { replace e with (Z.succ (e - 1)) at 1 by lia. apply Z.pow_succ_r. lia. }
  assert (HLe : 2 ^ L = 2 ^ 52 * 2 ^ e).
  { replace L with (52 + e) by lia. apply Z.pow_add_r; lia. }
  assert (HLe' : 2 ^ Z.succ L = 2 ^ 53 * 2 ^ e).
  { replace (Z.succ L) with (53 + e) by lia. apply Z.pow_add_r; lia. }
  assert (HPne : 2 ^ e <> 0) by lia.
  pose proof (Z.div_mod z (2 ^ e) HPne) as Hdm.
  pose proof (Z.mod_pos_bound z (2 ^ e) HP) as Hr.
  remember (z / 2 ^ e) as q eqn:Eq.
  assert (Hr' : z - q * 2 ^ e = z mod 2 ^ e) by lia.
  rewrite Hr'. remember (z mod 2 ^ e) as r eqn:Er.
  remember (2 ^ e) as P eqn:EP. remember (2 ^ (e - 1)) as half eqn:Eh.
  assert (Hq53 : q < 2 ^ 53) by nia.
  cbv zeta.
  remember (2 ^ 1024) as T eqn:ET.
  remember (2 ^ 970) as U eqn:EU.
  assert (HU : 0 < U) by (subst U; apply Z.pow_pos_nonneg; lia).
  destruct (Z_lt_le_dec L 1023) as [Hs|Hb].
  - (* at most 1023 bits: the rounded value stays below 2^1024 *)
    assert (HPb : P <= U) by (subst P U; apply Z.pow_le_mono_r; lia).
    assert (HUT : 2 ^ 53 * U < T - U) by (subst U T; vm_compute; reflexivity).
    assert (Hz' : z < 2 ^ 53 * U) by nia.
    split; [|lia].
    intro H. exfalso.
    assert (Hv : forall q', q' <= q + 1 -> (q' * P <? T) = true).
    { intros q' Hq1. apply Z.ltb_lt.
      assert (q' * P <= 2 ^ 53 * U) by nia. lia. }
    destruct (r <? half); [rewrite Hv in H by lia; discriminate|].
    destruct (half <? r); [rewrite Hv in H by lia; discriminate|].
    destruct (Z.even q); rewrite Hv in H by lia; discriminate.
  - destruct (Z.eq_dec L 1023) as [H1023|Hbig].
    + (* exactly 1024 bits: overflow when the mantissa rounds up to 2^53 *)
      assert (He' : e = 971) by lia.
      assert (HPU : P = 2 * U) by (subst P U; rewrite He'; vm_compute; reflexivity).
      assert (HhU : half = U) by lia.
      assert (HTU : T = 2 ^ 54 * U) by (subst T U; vm_compute; reflexivity).
      assert (Hv : forall q', (q' * P <? T) = (q' <? 2 ^ 53)).
      { intro q'. destruct (q' <? 2 ^ 53) eqn:X.
        - apply Z.ltb_lt in X. apply Z.ltb_lt. nia.
        - apply Z.ltb_ge in X. apply Z.ltb_ge. nia. }
      rewrite !Hv.
      destruct (r <? half) eqn:R1.
      * apply Z.ltb_lt in R1.
        destruct (q <? 2 ^ 53) eqn:X; [|apply Z.ltb_ge in X; lia].
        split; [discriminate | intro; nia].
      * apply Z.ltb_ge in R1. destruct (half <? r) eqn:R2.
        -- apply Z.ltb_lt in R2. destruct (q + 1 <? 2 ^ 53) eqn:X.
           ++ apply Z.ltb_lt in X. split; [discriminate | intro; nia].
           ++ apply Z.ltb_ge in X. split; [intro; nia | reflexivity].
        -- apply Z.ltb_ge in R2. assert (Hrh : r = half) by lia.
           destruct (Z.even q) eqn:Ev.
           ++ destruct (q <? 2 ^ 53) eqn:X; [|apply Z.ltb_ge in X; lia].
              split; [discriminate|]. intro Hth. exfalso.
              assert (Hne : q <> 2 ^ 53 - 1).
              { intro Hq1. rewrite Hq1 in Ev. vm_compute in Ev. discriminate. }
              nia.
           ++ destruct (q + 1 <? 2 ^ 53) eqn:X.
              ** apply Z.ltb_lt in X. split; [discriminate | intro; nia].
              ** apply Z.ltb_ge in X. split; [intro; nia | reflexivity].
    + (* more than 1024 bits *)
      remember (2 ^ 972) as V eqn:EV.
      assert (HPV : V <= P) by (subst P V; apply Z.pow_le_mono_r; lia).
      assert (HTV : T = 2 ^ 52 * V) by (subst T V; vm_compute; reflexivity).
      assert (HV : 0 < V) by (subst V; apply Z.pow_pos_nonneg; lia).
      assert (Hv : forall q', q <= q' -> (q' * P <? T) = false).
      { intros q' Hq1. apply Z.ltb_ge. nia. }
      split; [intros _; nia|]. intros _.
      destruct (r <? half); [rewrite Hv by lia; reflexivity|].
      destruct (half <? r); [rewrite Hv by lia; reflexivity|].
      destruct (Z.even q); rewrite Hv by lia; reflexivity.
Qed.

Lemma isFinite_number_of_mathInt (z : Z) :
  0 <= z -> (isFinite (number_of_mathInt z) = true <-> z < binary64_overflow).
Proof.
  intro Hz. unfold number_of_mathInt. rewrite (Z.abs_eq z Hz).
  pose proof (round_binary64_overflow z Hz) as Ho.
  destruct (round_binary64 z) as [v|] eqn:E.
  - split; [|reflexivity]. intros _.
    destruct (Z_lt_le_dec z binary64_overflow) as [H|H]; [exact H|].
    apply Ho in H. discriminate.
  - split.
    + destruct (z <? 0); discriminate.
    + intro H. assert (binary64_overflow <= z) by (apply Ho; reflexivity). lia.
Qed.

Lemma number_of_mathInt_cases (z : Z) :
  0 <= z ->
  number_of_mathInt z = PosInf
  \/ exists v, number_of_mathInt z = num_of_Z v
               /\ (0 < z <-> 0 < v) /\ (2048 < z <-> 2048 < v).
Proof.
  intro Hz. unfold number_of_mathInt.
  rewrite (Z.abs_eq z Hz).
  destruct (round_binary64 z) as [v|] eqn:E.
  - right. exists (Z.sgn z * v). split; [reflexivity|].
    destruct (Z_lt_le_dec z (2 ^ 53)) as [Hs|Hl].
    + rewrite (round_binary64_exact z Hs) in E. inversion E; subst v.
      destruct (Z.eq_dec z 0) as [->|Hnz]; [simpl; lia|].
      rewrite (Z.sgn_pos z) by lia. lia.
    + pose proof (round_binary64_large z v Hl E) as Hv.
      rewrite (Z.sgn_pos z) by lia. lia.
  - left. destruct (z <? 0) eqn:E0; [apply Z.ltb_lt in E0; lia|reflexivity].
Qed.

Lemma num_lt_of_Z (a b : Z) : num_lt (num_of_Z a) (num_of_Z b) = (a <? b).
Proof.
  unfold num_of_Z. simpl.
  destruct (a <? b) eqn:E.
  - apply Qltb_true. rewrite <- Zlt_Qlt. apply Z.ltb_lt, E.
  - apply Qltb_false. rewrite <- Zle_Qle. apply Z.ltb_ge, E.
Qed.

Lemma num_max_of_Z (a b : Z) :
  num_max (num_of_Z a) (num_of_Z b) = num_of_Z (Z.max a b).
Proof.
  unfold num_max. change (num_of_Z a) with (Fin (inject_Z a)) at 1.
  change (num_of_Z b) with (Fin (inject_Z b)) at 1. cbv iota beta.
  change (Fin (inject_Z a)) with (num_of_Z a).
  change (Fin (inject_Z b)) with (num_of_Z b).
  rewrite num_lt_of_Z. destruct (a <? b) eqn:E.
  - apply Z.ltb_lt in E. rewrite Z.max_r by lia. reflexivity.
  - apply Z.ltb_ge in E. rewrite Z.max_l by lia. reflexivity.
Qed.

(** ** The tier and the resize directive of a size string *)

Lemma resolve_size_finite (dw dh : jsstring) (c : N) (ro : option ResizeOptions) :
  digit_string dw -> digit_string dh -> is_times c ->
  0 < digits_value dw -> 0 < digits_value dh ->
  isFinite (number_of_mathInt (digits_value dw)) = true ->
  isFinite (number_of_mathInt (digits_value dh)) = true ->
  resolve_size (dw ++ c :: dh) ro
  = (if 2048 <? Z.max (digits_value dw) (digits_value dh) then Size4K else Size2K,
     match ro with
     | Some _ => ro
     | None => Some (derived_resize (number_of_mathInt (digits_value dw))
                                    (number_of_mathInt (digits_value dh)))
     end).
Proof.
  intros Hw Hh Hc Pw Ph Fw Fh. unfold resolve_size.
  rewrite (size_regex_test_WxH _ _ _ Hw Hh Hc).
  destruct (resolve_size_parts _ _ _ Hw Hh Hc) as [Ew Eh].
  cbv zeta in Ew, Eh |- *. rewrite Ew, Eh.
  destruct (number_of_mathInt_cases _ (digits_value_nonneg dw))
    as [Iw | (vw & Nw & Zw & Tw)]; [rewrite Iw in Fw; discriminate|].
  destruct (number_of_mathInt_cases _ (digits_value_nonneg dh))
    as [Ih | (vh & Nh & Zh & Th)]; [rewrite Ih in Fh; discriminate|].
  rewrite Nw, Nh. unfold num_gt. rewrite num_max_of_Z, !num_lt_of_Z.
  change (isFinite (num_of_Z vw)) with true.
  change (isFinite (num_of_Z vh)) with true.
  assert (Gw : (0 <? vw) = true) by (apply Z.ltb_lt; tauto).
  assert (Gh : (0 <? vh) = true) by (apply Z.ltb_lt; tauto).
  rewrite Gw, Gh. cbv [andb].
  assert (T : (2048 <? Z.max vw vh)
              = (2048 <? Z.max (digits_value dw) (digits_value dh))).
  { destruct (2048 <? Z.max (digits_value dw) (digits_value dh)) eqn:E.
    - apply Z.ltb_lt in E. apply Z.ltb_lt. lia.
    - apply Z.ltb_ge in E. apply Z.ltb_ge. lia. }
  rewrite T. destruct ro; reflexivity.
Qed.

Lemma resolve_size_degenerate (dw dh : jsstring) (c : N) (ro : option ResizeOptions) :
  digit_string dw -> digit_string dh -> is_times c ->
  digits_value dw = 0 \/ digits_value dh = 0
  \/ isFinite (number_of_mathInt (digits_value dw)) = false
  \/ isFinite (number_of_mathInt (digits_value dh)) = false ->
  resolve_size (dw ++ c :: dh) ro = (Size2K, ro).
Proof.
  intros Hw Hh Hc D. unfold resolve_size.
  rewrite (size_regex_test_WxH _ _ _ Hw Hh Hc).
  destruct (resolve_size_parts _ _ _ Hw Hh Hc) as [Ew Eh].
  cbv zeta in Ew, Eh |- *. rewrite Ew, Eh.
  match goal with
  | |- (if ?b then _ else _) = _ => assert (B : b = false); [|rewrite B; reflexivity]
  end.
  destruct D as [D | [D | [D | D]]].
  - rewrite D. change (number_of_mathInt 0) with (num_of_Z 0).
    unfold num_gt. rewrite num_lt_of_Z. simpl.
    rewrite andb_false_r. reflexivity.
  - rewrite D. change (number_of_mathInt 0) with (num_of_Z 0).
    unfold num_gt. rewrite !num_lt_of_Z. simpl.
    rewrite andb_false_r. reflexivity.
  - rewrite D. reflexivity.
  - rewrite D. rewrite andb_false_r. reflexivity.
Qed.

(** ** Validation *)

(** C9: a request whose prompt has 1 to 800 code units and whose negative
    prompt, if any, has at most 500 validates when its other fields do; a
    prompt of length 0 or above 800 (801 in particular), a negative prompt
    above 500, or an image count that is not a number in [1,4] makes
    validation fail; and a failed validation returns the failure with an
    empty trace, that is before any call to the provider or the pipeline. *)
Theorem validation_bounds :
  (forall p,
      (1 <= List.length (prompt p) <= 800)%nat ->
      (forall s, negative_prompt p = Some s -> (List.length s <= 500)%nat) ->
      (forall s, size p = Some s -> size_accepted s = true) ->
      (forall n, num_images p = Some n -> within 1 4 n) ->
      (forall n, seed p = Some n -> within 0 2147483647 n) ->
      (forall n, quality p = Some (QNum n) -> within 1 10 n) ->
      schema_parse p = inr (schema_output p))
  /\ (forall p,
         (List.length (prompt p) = 0 \/ 800 < List.length (prompt p))%nat ->
         exists issues, schema_parse p = inl issues)
  /\ (forall p s,
         negative_prompt p = Some s -> (500 < List.length s)%nat ->
         exists issues, schema_parse p = inl issues)
  /\ (forall p n,
         num_images p = Some n -> ~ within 1 4 n ->
         exists issues, schema_parse p = inl issues)
  /\ (forall w p issues,
         schema_parse p = inl issues ->
         generateDoubaoSeedreamImage w p = Some (inr (failed (MsgZod issues)), [])).
Proof.
  repeat split.
  - intros p H1 H2 H3 H4 H5 H6. apply schema_parse_ok.
    unfold fields_valid. tauto.
  - intros p H. apply schema_parse_rejects. unfold fields_valid. lia.
  - intros p s Hs Hlen. apply schema_parse_rejects. unfold fields_valid.
    intros (_ & H & _). specialize (H s Hs). lia.
  - intros p n Hn Hout. apply schema_parse_rejects. unfold fields_valid.
    intros (_ & _ & _ & H & _). apply Hout, H, Hn.
  - intros w p issues H. apply generate_validation_error, H.
Qed.

Lemma validation_bounds_witness :
  schema_parse (with_negative_prompt (lit "blurry") autumn_request)
  = inr (schema_output (with_negative_prompt (lit "blurry") autumn_request)).
Proof.
  apply (proj1 validation_bounds); simpl.
  - lia.
  - intros s Hs. inversion Hs. simpl. lia.
  - intros s Hs. inversion Hs. reflexivity.
  - intros n Hn. inversion Hn. exists 1%Q. repeat split; discriminate.
  - intros n Hn. discriminate.
  - intros n Hn. discriminate.
Defined.

(** ** Size: rejection, fallback and tier *)

Lemma size_accepted_WxH (dw dh : jsstring) (c : N) :
  digit_string dw -> digit_string dh -> is_times c ->
  size_accepted (dw ++ c :: dh) = true.
Proof.
  intros Hw Hh Hc. unfold size_accepted.
  rewrite (size_regex_test_WxH _ _ _ Hw Hh Hc). apply orb_true_r.
Qed.

Lemma schema_issues_size (p : Params) (s : jsstring) :
  size p = Some s -> malformed_size s -> In SizeInvalid (schema_issues p).
Proof.
  intros Hs Hm. unfold schema_issues.
  apply in_or_app; right. apply in_or_app; right. apply in_or_app; left.
  rewrite Hs. simpl. unfold check_size. rewrite Hm. left. reflexivity.
Qed.

(** C1, as the code has it: a size string that is neither ["2K"], ["4K"]
    nor of the form W x H is rejected by validation, and the call returns
    the failure without any call to the provider. The fallback exists for
    strings of the form W x H whose width or height is zero or so large
    that [parseInt] gives [Infinity] (from [2^1024 - 2^970] on): these
    validate, the tier is ["2K"], and no resize directive is derived (the
    caller's own options pass unchanged). *)
Theorem malformed_size_rejected_degenerate_size_falls_back :
  (forall w p s,
      size p = Some s -> malformed_size s ->
      exists issues,
        In SizeInvalid issues
        /\ schema_parse p = inl issues
        /\ generateDoubaoSeedreamImage w p
           = Some (inr (failed (MsgZod issues)), []))
  /\ (forall p dw dh c,
         size p = Some (dw ++ c :: dh) ->
         digit_string dw -> digit_string dh -> is_times c ->
         digits_value dw = 0 \/ digits_value dh = 0
         \/ binary64_overflow <= digits_value dw
         \/ binary64_overflow <= digits_value dh ->
         size_accepted (dw ++ c :: dh) = true
         /\ api_size p = Size2K
         /\ target_resize p = resizeOptions p).
Proof.
  split.
  - intros w p s Hs Hm.
    pose proof (schema_issues_size p s Hs Hm) as Hin.
    exists (schema_issues p).
    assert (E : schema_parse p = inl (schema_issues p)).
    { unfold schema_parse. destruct (schema_issues p); [destruct Hin | reflexivity]. }
    repeat split; [exact Hin | exact E | apply generate_validation_error, E].
  - intros p dw dh c Hs Hw Hh Hc D.
    split; [apply size_accepted_WxH; assumption|].
    unfold api_size, target_resize. simpl. rewrite Hs. simpl.
    rewrite (resolve_size_degenerate dw dh c (resizeOptions p) Hw Hh Hc);
      [split; reflexivity|].
    pose proof (isFinite_number_of_mathInt _ (digits_value_nonneg dw)) as Fw.
    pose proof (isFinite_number_of_mathInt _ (digits_value_nonneg dh)) as Fh.
    destruct D as [D | [D | [D | D]]]; [tauto | tauto | |].
    + right; right; left.
      destruct (isFinite (number_of_mathInt (digits_value dw))); [|reflexivity].
      assert (digits_value dw < binary64_overflow) by (apply Fw; reflexivity). lia.
    + right; right; right.
      destruct (isFinite (number_of_mathInt (digits_value dh))); [|reflexivity].
      assert (digits_value dh < binary64_overflow) by (apply Fh; reflexivity). lia.
Qed.

Lemma degenerate_size_falls_back_witness :
  (exists issues,
      In SizeInvalid issues
      /\ schema_parse (with_size (lit "abcxdef") autumn_request) = inl issues
      /\ generateDoubaoSeedreamImage sample_world
           (with_size (lit "abcxdef") autumn_request)
         = Some (inr (failed (MsgZod issues)), []))
  /\ size_accepted (lit "0x100") = true
  /\ api_size (with_size (lit "0x100") autumn_request) = Size2K
  /\ target_resize (with_size (lit "0x100") autumn_request) = None.
Proof.
  split.
  - apply (proj1 malformed_size_rejected_degenerate_size_falls_back sample_world
             (with_size (lit "abcxdef") autumn_request) (lit "abcxdef"));
      reflexivity.
  - apply (proj2 malformed_size_rejected_degenerate_size_falls_back
             (with_size (lit "0x100") autumn_request) (lit "0") (lit "100") 120%N).
    + reflexivity.
    + split; [discriminate | reflexivity].
    + split; [discriminate | reflexivity].
    + left; reflexivity.
    + left; reflexivity.
Defined.

(** C6: for a size string W x H with positive W and H below the overflow
    of [parseInt] to [Infinity] ([2^1024 - 2^970]), the tier is ["4K"] when
    [max W H > 2048] and ["2K"] otherwise; ["2K"] and ["4K"] map to
    themselves; no size gives ["2K"]. *)
Theorem tier_of_size (p : Params) :
  (forall dw dh c,
      size p = Some (dw ++ c :: dh) ->
      digit_string dw -> digit_string dh -> is_times c ->
      0 < digits_value dw < binary64_overflow ->
      0 < digits_value dh < binary64_overflow ->
      api_size p
      = if 2048 <? Z.max (digits_value dw) (digits_value dh)
        then Size4K else Size2K)
  /\ (size p = Some (lit "2K") -> api_size p = Size2K)
  /\ (size p = Some (lit "4K") -> api_size p = Size4K)
  /\ (size p = None -> api_size p = Size2K).
Proof.
  unfold api_size. simpl. repeat split.
  - intros dw dh c Hs Hw Hh Hc [Pw Bw] [Ph Bh]. rewrite Hs. simpl.
    apply (isFinite_number_of_mathInt _ (digits_value_nonneg dw)) in Bw.
    apply (isFinite_number_of_mathInt _ (digits_value_nonneg dh)) in Bh.
    rewrite (resolve_size_finite dw dh c (resizeOptions p) Hw Hh Hc Pw Ph Bw Bh).
    reflexivity.
  - intros Hs. rewrite Hs. reflexivity.
  - intros Hs. rewrite Hs. reflexivity.
  - intros Hs. rewrite Hs. reflexivity.
Qed.

Lemma tier_of_size_witness :
  api_size (with_size (lit "3000x1000") autumn_request) = Size4K
  /\ api_size (with_size (lit "1024x768") autumn_request) = Size2K.
Proof.
  split.
  - apply (proj1 (tier_of_size (with_size (lit "3000x1000") autumn_request))
             (lit "3000") (lit "1000") 120%N).
    + reflexivity.
    + split; [discriminate | reflexivity].
    + split; [discriminate | reflexivity].
    + left; reflexivity.
    + split; vm_compute; reflexivity.
    + split; vm_compute; reflexivity.
  - apply (proj1 (tier_of_size (with_size (lit "1024x768") autumn_request))
             (lit "1024") (lit "768") 120%N).
    + reflexivity.
    + split; [discriminate | reflexivity].
    + split; [discriminate | reflexivity].
    + left; reflexivity.
    + split; vm_compute; reflexivity.
    + split; vm_compute; reflexivity.
Defined.

(** ** Sizes where the code departs from its description *)

(** C1, as stated, fails: the size ["abcxdef"] is neither a tier name nor
    of the form W x H, and the request is rejected as a validation error. *)
Lemma malformed_size_abcxdef_is_rejected :
  malformed_size (lit "abcxdef")
  /\ schema_parse (with_size (lit "abcxdef") autumn_request) = inl [SizeInvalid]
  /\ generateDoubaoSeedreamImage sample_world
       (with_size (lit "abcxdef") autumn_request)
     = Some (inr (failed (MsgZod [SizeInvalid])), []).
Proof. repeat split. Qed.

(** C6, as stated, fails: a width of 401 digits is a positive integer
    above 2048, yet [parseInt] reads it as [Infinity], the guard
    [Number.isFinite] fails and the tier stays ["2K"]. *)
Lemma huge_width_resolves_to_2K :
  digit_string huge_width
  /\ 2048 < digits_value huge_width
  /\ binary64_overflow <= digits_value huge_width
  /\ size_accepted (huge_width ++ lit "x1") = true
  /\ api_size (with_size (huge_width ++ lit "x1") autumn_request) = Size2K.
Proof.
  split; [split; [discriminate | vm_compute; reflexivity]|].
  split; [vm_compute; reflexivity|].
  split; [vm_compute; discriminate|].
  split; vm_compute; reflexivity.
Qed.

(** ** One image: [processAndUploadImage] *)

Lemma processAndUploadImage_try_inr (iw : ItemWorld) (imageUrl : jsstring)
    (projectId fileName : option jsstring) (quality : number)
    (ro : option ResizeOptions) (r : ImageProcessResult) :
  processAndUploadImage_try iw imageUrl projectId fileName quality ro = inr r ->
  exists original processed signedUrl,
    iw_fetch iw imageUrl = FetchOk (inr original)
    /\ original <> []
    /\ iw_webp iw original quality ro = inr processed
    /\ iw_put iw (oss_key iw projectId fileName) processed = inr tt
    /\ generateSignedImageUrl iw (oss_key iw projectId fileName) 30 = inr signedUrl
    /\ r = processed_image iw projectId fileName original processed signedUrl.
Proof.
  unfold processAndUploadImage_try, ebind.
  destruct (iw_fetch iw imageUrl) as [t|st txt|[t|original]] eqn:Ef; try discriminate.
  destruct original as [|b original]; [discriminate|].
  cbn [List.length Nat.eqb].
  destruct (iw_webp iw (b :: original) quality ro) as [t|processed] eqn:Ew;
    [discriminate|].
  destruct (iw_put iw (oss_key iw projectId fileName) processed) as [t|[]] eqn:Ep;
    [discriminate|].
  destruct (generateSignedImageUrl iw (oss_key iw projectId fileName) 30)
    as [t|signedUrl] eqn:Es; [discriminate|].
  intro H. inversion H; subst r.
  exists (b :: original), processed, signedUrl.
  repeat split; try assumption; discriminate.
Qed.

Lemma processAndUploadImage_cases (iw : ItemWorld) (imageUrl : jsstring)
    (projectId fileName : option jsstring) (quality : option number)
    (ro : option ResizeOptions) :
  (exists original processed signedUrl,
      original <> []
      /\ processAndUploadImage iw imageUrl projectId fileName quality ro
         = processed_image iw projectId fileName original processed signedUrl)
  \/ (exists m,
         processAndUploadImage iw imageUrl projectId fileName quality ro
         = failure_result m).
Proof.
  unfold processAndUploadImage.
  destruct (processAndUploadImage_try iw imageUrl projectId fileName
              (default (num_of_Z 80) quality) ro) as [t|r] eqn:E.
  - right. exists (message_of t). reflexivity.
  - left. apply processAndUploadImage_try_inr in E.
    destruct E as (o & c & s & _ & Hne & _ & _ & _ & Hr).
    exists o, c, s. split; assumption.
Qed.

Lemma compression_ratio_positive (o c : nat) :
  (0 < o)%nat ->
  compression_ratio o c
  = num_mul (num_div (num_sub (num_of_nat o) (num_of_nat c)) (num_of_nat o))
            (num_of_Z 100).
Proof.
  intro Ho. unfold compression_ratio, num_of_nat, num_gt.
  rewrite num_lt_of_Z.
  assert (E : (0 <? Z.of_nat o) = true) by (apply Z.ltb_lt; lia).
  rewrite E. reflexivity.
Qed.

Lemma Qeq_bool_of_nat (o : nat) :
  (0 < o)%nat -> Qeq_bool (inject_Z (Z.of_nat o)) 0 = false.
Proof.
  intro Ho. destruct (Qeq_bool (inject_Z (Z.of_nat o)) 0) eqn:Q0; [|reflexivity].
  apply Qeq_bool_eq in Q0. unfold Qeq in Q0. simpl in Q0. lia.
Qed.

(** The quotient of line 73, before it is rounded. *)
Lemma compression_ratio_quotient (o c : nat) :
  (0 < o)%nat ->
  num_div (num_sub (num_of_nat o) (num_of_nat c)) (num_of_nat o)
  = round64 ((inject_Z (Z.of_nat o) - inject_Z (Z.of_nat c))
             / inject_Z (Z.of_nat o)).
Proof.
  intro Ho. unfold num_of_nat, num_of_Z. cbn [num_sub num_div].
  rewrite (Qeq_bool_of_nat o Ho). reflexivity.
Qed.

Lemma compression_ratio_zero (c : nat) : compression_ratio 0 c = num_of_Z 0.
Proof. reflexivity. Qed.

Lemma compression_ratio_not_nan (o c : nat) : compression_ratio o c <> NaN.
Proof.
  destruct o as [|o].
  - rewrite compression_ratio_zero. discriminate.
  - rewrite compression_ratio_positive, compression_ratio_quotient by lia.
    pose proof (round64_not_nan
                  ((inject_Z (Z.of_nat (S o)) - inject_Z (Z.of_nat c))
                   / inject_Z (Z.of_nat (S o)))) as Hq.
    destruct (round64 _) as [| | |y]; [congruence | discriminate | discriminate|].
    unfold num_of_Z. cbn [num_mul]. apply round64_not_nan.
Qed.

Lemma small_below_2_53 (x : Q) :
  (- (128) <= x)%Q -> (x <= 128)%Q -> (Qabs x < 2 ^ 53)%Q.
Proof.
  intros Hlo Hhi. apply Qabs_Qlt_condition.
  assert (E : (2 ^ 53 == 9007199254740992)%Q) by reflexivity.
  rewrite E. split; lra.
Qed.

(** When the encoder does not grow the image, the ratio lies in [0, 100]
    and is within [2^-45] of the exact quotient. *)
Lemma compression_ratio_accurate (o c : nat) :
  (0 < o)%nat -> (c <= o)%nat ->
  exists r,
    compression_ratio o c = Fin r
    /\ (0 <= r)%Q /\ (r <= 100)%Q
    /\ (Qabs (r - (inject_Z (Z.of_nat o) - inject_Z (Z.of_nat c))
                  / inject_Z (Z.of_nat o) * 100)
        <= 1 # 35184372088832)%Q.
Proof.
  intros Ho Hc.
  rewrite compression_ratio_positive, compression_ratio_quotient by exact Ho.
  set (x := ((inject_Z (Z.of_nat o) - inject_Z (Z.of_nat c))
             / inject_Z (Z.of_nat o))%Q).
  assert (HO : (0 < inject_Z (Z.of_nat o))%Q).
  { change 0%Q with (inject_Z 0). rewrite <- Zlt_Qlt. lia. }
  assert (HC : (0 <= inject_Z (Z.of_nat c))%Q).
  { change 0%Q with (inject_Z 0). rewrite <- Zle_Qle. lia. }
  assert (HCO : (inject_Z (Z.of_nat c) <= inject_Z (Z.of_nat o))%Q).
  { rewrite <- Zle_Qle. lia. }
  assert (Hx0 : (0 <= x)%Q).
  { unfold x. apply Qle_shift_div_l; [exact HO|]. lra. }
  assert (Hx1 : (x <= 1)%Q).
  { unfold x. apply Qle_shift_div_r; [exact HO|]. lra. }
  destruct (round64_between x 0 1 (small_below_2_53 x ltac:(lra) ltac:(lra))
              Hx0 Hx1) as (y & Hy & _ & Hy0 & Hy1).
  change (inject_Z 0) with 0%Q in Hy0. change (inject_Z 1) with 1%Q in Hy1.
  assert (Hx2 : (Qabs x < 2 ^ 1)%Q).
  { apply Qabs_Qlt_condition. change (2 ^ 1)%Q with 2%Q. split; lra. }
  destruct (round64_error x 1 Hx2 ltac:(lia)) as (y' & Hy' & Hey).
  rewrite Hy in Hy'. inversion Hy'. subst y'. clear Hy'.
  rewrite Hy. unfold num_of_Z. cbn [num_mul].
  change (inject_Z 100) with 100%Q.
  assert (Hz0 : (inject_Z 0 <= y * 100)%Q) by (change (inject_Z 0) with 0%Q; lra).
  assert (Hz1 : (y * 100 <= inject_Z 100)%Q)
    by (change (inject_Z 100) with 100%Q; lra).
  change (inject_Z 0) with 0%Q in Hz0. change (inject_Z 100) with 100%Q in Hz1.
  destruct (round64_between (y * 100) 0 100
              (small_below_2_53 (y * 100) ltac:(lra) ltac:(lra)) Hz0 Hz1)
    as (r & Hr & _ & Hr0 & Hr1).
  change (inject_Z 0) with 0%Q in Hr0. change (inject_Z 100) with 100%Q in Hr1.
  assert (Hz2 : (Qabs (y * 100) < 2 ^ 7)%Q).
  { apply Qabs_Qlt_condition. change (2 ^ 7)%Q with 128%Q. split; lra. }
  destruct (round64_error (y * 100) 7 Hz2 ltac:(lia)) as (r' & Hr' & Her).
  rewrite Hr in Hr'. inversion Hr'. subst r'. clear Hr'.
  exists r. split; [exact Hr|]. split; [exact Hr0|]. split; [exact Hr1|].
  assert (E1 : (2 ^ (1 - 54) == 1 # 9007199254740992)%Q) by reflexivity.
  assert (E2 : (2 ^ (7 - 54) == 1 # 140737488355328)%Q) by reflexivity.
  rewrite E1 in Hey. rewrite E2 in Her.
  apply Qabs_Qle_condition in Hey. apply Qabs_Qle_condition in Her.
  apply Qabs_Qle_condition. split; lra.
Qed.

(** C7: in a successful result the original size is positive and
    [compressionRatio] is [(originalSize - compressedSize) / originalSize *
    100] as JavaScript computes it, the quotient and the product each
    rounded to binary64; the guarded expression gives 0 for an original size
    of 0, and is never [NaN]. When the encoded image is not larger than the
    original, the ratio lies between 0 and 100 and differs from the exact
    value by at most [2^-45]. For 198 bytes encoded into 66 it is the
    binary64 value [66.66666666666666]. *)
Theorem compression_ratio_of_success (iw : ItemWorld) (imageUrl : jsstring)
    (projectId fileName : option jsstring) (quality : option number)
    (ro : option ResizeOptions) :
  (success (processAndUploadImage iw imageUrl projectId fileName quality ro) = true ->
   exists o c : nat,
     (0 < o)%nat
     /\ originalSize (processAndUploadImage iw imageUrl projectId fileName quality ro)
        = Some (num_of_nat o)
     /\ compressedSize (processAndUploadImage iw imageUrl projectId fileName quality ro)
        = Some (num_of_nat c)
     /\ compressionRatio (processAndUploadImage iw imageUrl projectId fileName quality ro)
        = Some (num_mul
                  (num_div (num_sub (num_of_nat o) (num_of_nat c)) (num_of_nat o))
                  (num_of_Z 100))
     /\ num_div (num_sub (num_of_nat o) (num_of_nat c)) (num_of_nat o)
        = round64 ((inject_Z (Z.of_nat o) - inject_Z (Z.of_nat c))
                   / inject_Z (Z.of_nat o)))
  /\ (forall c, compression_ratio 0 c = num_of_Z 0)
  /\ (forall o c, compression_ratio o c <> NaN)
  /\ (forall o c : nat,
         (0 < o)%nat -> (c <= o)%nat ->
         exists r,
           compression_ratio o c = Fin r
           /\ (0 <= r)%Q /\ (r <= 100)%Q
           /\ (Qabs (r - (inject_Z (Z.of_nat o) - inject_Z (Z.of_nat c))
                         / inject_Z (Z.of_nat o) * 100)
               <= 1 # 35184372088832)%Q)
  /\ compression_ratio 198 66 = Fin (2345624805922133 # 35184372088832).
Proof.
  split; [|split; [exact compression_ratio_zero
                  |split; [exact compression_ratio_not_nan
                          |split; [exact compression_ratio_accurate
                                  |vm_compute; reflexivity]]]].
  intro Hs.
  destruct (processAndUploadImage_cases iw imageUrl projectId fileName quality ro)
    as [(original & processed & signedUrl & Hne & Hr) | (m & Hr)];
    rewrite Hr in Hs |- *; [|discriminate].
  exists (List.length original), (List.length processed).
  assert (Hpos : (0 < List.length original)%nat).
  { destruct original; [congruence | simpl; lia]. }
  split; [exact Hpos|]. split; [reflexivity|]. split; [reflexivity|].
  split; [|apply compression_ratio_quotient; exact Hpos].
  cbn [processed_image compressionRatio].
  rewrite (compression_ratio_positive _ _ Hpos). reflexivity.
Qed.

(** 4 bytes encoded into 2: the ratio is 50. *)
Lemma compression_ratio_of_success_witness :
  exists o c : nat,
    (0 < o)%nat
    /\ originalSize (processAndUploadImage good_item (lit "https://p.example/1.png")
                       None None None None) = Some (num_of_nat o)
    /\ compressedSize (processAndUploadImage good_item (lit "https://p.example/1.png")
                         None None None None) = Some (num_of_nat c)
    /\ compressionRatio (processAndUploadImage good_item (lit "https://p.example/1.png")
                           None None None None)
       = Some (num_mul
                 (num_div (num_sub (num_of_nat o) (num_of_nat c)) (num_of_nat o))
                 (num_of_Z 100))
    /\ num_div (num_sub (num_of_nat o) (num_of_nat c)) (num_of_nat o)
       = round64 ((inject_Z (Z.of_nat o) - inject_Z (Z.of_nat c))
                  / inject_Z (Z.of_nat o)).
Proof.
  apply (proj1 (compression_ratio_of_success good_item
                  (lit "https://p.example/1.png") None None None None)).
  reflexivity.
Defined.



(** ** The batch: chunks and order *)

Lemma chunk_count_spec (c n j : nat) :
  (1 <= c)%nat -> (j < chunk_count c n <-> j * c < n)%nat.
Proof.
  intro Hc. unfold chunk_count.
  pose proof (Nat.div_mod_eq (n + c - 1) c) as E.
  assert (Hr : ((n + c - 1) mod c < c)%nat) by (apply Nat.mod_upper_bound; lia).
  remember ((n + c - 1) / c)%nat as m. remember ((n + c - 1) mod c)%nat as r.
  split; intro H; nia.
Qed.

Lemma slice_chunk {A} (l : list A) (i : nat) (c : Z) :
  1 <= c -> (i < List.length l)%nat ->
  slice l (Z.of_nat i) (Z.of_nat i + c) = firstn (Z.to_nat c) (skipn i l).
Proof.
  intros Hc Hi. unfold slice, clamp_index.
  destruct (Z.of_nat i <? 0) eqn:E1; [apply Z.ltb_lt in E1; lia|].
  destruct (Z.of_nat i + c <? 0) eqn:E2; [apply Z.ltb_lt in E2; lia|].
  rewrite (Z.min_l (Z.of_nat i)) by lia. rewrite Nat2Z.id.
  destruct (Z_le_gt_dec (Z.of_nat i + c) (Z.of_nat (List.length l))) as [Hle|Hgt].
  - rewrite Z.min_l by lia. f_equal. lia.
  - rewrite Z.min_r by lia.
    rewrite !firstn_all2; [reflexivity | |]; rewrite length_skipn; lia.
Qed.

Lemma chunk_at_length {A} (c : nat) (l : list A) (j : nat) :
  (List.length (chunk_at c l j) <= c)%nat.
Proof. unfold chunk_at. rewrite length_firstn. lia. Qed.

Lemma chunk_at_nonempty {A} (c : nat) (l : list A) (j : nat) :
  (1 <= c)%nat -> (j * c < List.length l)%nat ->
  (1 <= List.length (chunk_at c l j))%nat.
Proof.
  intros Hc Hj. unfold chunk_at. rewrite length_firstn, length_skipn. lia.
Qed.

Lemma chunk_at_full {A} (c : nat) (l : list A) (j : nat) :
  (S j * c <= List.length l)%nat -> List.length (chunk_at c l j) = c.
Proof.
  intro H. unfold chunk_at. rewrite length_firstn, length_skipn. simpl in H. lia.
Qed.

(** The chunks, in order, make up the list. *)
Lemma concat_chunks {A} (c : nat) (l : list A) (m : nat) :
  (1 <= c)%nat -> (List.length l <= m * c)%nat ->
  List.concat (map (chunk_at c l) (seq 0 m)) = l.
Proof.
  intros Hc. revert l. induction m as [|m IH]; intros l Hl.
  - destruct l; [reflexivity | simpl in Hl; lia].
  - cbn [seq map List.concat]. rewrite <- seq_shift, map_map.
    assert (E : map (fun j => chunk_at c l (S j)) (seq 0 m)
                = map (chunk_at c (skipn c l)) (seq 0 m)).
    { apply map_ext. intro j. unfold chunk_at.
      rewrite skipn_skipn. do 2 f_equal. lia. }
    rewrite E, IH.
    + unfold chunk_at. simpl. apply firstn_skipn.
    + rewrite length_skipn. simpl in Hl. lia.
Qed.

Lemma batch_loop_run (w : World) (urls : list jsstring)
    (projectId : option jsstring) (q : number) (c : Z)
    (ro : option ResizeOptions) :
  1 <= c ->
  forall (fuel j : nat) (results : list ImageProcessResult) (tr : trace),
    (chunk_count (Z.to_nat c) (List.length urls) - j < fuel)%nat ->
    batch_loop fuel w urls projectId q c ro (Z.of_nat (j * Z.to_nat c)) results tr
    = Some
        (inr (results
              ++ List.concat
                   (map (chunk_results w projectId q ro (Z.to_nat c) urls)
                        (seq j (chunk_count (Z.to_nat c) (List.length urls) - j)))),
         tr ++ map (fun k => EvChunk (chunk_items w (Z.to_nat c) urls k))
                   (seq j (chunk_count (Z.to_nat c) (List.length urls) - j))).
Proof.
  intro Hc. remember (Z.to_nat c) as cn eqn:Hcn.
  assert (Hcn1 : (1 <= cn)%nat) by lia.
  remember (chunk_count cn (List.length urls)) as m eqn:Hm.
  induction fuel as [|fuel IH]; intros j results tr Hfuel; [lia|].
  cbn [batch_loop].
  destruct (Z.of_nat (j * cn) <? Z.of_nat (List.length urls)) eqn:E.
  - apply Z.ltb_lt in E.
    assert (Hj : (j * cn < List.length urls)%nat) by lia.
    assert (Hjm : (j < m)%nat) by (subst m; apply chunk_count_spec; assumption).
    rewrite (slice_chunk urls (j * cn) c Hc Hj), <- Hcn.
    unfold bind, emit.
    replace (Z.of_nat (j * cn) + c) with (Z.of_nat (S j * cn)) by lia.
    rewrite IH by lia.
    replace (m - j)%nat with (S (m - S j)) by lia.
    cbn [seq map List.concat].
    rewrite <- !app_assoc. reflexivity.
  - apply Z.ltb_ge in E.
    assert (Hjm : ~ (j < m)%nat).
    { subst m. rewrite chunk_count_spec by assumption. lia. }
    replace (m - j)%nat with 0%nat by lia.
    cbn [seq map List.concat]. rewrite !app_nil_r. reflexivity.
Qed.

Lemma mapi_from_app {A B} (f : A -> nat -> B) (s : nat) (l1 l2 : list A) :
  mapi_from f s (l1 ++ l2)
  = mapi_from f s l1 ++ mapi_from f (s + List.length l1) l2.
Proof.
  revert s. induction l1 as [|x l1 IH]; intro s; simpl.
  - rewrite Nat.add_0_r. reflexivity.
  - rewrite IH. do 3 f_equal. lia.
Qed.

Lemma mapi_from_ext {A B} (f g : A -> nat -> B) (s : nat) (l : list A) :
  (forall x k, (s <= k < s + List.length l)%nat -> f x k = g x k) ->
  mapi_from f s l = mapi_from g s l.
Proof.
  revert s. induction l as [|x l IH]; intros s H; simpl; [reflexivity|].
  rewrite H by (simpl; lia). f_equal. apply IH.
  intros y k Hk. apply H. simpl. lia.
Qed.

Lemma mapi_from_shift {A B} (f : A -> nat -> B) (s : nat) (l : list A) :
  mapi_from f s l = mapi_from (fun x k => f x (s + k)%nat) 0 l.
Proof.
  revert s f. induction l as [|x l IH]; intros s f; simpl; [reflexivity|].
  rewrite Nat.add_0_r. f_equal.
  rewrite (IH (S s) f), (IH 1%nat (fun x k => f x (s + k)%nat)).
  apply mapi_from_ext. intros y k _. f_equal. lia.
Qed.

Lemma length_mapi_from {A B} (f : A -> nat -> B) (s : nat) (l : list A) :
  List.length (mapi_from f s l) = List.length l.
Proof.
  revert s. induction l as [|x l IH]; intro s; simpl; [reflexivity|].
  rewrite IH. reflexivity.
Qed.

Lemma nth_error_mapi_from {A B} (f : A -> nat -> B) (s : nat) (l : list A)
    (k : nat) (x : A) :
  nth_error l k = Some x ->
  nth_error (mapi_from f s l) k = Some (f x (s + k)%nat).
Proof.
  revert s k. induction l as [|y l IH]; intros s k H.
  - destruct k; discriminate.
  - destruct k as [|k]; simpl in *.
    + inversion H; subst. rewrite Nat.add_0_r. reflexivity.
    + rewrite (IH (S s) k H). do 2 f_equal. lia.
Qed.

(** Results by chunk are results by position. *)
Lemma mapi_chunks {A B} (c : nat) (m : nat) :
  (1 <= c)%nat ->
  forall (f : nat -> A -> nat -> B) (l : list A),
    (List.length l <= m * c)%nat ->
    List.concat (map (fun j => mapi (f j) (chunk_at c l j)) (seq 0 m))
    = mapi (fun x k => f (k / c)%nat x (k mod c)%nat) l.
Proof.
  intro Hc. induction m as [|m IH]; intros f l Hl.
  - destruct l; [reflexivity | simpl in Hl; lia].
  - cbn [seq map List.concat]. rewrite <- seq_shift, map_map.
    assert (E : map (fun j => mapi (f (S j)) (chunk_at c l (S j))) (seq 0 m)
                = map (fun j => mapi (f (S j)) (chunk_at c (skipn c l) j)) (seq 0 m)).
    { apply map_ext. intro j. unfold chunk_at.
      rewrite skipn_skipn. do 3 f_equal. lia. }
    rewrite E, (IH (fun j => f (S j)) (skipn c l))
      by (rewrite length_skipn; simpl in Hl; lia).
    unfold mapi at 3. rewrite <- (firstn_skipn c l) at 3.
    rewrite mapi_from_app. f_equal.
    + unfold chunk_at, mapi. simpl. apply mapi_from_ext.
      intros x k Hk. rewrite length_firstn in Hk.
      rewrite Nat.div_small, Nat.mod_small by lia. reflexivity.
    + destruct (skipn c l) as [|y rest] eqn:Es; [reflexivity|].
      assert (Hlen : List.length (firstn c l) = c).
      { rewrite length_firstn.
        assert (List.length (skipn c l) = S (List.length rest))
          by (rewrite Es; reflexivity).
        rewrite length_skipn in H. lia. }
      rewrite Hlen. cbn [Nat.add]. unfold mapi.
      rewrite (mapi_from_shift _ c). apply mapi_from_ext.
      intros x k _.
      replace (c + k)%nat with (k + 1 * c)%nat by lia.
      rewrite Nat.div_add, Nat.Div0.mod_add by lia.
      f_equal. lia.
Qed.

Lemma chunk_count_le (c n : nat) : (1 <= c)%nat -> (chunk_count c n <= n)%nat.
Proof.
  intro Hc. destruct (le_lt_dec (chunk_count c n) n) as [H|H]; [exact H|].
  apply chunk_count_spec in H; [nia | exact Hc].
Qed.

Lemma chunk_count_covers (c n : nat) : (1 <= c)%nat -> (n <= chunk_count c n * c)%nat.
Proof.
  intro Hc. destruct (le_lt_dec n (chunk_count c n * c)) as [H|H]; [exact H|].
  apply chunk_count_spec in H; [lia | exact Hc].
Qed.

Lemma map_fst_chunk_items (w : World) (c : nat) (urls : list jsstring) (j : nat) :
  map fst (chunk_items w c urls j) = chunk_at c urls j.
Proof.
  unfold chunk_items, mapi. generalize 0%nat.
  induction (chunk_at c urls j) as [|x l IH]; intro s; simpl; [reflexivity|].
  rewrite IH. reflexivity.
Qed.

Lemma batch_run (w : World) (urls : list jsstring)
    (projectId : option jsstring) (quality : option number)
    (concurrency : option Z) (ro : option ResizeOptions)
    (fuel : nat) (tr : trace) :
  1 <= default 3 concurrency ->
  (List.length urls < fuel)%nat ->
  processAndUploadImagesBatch fuel w urls projectId quality concurrency ro tr
  = Some (inr (mapi (fun url k =>
                       result_at w projectId (default (num_of_Z 80) quality) ro
                         (Z.to_nat (default 3 concurrency)) k url)
                    urls),
          tr ++ map (fun j => EvChunk (chunk_items w (Z.to_nat (default 3 concurrency))
                                         urls j))
                    (seq 0 (chunk_count (Z.to_nat (default 3 concurrency))
                              (List.length urls)))).
Proof.
  intros Hc Hfuel.
  remember (Z.to_nat (default 3 concurrency)) as c eqn:Ec.
  assert (Hc1 : (1 <= c)%nat) by lia.
  pose proof (chunk_count_le c (List.length urls) Hc1) as Hm.
  pose proof (chunk_count_covers c (List.length urls) Hc1) as Hcov.
  unfold processAndUploadImagesBatch.
  pose proof (batch_loop_run w urls projectId (default (num_of_Z 80) quality)
                (default 3 concurrency) ro Hc fuel 0 [] tr) as R.
  rewrite <- Ec in R. cbn [Nat.mul Z.of_nat] in R.
  rewrite Nat.sub_0_r in R. rewrite R by lia.
  cbn [app]. do 3 f_equal.
  apply (mapi_chunks (A := jsstring) (B := ImageProcessResult) c
           (chunk_count c (List.length urls)) Hc1
           (fun j url index =>
              processAndUploadImage (item w (Z.of_nat (j * c)) index) url projectId
                (Some (batch_file_name w (Z.of_nat (j * c)) index))
                (Some (default (num_of_Z 80) quality)) ro)
           urls Hcov).
Qed.

(** C3: with a concurrency of at least 1 and fuel for every chunk, the
    batch returns; it launches the chunks [chunk_at c urls 0],
    [chunk_at c urls 1], ... one after another, which in this order make up
    the input, are non-empty, of size [c] except possibly the last; the
    result list has one entry per URL, the entry at position [k] being the
    result of processing the URL at position [k], whatever happened to the
    others. *)
Theorem batch_results_in_order (w : World) (urls : list jsstring)
    (projectId : option jsstring) (quality : option number)
    (concurrency : option Z) (ro : option ResizeOptions)
    (fuel : nat) (tr : trace) :
  1 <= default 3 concurrency ->
  (List.length urls < fuel)%nat ->
  let c := Z.to_nat (default 3 concurrency) in
  let q := default (num_of_Z 80) quality in
  let m := chunk_count c (List.length urls) in
  exists results,
    processAndUploadImagesBatch fuel w urls projectId quality concurrency ro tr
    = Some (inr results,
            tr ++ map (fun j => EvChunk (chunk_items w c urls j)) (seq 0 m))
    /\ List.length results = List.length urls
    /\ (forall k url,
           nth_error urls k = Some url ->
           nth_error results k = Some (result_at w projectId q ro c k url))
    /\ List.concat (map (chunk_at c urls) (seq 0 m)) = urls
    /\ (forall j, (j < m)%nat ->
                  map fst (chunk_items w c urls j) = chunk_at c urls j
                  /\ (1 <= List.length (chunk_at c urls j) <= c)%nat)
    /\ (forall j, (S j < m)%nat -> List.length (chunk_at c urls j) = c).
Proof.
  intros Hc Hfuel. cbv zeta.
  rewrite (batch_run w urls projectId quality concurrency ro fuel tr Hc Hfuel).
  remember (Z.to_nat (default 3 concurrency)) as c eqn:Ec.
  assert (Hc1 : (1 <= c)%nat) by lia.
  pose proof (chunk_count_le c (List.length urls) Hc1) as Hm.
  pose proof (chunk_count_covers c (List.length urls) Hc1) as Hcov.
  exists (mapi (fun url k =>
                  result_at w projectId (default (num_of_Z 80) quality) ro c k url)
               urls).
  split; [|split; [|split; [|split; [|split]]]].
  - reflexivity.
  - apply length_mapi_from.
  - intros k url Hk. unfold mapi.
    rewrite (nth_error_mapi_from _ 0 urls k url Hk). reflexivity.
  - apply concat_chunks; assumption.
  - intros j Hj. split; [apply map_fst_chunk_items|]. split.
    + apply chunk_at_nonempty; [assumption|].
      apply chunk_count_spec; assumption.
    + apply chunk_at_length.
  - intros j Hj. apply chunk_at_full.
    apply chunk_count_spec in Hj; [lia | assumption].
Qed.

Lemma batch_results_in_order_witness :
  exists results,
    processAndUploadImagesBatch 4 middle_fails_world urls_ABC None None None None []
    = Some (inr results,
            [] ++ map (fun j => EvChunk (chunk_items middle_fails_world 3 urls_ABC j))
                      (seq 0 (chunk_count 3 3)))
    /\ map success results = [true; false; true].
Proof.
  destruct (batch_results_in_order middle_fails_world urls_ABC None None None None
              4 []) as (results & Hrun & _).
  - simpl. lia.
  - simpl. lia.
  - exists results. split; [exact Hrun|].
    vm_compute in Hrun. inversion Hrun. reflexivity.
Defined.

(** With a concurrency of 0 the loop variable never advances: on a
    non-empty list the batch does not return, whatever the fuel. *)
Lemma batch_loop_zero_concurrency (w : World) (urls : list jsstring)
    (projectId : option jsstring) (q : number) (ro : option ResizeOptions)
    (fuel : nat) (results : list ImageProcessResult) (tr : trace) :
  urls <> [] ->
  batch_loop fuel w urls projectId q 0 ro 0 results tr = None.
Proof.
  intro Hne. revert results tr.
  induction fuel as [|fuel IH]; intros results tr; [reflexivity|].
  cbn [batch_loop].
  destruct (0 <? Z.of_nat (List.length urls)) eqn:E.
  - unfold bind, emit. cbn [Z.add]. apply IH.
  - apply Z.ltb_ge in E. destruct urls; [congruence | simpl in E; lia].
Qed.

(** ** The supplemental calls *)

Lemma api_calls_app (a b : trace) : api_calls (a ++ b) = api_calls a ++ api_calls b.
Proof. unfold api_calls. apply flat_map_app. Qed.

Lemma fetch_api_run (w : World) (body : DoubaoSeedreamRequest) (tr : trace) :
  fetch_api w body tr = Some (inr (api w tr body), tr ++ [EvFetchApi body]).
Proof. reflexivity. Qed.

Lemma supplemental_call_run (w : World) (body : DoubaoSeedreamRequest)
    (remaining : number) (i : Z) (urls : list jsstring) (tr : trace) :
  supplemental_call w body remaining i urls tr
  = Some (inr (fst (supplemental_effect
                      (api w tr (additional_request_body body)) remaining i urls)),
          tr ++ EvFetchApi (additional_request_body body)
             :: snd (supplemental_effect
                       (api w tr (additional_request_body body)) remaining i urls)).
Proof.
  unfold supplemental_call, supplemental_effect, try_catch, bind.
  rewrite fetch_api_run.
  destruct (api w tr (additional_request_body body))
    as [t | st txt body' | [t | [[|first rest] | ]]];
    destruct (num_lt (num_of_Z i) (num_sub remaining (num_of_Z 1)));
    unfold emit, ret, throw; cbn [fst snd]; rewrite <- ?app_assoc; reflexivity.
Qed.

Lemma supplemental_effect_no_call (reply : api_reply) (remaining : number)
    (i : Z) (urls : list jsstring) :
  api_calls (snd (supplemental_effect reply remaining i urls)) = [].
Proof.
  unfold supplemental_effect.
  destruct reply as [t | st txt body' | [t | [[|first rest] | ]]];
    destruct (num_lt (num_of_Z i) (num_sub remaining (num_of_Z 1)));
    reflexivity.
Qed.

Lemma Qceiling_gt (q : Q) (i : Z) : (inject_Z i < q)%Q -> i < Qceiling q.
Proof.
  intro H. pose proof (Qle_ceiling q) as Hc.
  rewrite Zlt_Qlt. eapply Qlt_le_trans; eassumption.
Qed.

Lemma Qceiling_le (q : Q) (i : Z) : (q <= inject_Z i)%Q -> Qceiling q <= i.
Proof.
  intro H. rewrite <- (Qceiling_Z i). apply Qceiling_resp_le, H.
Qed.

(** The loop returns, never throws, and issues one POST of the
    additional body per integer in [i, remaining). *)
Lemma supplemental_loop_run (w : World) (body : DoubaoSeedreamRequest) (q : Q) :
  forall (fuel : nat) (i : Z) (urls : list jsstring) (tr : trace),
    (Z.to_nat (Qceiling q - i) < fuel)%nat ->
    exists urls' ext,
      supplemental_loop fuel w body (Fin q) i urls tr = Some (inr urls', tr ++ ext)
      /\ api_calls ext
         = repeat (additional_request_body body) (Z.to_nat (Qceiling q - i))
      /\ (List.length urls <= List.length urls')%nat.
Proof.
  induction fuel as [|fuel IH]; intros i urls tr Hfuel; [lia|].
  cbn [supplemental_loop]. cbn [num_lt num_of_Z].
  destruct (Qltb (inject_Z i) q) eqn:E.
  - apply Qltb_true in E. pose proof (Qceiling_gt q i E) as Hi.
    unfold bind. rewrite supplemental_call_run.
    remember (supplemental_effect (api w tr (additional_request_body body))
                (Fin q) i urls) as eff eqn:Eeff.
    destruct (IH (i + 1) (fst eff)
                (tr ++ EvFetchApi (additional_request_body body) :: snd eff))
      as (urls' & ext & Hrun & Hcalls & Hlen); [lia|].
    exists urls', (EvFetchApi (additional_request_body body) :: snd eff ++ ext).
    split; [|split].
    + rewrite Hrun. rewrite <- app_assoc. reflexivity.
    + change (EvFetchApi (additional_request_body body) :: snd eff ++ ext)
        with ([EvFetchApi (additional_request_body body)] ++ snd eff ++ ext).
      rewrite !api_calls_app, Hcalls. subst eff.
      rewrite supplemental_effect_no_call. cbn [api_calls flat_map app].
      replace (Z.to_nat (Qceiling q - i)) with (S (Z.to_nat (Qceiling q - (i + 1))))
        by lia.
      reflexivity.
    + assert (L : (List.length urls <= List.length (fst eff))%nat).
      { subst eff. unfold supplemental_effect.
        destruct (api w tr (additional_request_body body))
          as [t | st txt body' | [t | [[|first rest] | ]]];
          cbn [fst]; rewrite ?length_app; simpl; lia. }
      lia.
  - apply Qltb_false in E. pose proof (Qceiling_le q i E) as Hi.
    exists urls, []. rewrite app_nil_r.
    replace (Z.to_nat (Qceiling q - i)) with 0%nat by lia.
    repeat split. lia.
Qed.

(** ** The whole call *)

Lemma resolve_size_pair (p : Params) :
  resolve_size (v_size (schema_output p)) (resizeOptions p)
  = (api_size p, target_resize p).
Proof. unfold api_size, target_resize. apply surjective_pairing. Qed.

Lemma requested_images_within (p : Params) :
  fields_valid p -> within 1 4 (requested_images p).
Proof.
  intros (_ & _ & _ & H & _). unfold requested_images. simpl.
  destruct (num_images p) as [n|]; simpl.
  - destruct (H n eq_refl) as (q & -> & Hlo & Hhi). simpl.
    destruct (Qeq_bool q 0); simpl.
    + exists 1%Q. repeat split; discriminate.
    + exists q. repeat split; assumption.
  - exists 1%Q. repeat split; discriminate.
Qed.

Lemma acquire_cases (w : World) (p : Params) : acquire_outcome w p (acquire w p []).
Proof.
  unfold acquire.
  destruct (schema_parse p) as [issues|v] eqn:Es.
  - unfold bind, throw. apply acq_invalid, Es.
  - assert (Hv : fields_valid p).
    { apply schema_parse_ok. unfold schema_parse in *.
      destruct (schema_issues p); [reflexivity | discriminate]. }
    assert (Ev : v = schema_output p).
    { apply schema_parse_ok in Hv. congruence. }
    subst v. unfold bind at 1. unfold ret at 1.
    rewrite resolve_size_pair.
    destruct (keep_truthy_str (SEED_EDIT_KEY w)) as [key|] eqn:Ek.
    + assert (Hk : keep_truthy_str (SEED_EDIT_KEY w) <> None) by congruence.
      fold (primary_body p). unfold bind at 1. rewrite fetch_api_run. cbn [app].
      destruct (api w [] (primary_body p))
        as [t | st txt [t | errorText] | [t | data]] eqn:Ea;
        try (unfold bind, throw, lift;
             apply acq_primary_failed; [exact Es | exact Hk | rewrite Ea; reflexivity]).
      unfold bind at 1. unfold lift, ret at 1.
      destruct (default [] data) as [|u0 us] eqn:Ed.
      * cbn [List.length Nat.eqb]. unfold throw.
        apply acq_primary_failed; [exact Es | exact Hk |].
        rewrite Ea. simpl. rewrite Ed. reflexivity.
      * cbn [Nat.eqb List.length]. fold (requested_images p).
        destruct (requested_images_within p Hv) as (n & En & Hlo & Hhi).
        rewrite En.
        destruct (num_lt (num_of_nat (S (List.length us))) (Fin n)) eqn:El.
        -- unfold bind. cbn [num_sub num_of_nat num_of_Z].
           destruct (supplemental_loop_run w (primary_body p)
                       (n - inject_Z (Z.of_nat (S (List.length us))))
                       (loop_fuel (Fin (n - inject_Z (Z.of_nat (S (List.length us))))))
                       0 (u0 :: us) [EvFetchApi (primary_body p)])
             as (urls & ext & Hrun & Hcalls & Hlen).
           { unfold loop_fuel. rewrite Z.sub_0_r. lia. }
           rewrite Hrun. unfold ret. cbn [app].
           apply (acq_urls w p data urls ext Es Hk Ea).
           ++ rewrite Ed. discriminate.
           ++ rewrite Ed. exact Hlen.
           ++ rewrite Ed, En. cbn [num_sub num_of_nat num_of_Z List.length].
              rewrite Hcalls, Z.sub_0_r. reflexivity.
        -- unfold bind, ret.
           apply (acq_urls w p data (u0 :: us) [] Es Hk Ea).
           ++ rewrite Ed. discriminate.
           ++ rewrite Ed. apply le_n.
           ++ rewrite Ed, En. cbn [num_sub num_of_nat num_of_Z List.length].
              cbn [num_lt num_of_nat num_of_Z] in El. apply Qltb_false in El.
              replace (Z.to_nat (Qceiling (n - inject_Z (Z.of_nat (S (List.length us))))))
                with 0%nat; [reflexivity|].
              assert (Qceiling (n - inject_Z (Z.of_nat (S (List.length us)))) <= 0);
                [|lia].
              apply Qceiling_le. change (inject_Z 0) with 0%Q. lra.
    + unfold throw. apply acq_no_key; assumption.
Qed.

Lemma process_run (w : World) (p : Params) (urls : list jsstring) (q : number)
    (ro : option ResizeOptions) (tr : trace) :
  process w p (urls, q, ro) tr
  = Some (processed (pipeline_results w p q ro urls), tr ++ pipeline_events w urls).
Proof.
  unfold process, bind.
  rewrite (batch_run w urls (projectId p) (Some q) (Some 3) ro
             (S (List.length urls)) tr) by (simpl; lia).
  cbn [default]. change (Z.to_nat 3) with 3%nat.
  fold (pipeline_results w p q ro urls). fold (pipeline_events w urls).
  unfold processed.
  destruct (filter success (pipeline_results w p q ro urls)) as [|r rs];
    cbn [List.length Nat.eqb]; [reflexivity|].
  unfold ret, success_outcome. rewrite !map_map. reflexivity.
Qed.

Lemma generate_run (w : World) (p : Params) :
  generateDoubaoSeedreamImage w p
  = match acquire w p [] with
    | Some (inl e, tr) => Some (inr (failed (message_of e)), tr)
    | Some (inr (urls, q, ro), tr) =>
        Some (inr (settle (processed (pipeline_results w p q ro urls))),
              tr ++ pipeline_events w urls)
    | None => None
    end.
Proof.
  unfold generateDoubaoSeedreamImage, try_catch, bind.
  destruct (acquire w p []) as [[[e | [[urls q] ro]] tr]|]; try reflexivity.
  rewrite process_run.
  destruct (processed (pipeline_results w p q ro urls)); reflexivity.
Qed.

(** The call always settles, and settles to a returned value. *)
Lemma generate_total (w : World) (p : Params) :
  exists outcome tr, generateDoubaoSeedreamImage w p = Some (inr outcome, tr).
Proof.
  rewrite generate_run.
  destruct (acquire_cases w p); eauto.
Qed.

Lemma settle_processed (results : list ImageProcessResult) :
  (filter success results = []
   /\ settle (processed results) = failed MsgAllProcessingFailed)
  \/ (filter success results <> []
      /\ settle (processed results) = success_outcome (filter success results)).
Proof.
  unfold processed. destruct (filter success results) as [|r rs].
  - left. split; reflexivity.
  - right. split; [discriminate | reflexivity].
Qed.

Lemma filter_nil_iff {A} (f : A -> bool) (l : list A) :
  filter f l = [] <-> (forall x, In x l -> f x = false).
Proof.
  induction l as [|a l IH]; simpl.
  - split; [intros _ x [] | reflexivity].
  - destruct (f a) eqn:E; split.
    + discriminate.
    + intro H. specialize (H a (or_introl eq_refl)). congruence.
    + intros H x [<- | Hx]; [exact E | apply IH; assumption].
    + intro H. apply IH. intros x Hx. apply H. right. exact Hx.
Qed.

Lemma api_calls_pipeline_events (w : World) (urls : list jsstring) :
  api_calls (pipeline_events w urls) = [].
Proof.
  unfold pipeline_events. induction (seq 0 (chunk_count 3 (List.length urls)));
    [reflexivity | exact IHl].
Qed.



(** C5: when the request validates and the API key is set, the first
    call of the run is the POST of the primary body, whose [num_images] is
    2 and whose [sequential_image_generation] is ["auto"], whatever image
    count the caller asked for; every later POST carries the supplemental
    body. *)
Theorem primary_request_asks_for_two (w : World) (p : Params) :
  schema_parse p = inr (schema_output p) ->
  keep_truthy_str (SEED_EDIT_KEY w) <> None ->
  exists outcome rest,
    generateDoubaoSeedreamImage w p
    = Some (inr outcome, EvFetchApi (primary_body p) :: rest)
    /\ rq_num_images (primary_body p) = Some (num_of_Z 2)
    /\ rq_sequential_image_generation (primary_body p) = Some auto
    /\ Forall (fun b => b = additional_request_body (primary_body p))
              (api_calls rest).
Proof.
  intros Hv Hk. rewrite generate_run.
  destruct (acquire_cases w p) as [issues Hi | Hv' Hk' | t _ _ Hf | data urls ext _ _ Ha Hd Hl Hc].
  - congruence.
  - congruence.
  - exists (failed (message_of t)), []. repeat split. constructor.
  - exists (settle (processed (pipeline_results w p (image_quality (quality p))
                                 (target_resize p) urls))),
           (ext ++ pipeline_events w urls).
    repeat split.
    rewrite api_calls_app, api_calls_pipeline_events, app_nil_r, Hc.
    apply Forall_forall. intros b Hb. apply repeat_spec in Hb. exact Hb.
Qed.

Lemma primary_request_asks_for_two_witness :
  exists outcome rest,
    generateDoubaoSeedreamImage sample_world
      (with_num_images (num_of_Z 4) autumn_request)
    = Some (inr outcome,
            EvFetchApi (primary_body (with_num_images (num_of_Z 4) autumn_request))
            :: rest)
    /\ rq_num_images (primary_body (with_num_images (num_of_Z 4) autumn_request))
       = Some (num_of_Z 2)
    /\ rq_sequential_image_generation
         (primary_body (with_num_images (num_of_Z 4) autumn_request))
       = Some auto
    /\ Forall (fun b => b = additional_request_body
                              (primary_body (with_num_images (num_of_Z 4) autumn_request)))
              (api_calls rest).
Proof.
  apply (primary_request_asks_for_two sample_world
           (with_num_images (num_of_Z 4) autumn_request)).
  - reflexivity.
  - discriminate.
Defined.

(** C10: the call never rejects and never hangs: it returns a value. A
    returned failure is [{success: false, error}] with no [urls], [ossKeys]
    or [images]; this is what a validation failure, a missing API key, a
    failed primary call, an empty provider response and the failure of
    every image become. *)
Theorem generate_never_rejects (w : World) (p : Params) :
  exists outcome tr,
    generateDoubaoSeedreamImage w p = Some (inr outcome, tr)
    /\ (o_success outcome = false ->
        exists m, o_error outcome = Some m /\ o_urls outcome = None
                  /\ o_ossKeys outcome = None /\ o_images outcome = None)
    /\ (forall issues, schema_parse p = inl issues ->
                       outcome = failed (MsgZod issues))
    /\ (schema_parse p = inr (schema_output p) ->
        (keep_truthy_str (SEED_EDIT_KEY w) = None -> outcome = failed MsgMissingKey)
        /\ (keep_truthy_str (SEED_EDIT_KEY w) <> None ->
            (forall t, primary_failure (api w [] (primary_body p)) = Some t ->
                       outcome = failed (message_of t))
            /\ (forall status statusText errorText,
                   api w [] (primary_body p)
                   = ApiNotOk status statusText (inr errorText) ->
                   outcome = failed (MsgApiFailed status statusText errorText))
            /\ (forall data, api w [] (primary_body p) = ApiOk (inr data) ->
                             default [] data = [] ->
                             outcome = failed MsgNoImageUrl)))
    /\ (forall urls q ro tr0,
           acquire w p [] = Some (inr (urls, q, ro), tr0) ->
           (forall r, In r (pipeline_results w p q ro urls) -> success r = false) ->
           outcome = failed MsgAllProcessingFailed).
Proof.
  rewrite generate_run.
  destruct (acquire_cases w p)
    as [issues Hi | Hv Hk | t Hv Hk Hf | data urls ext Hv Hk Ha Hd Hl Hc].
  - exists (failed (MsgZod issues)), []. split; [reflexivity|].
    split; [intros _; exists (MsgZod issues); repeat split|].
    split; [intros issues' Hi'; congruence|].
    split; [intro Hv; congruence|].
    intros urls q ro tr0 H; discriminate.
  - exists (failed MsgMissingKey), []. split; [reflexivity|].
    split; [intros _; exists MsgMissingKey; repeat split|].
    split; [intros issues Hi; congruence|].
    split; [intros _; split; [reflexivity | congruence]|].
    intros urls q ro tr0 H; discriminate.
  - exists (failed (message_of t)), [EvFetchApi (primary_body p)].
    split; [reflexivity|].
    split; [intros _; exists (message_of t); repeat split|].
    split; [intros issues Hi; congruence|].
    split.
    + intros _. split; [congruence|]. intros _. split; [|split].
      * intros t' Ht'. congruence.
      * intros st txt e Hr. rewrite Hr in Hf. simpl in Hf.
        inversion Hf. reflexivity.
      * intros data Hr Hd. rewrite Hr in Hf. simpl in Hf. rewrite Hd in Hf.
        inversion Hf. reflexivity.
    + intros urls q ro tr0 H; discriminate.
  - exists (settle (processed (pipeline_results w p (image_quality (quality p))
                                 (target_resize p) urls))),
           ((EvFetchApi (primary_body p) :: ext) ++ pipeline_events w urls).
    split; [reflexivity|].
    destruct (settle_processed (pipeline_results w p (image_quality (quality p))
                                  (target_resize p) urls))
      as [[Hnil Hs] | [Hne Hs]]; rewrite Hs.
    + split; [intros _; exists MsgAllProcessingFailed; repeat split|].
      split; [intros issues Hi; congruence|].
      split.
      * intros _. split; [congruence|]. intros _. split; [|split].
        -- intros t Ht. rewrite Ha in Ht. simpl in Ht.
           destruct (default [] data); [congruence | discriminate].
        -- intros st txt e Hr. congruence.
        -- intros data' Hr Hd'. congruence.
      * intros; reflexivity.
    + split; [discriminate|].
      split; [intros issues Hi; congruence|].
      split.
      * intros _. split; [congruence|]. intros _. split; [|split].
        -- intros t Ht. rewrite Ha in Ht. simpl in Ht.
           destruct (default [] data); [congruence | discriminate].
        -- intros st txt e Hr. congruence.
        -- intros data' Hr Hd'. congruence.
      * intros urls' q ro tr0 H Hall. inversion H; subst.
        apply filter_nil_iff in Hall. congruence.
Qed.

Lemma generate_never_rejects_witness :
  exists outcome tr,
    generateDoubaoSeedreamImage keyless_world autumn_request = Some (inr outcome, tr)
    /\ outcome = failed MsgMissingKey.
Proof.
  destruct (generate_never_rejects keyless_world autumn_request)
    as (outcome & tr & Hrun & _ & _ & Hkey & _).
  exists outcome, tr. split; [exact Hrun|].
  apply Hkey; reflexivity.
Defined.

(** ** Supplemental calls: count and delays *)

Lemma Qceiling_sub_Z (n k : Z) : Qceiling (inject_Z n - inject_Z k) = n - k.
Proof.
  assert (E : (inject_Z n - inject_Z k == inject_Z (n - k))%Q).
  { unfold Z.sub, Qminus. rewrite inject_Z_plus, inject_Z_opp. reflexivity. }
  rewrite (Qceiling_comp _ _ E). apply Qceiling_Z.
Qed.

(** When the primary call yields [k] URLs and the validated count is the
    integer [n], the run issues [n - k] supplemental POSTs (none when
    [k >= n]), each with the body without [num_images]. *)
Lemma supplemental_calls_issued (w : World) (p : Params) (n : Z)
    (data : option (list jsstring)) :
  schema_parse p = inr (schema_output p) ->
  keep_truthy_str (SEED_EDIT_KEY w) <> None ->
  requested_images p = num_of_Z n ->
  api w [] (primary_body p) = ApiOk (inr data) ->
  default [] data <> [] ->
  exists outcome rest,
    generateDoubaoSeedreamImage w p
    = Some (inr outcome, EvFetchApi (primary_body p) :: rest)
    /\ api_calls rest
       = repeat (additional_request_body (primary_body p))
           (Z.to_nat (n - Z.of_nat (List.length (default [] data)))).
Proof.
  intros Hv Hk Hn Ha Hd. rewrite generate_run.
  destruct (acquire_cases w p)
    as [issues Hi | Hv' Hk' | t _ _ Hf | data' urls ext _ _ Ha' Hd' Hl Hc].
  - congruence.
  - congruence.
  - rewrite Ha in Hf. simpl in Hf.
    destruct (default [] data); [congruence | discriminate].
  - assert (data' = data) by congruence. subst data'.
    eexists. exists (ext ++ pipeline_events w urls). split; [reflexivity|].
    rewrite api_calls_app, api_calls_pipeline_events, app_nil_r, Hc, Hn.
    unfold num_of_nat, num_of_Z. cbn [num_sub].
    rewrite Qceiling_sub_Z. reflexivity.
Qed.

(** C4 at a failing input: one URL for three images asked, so two
    supplemental calls; the first one's [fetch] rejects, control jumps to
    the [catch] past the delay, and the second call follows with no delay
    in between. *)
Lemma supplemental_delay_skipped_when_fetch_rejects :
  exists outcome,
    generateDoubaoSeedreamImage flaky_world three_images
    = Some (inr outcome,
            [EvFetchApi (primary_body three_images);
             EvFetchApi (additional_request_body (primary_body three_images));
             EvWarn 2;
             EvFetchApi (additional_request_body (primary_body three_images))]
            ++ pipeline_events flaky_world
                 [lit "https://p.example/1.png"; lit "https://p.example/3.png"])
    /\ o_success outcome = true.
Proof. eexists. split; reflexivity. Qed.

(** The sibling path: when the first supplemental call gets a response
    that is not ok, the warning is followed by the 1000 ms delay. *)
Lemma supplemental_delay_kept_after_http_error :
  exists outcome,
    generateDoubaoSeedreamImage throttled_world three_images
    = Some (inr outcome,
            [EvFetchApi (primary_body three_images);
             EvFetchApi (additional_request_body (primary_body three_images));
             EvWarn 2;
             EvDelay 1000;
             EvFetchApi (additional_request_body (primary_body three_images))]
            ++ pipeline_events throttled_world
                 [lit "https://p.example/1.png"; lit "https://p.example/3.png"])
    /\ o_success outcome = true.
Proof. eexists. split; reflexivity. Qed.

(** * Further properties *)

(** ** The batch of prompts *)

Lemma generate_from_empty (w : World) (p : Params) :
  generateDoubaoSeedreamImage w p = generateDoubaoSeedreamImage_from w p [].
Proof. reflexivity. Qed.

(** Lines 85-262 return or throw, from any trace, and only add to it; a
    request that fails validation adds nothing. *)
Lemma acquire_from (w : World) (p : Params) (tr : trace) :
  exists r ext,
    acquire w p tr = Some (r, tr ++ ext)
    /\ (forall issues, schema_parse p = inl issues ->
                       r = inl (ThrownError (MsgZod issues)) /\ ext = []).
Proof.
  unfold acquire.
  destruct (schema_parse p) as [issues|v] eqn:Es.
  - unfold bind, throw. exists (inl (ThrownError (MsgZod issues))), [].
    rewrite app_nil_r. split; [reflexivity|].
    intros issues' H. inversion H; subst. split; reflexivity.
  - assert (Hv : fields_valid p).
    { apply schema_parse_ok. unfold schema_parse in *.
      destruct (schema_issues p); [reflexivity | discriminate]. }
    assert (Ev : v = schema_output p).
    { apply schema_parse_ok in Hv. congruence. }
    subst v. unfold bind at 1. unfold ret at 1.
    rewrite resolve_size_pair.
    destruct (keep_truthy_str (SEED_EDIT_KEY w)) as [key|] eqn:Ek.
    + fold (primary_body p). unfold bind at 1. rewrite fetch_api_run.
      destruct (api w tr (primary_body p))
        as [t | st txt [t | errorText] | [t | data]] eqn:Ea;
        try (unfold bind, throw, lift; eexists; eexists;
             split; [reflexivity | intros issues H; discriminate]).
      unfold bind at 1. unfold lift, ret at 1.
      destruct (default [] data) as [|u0 us] eqn:Ed.
      * cbn [List.length Nat.eqb]. unfold throw. eexists; eexists.
        split; [reflexivity | intros issues H; discriminate].
      * cbn [Nat.eqb List.length]. fold (requested_images p).
        destruct (requested_images_within p Hv) as (n & En & Hlo & Hhi).
        rewrite En.
        destruct (num_lt (num_of_nat (S (List.length us))) (Fin n)) eqn:El.
        -- unfold bind. cbn [num_sub num_of_nat num_of_Z].
           destruct (supplemental_loop_run w (primary_body p)
                       (n - inject_Z (Z.of_nat (S (List.length us))))
                       (loop_fuel (Fin (n - inject_Z (Z.of_nat (S (List.length us))))))
                       0 (u0 :: us) (tr ++ [EvFetchApi (primary_body p)]))
             as (urls & ext & Hrun & Hcalls & Hlen).
           { unfold loop_fuel. rewrite Z.sub_0_r. lia. }
           rewrite Hrun. unfold ret. rewrite <- app_assoc.
           eexists; eexists. split; [reflexivity | intros issues H; discriminate].
        -- unfold bind, ret. eexists; eexists.
           split; [reflexivity | intros issues H; discriminate].
    + unfold throw. exists (inl (ThrownError MsgMissingKey)), [].
      rewrite app_nil_r. split; [reflexivity | intros issues H; discriminate].
Qed.

(** The call returns a value from any trace and only adds to the trace;
    a request that fails validation returns the failure and adds nothing. *)
Lemma generate_from_total (w : World) (p : Params) (tr : trace) :
  exists outcome ext,
    generateDoubaoSeedreamImage_from w p tr = Some (inr outcome, tr ++ ext)
    /\ (forall issues, schema_parse p = inl issues ->
                       outcome = failed (MsgZod issues) /\ ext = []).
Proof.
  unfold generateDoubaoSeedreamImage_from, try_catch, bind.
  destruct (acquire_from w p tr) as (r & ext & Hrun & Hinv). rewrite Hrun.
  destruct r as [e | [[urls q] ro]].
  - exists (failed (message_of e)), ext. split; [reflexivity|].
    intros issues H. destruct (Hinv issues H) as [He Hx].
    inversion He; subst. split; reflexivity.
  - rewrite process_run.
    exists (settle (processed (pipeline_results w p q ro urls))),
           (ext ++ pipeline_events w urls).
    split.
    + rewrite <- app_assoc.
      destruct (processed (pipeline_results w p q ro urls)); reflexivity.
    + intros issues H. destruct (Hinv issues H) as [He _]. discriminate.
Qed.

Lemma prompts_loop_run (ws : nat -> World) (options : BatchOptions) :
  forall (prompts : list jsstring) (k : nat) (results : list BatchEntry)
         (tr : trace),
  exists entries ext,
    prompts_loop ws k prompts options results tr
    = Some (inr (results ++ entries), tr ++ ext)
    /\ map be_prompt entries = prompts
    /\ (forall j p issues,
           nth_error prompts j = Some p ->
           schema_parse (batch_params p options) = inl issues ->
           nth_error entries j
           = Some {| be_prompt := p; be_result := failed (MsgZod issues) |})
    /\ (prompts <> [] -> exists ext', ext = ext' ++ [EvDelay 1000])
    /\ ((forall p, In p prompts ->
                   exists issues, schema_parse (batch_params p options) = inl issues) ->
        ext = repeat (EvDelay 1000) (List.length prompts)).
Proof.
  induction prompts as [|p rest IH]; intros k results tr.
  - exists [], []. rewrite !app_nil_r. repeat split.
    + intros j q issues H. destruct j; discriminate.
    + intro H. congruence.
  - cbn [prompts_loop]. unfold bind at 1.
    destruct (generate_from_total (ws k) (batch_params p options) tr)
      as (outcome & ext1 & Hrun & Hinv).
    rewrite Hrun. unfold bind at 1. unfold emit at 1.
    destruct (IH (S k) (results ++ [{| be_prompt := p; be_result := outcome |}])
                ((tr ++ ext1) ++ [EvDelay 1000]))
      as (entries & ext2 & Hloop & Hmap & Hbad & Hend & Hall).
    rewrite Hloop.
    exists ({| be_prompt := p; be_result := outcome |} :: entries),
           (ext1 ++ EvDelay 1000 :: ext2).
    split; [|split; [|split; [|split]]].
    + rewrite <- !app_assoc. reflexivity.
    + simpl. rewrite Hmap. reflexivity.
    + intros j q issues Hj Hq. destruct j as [|j]; simpl in Hj |- *.
      * inversion Hj; subst q. destruct (Hinv issues Hq) as [-> _]. reflexivity.
      * apply (Hbad j q issues Hj Hq).
    + intros _. destruct rest as [|p' rest'].
      * exists ext1.
        assert (E2 : ext2 = []).
        { apply (f_equal (fun x => match x with
                                   | Some (_, t) => List.length t
                                   | None => 0%nat
                                   end)) in Hloop.
          cbn [prompts_loop] in Hloop. unfold ret in Hloop.
          rewrite !length_app in Hloop. destruct ext2; [reflexivity|].
          simpl in Hloop. lia. }
        rewrite E2. reflexivity.
      * destruct Hend as (ext' & Hext'); [discriminate|].
        exists (ext1 ++ EvDelay 1000 :: ext'). rewrite Hext'.
        rewrite <- app_assoc. reflexivity.
    + intros Hbadall.
      destruct (Hbadall p (or_introl eq_refl)) as (issues & Hi).
      destruct (Hinv issues Hi) as [_ ->].
      rewrite Hall by (intros q Hq; apply Hbadall; right; exact Hq).
      reflexivity.
Qed.

Lemma last_cons {A} (l : list A) (a d : A) : List.last (a :: l) d = List.last l a.
Proof.
  revert a d. induction l as [|b l IH]; intros a d; [reflexivity|].
  change (List.last (a :: b :: l) d) with (List.last (b :: l) d).
  rewrite !IH. reflexivity.
Qed.

(** The run of the loop, prompt by prompt: [cuts] holds the trace after
    each prompt and its delay. *)
Lemma prompts_loop_chain (ws : nat -> World) (options : BatchOptions) :
  forall (prompts : list jsstring) (k : nat) (results : list BatchEntry)
         (tr : trace),
  exists entries cuts,
    prompts_loop ws k prompts options results tr
    = Some (inr (results ++ entries), List.last cuts tr)
    /\ List.length cuts = List.length prompts
    /\ map be_prompt entries = prompts
    /\ (forall j p,
           nth_error prompts j = Some p ->
           exists before outcome ext,
             nth_error (tr :: cuts) j = Some before
             /\ generateDoubaoSeedreamImage_from (ws (k + j)%nat)
                  (batch_params p options) before
                = Some (inr outcome, before ++ ext)
             /\ nth_error cuts j = Some (before ++ ext ++ [EvDelay 1000])
             /\ nth_error entries j
                = Some {| be_prompt := p; be_result := outcome |}
             /\ (forall issues,
                    schema_parse (batch_params p options) = inl issues ->
                    outcome = failed (MsgZod issues) /\ ext = [])).
Proof.
  induction prompts as [|p rest IH]; intros k results tr.
  - exists [], []. rewrite app_nil_r. split; [reflexivity|].
    split; [reflexivity|]. split; [reflexivity|].
    intros j q H. destruct j; discriminate.
  - cbn [prompts_loop]. unfold bind at 1.
    destruct (generate_from_total (ws k) (batch_params p options) tr)
      as (outcome & ext1 & Hrun & Hinv).
    rewrite Hrun. unfold bind at 1. unfold emit at 1.
    destruct (IH (S k) (results ++ [{| be_prompt := p; be_result := outcome |}])
                ((tr ++ ext1) ++ [EvDelay 1000]))
      as (entries & cuts & Hloop & Hlen & Hmap & Hchain).
    rewrite Hloop.
    exists ({| be_prompt := p; be_result := outcome |} :: entries),
           (((tr ++ ext1) ++ [EvDelay 1000]) :: cuts).
    split; [rewrite last_cons, <- app_assoc; reflexivity|].
    split; [cbn [List.length]; rewrite Hlen; reflexivity|].
    split; [cbn [map be_prompt]; rewrite Hmap; reflexivity|].
    intros j q Hj. destruct j as [|j].
    + cbn [nth_error] in Hj. inversion Hj; subst q.
      exists tr, outcome, ext1. rewrite Nat.add_0_r.
      split; [reflexivity|]. split; [exact Hrun|].
      split; [cbn [nth_error]; rewrite <- app_assoc; reflexivity|].
      split; [reflexivity | exact Hinv].
    + cbn [nth_error] in Hj.
      destruct (Hchain j q Hj) as (before & o & ext & Hb & Hg & Hc & He & Hi).
      exists before, o, ext. rewrite Nat.add_succ_r.
      split; [exact Hb|]. split; [exact Hg|]. split; [exact Hc|].
      split; [exact He | exact Hi].
Qed.

(** X1: the batch of prompts returns, with one entry per prompt, in
    the order of the prompts. Prompt [j] is run by
    [generateDoubaoSeedreamImage] on the trace left by the prompts before it
    (the empty trace for the first), its entry carries the prompt and what
    that call resolved to, and a 1000 ms delay follows the call; the trace
    of the batch is the one left by the last prompt. A prompt whose request
    fails validation gives the validation failure at its own position, and
    the prompts after it are still run. *)
Theorem prompts_batch_one_entry_per_prompt (ws : nat -> World)
    (prompts : list jsstring) (options : BatchOptions) :
  exists entries tr cuts,
    generateDoubaoSeedreamImagesBatch ws prompts options = Some (inr entries, tr)
    /\ map be_prompt entries = prompts
    /\ List.length cuts = List.length prompts
    /\ List.last cuts [] = tr
    /\ (forall j p,
           nth_error prompts j = Some p ->
           exists before outcome ext,
             nth_error ([] :: cuts) j = Some before
             /\ generateDoubaoSeedreamImage_from (ws j) (batch_params p options)
                  before
                = Some (inr outcome, before ++ ext)
             /\ nth_error cuts j = Some (before ++ ext ++ [EvDelay 1000])
             /\ nth_error entries j
                = Some {| be_prompt := p; be_result := outcome |})
    /\ (forall j p issues,
           nth_error prompts j = Some p ->
           schema_parse (batch_params p options) = inl issues ->
           nth_error entries j
           = Some {| be_prompt := p; be_result := failed (MsgZod issues) |}).
Proof.
  unfold generateDoubaoSeedreamImagesBatch.
  destruct (prompts_loop_chain ws options prompts 0 [] [])
    as (entries & cuts & Hrun & Hlen & Hmap & Hchain).
  exists entries, (List.last cuts []), cuts.
  split; [exact Hrun|]. split; [exact Hmap|]. split; [exact Hlen|].
  split; [reflexivity|]. split.
  - intros j p Hj.
    destruct (Hchain j p Hj) as (before & o & ext & Hb & Hg & Hc & He & _).
    exists before, o, ext. cbn [Nat.add] in Hg.
    split; [exact Hb|]. split; [exact Hg|]. split; [exact Hc | exact He].
  - intros j p issues Hj Hi.
    destruct (Hchain j p Hj) as (before & o & ext & _ & _ & _ & He & Hinv).
    destruct (Hinv issues Hi) as [-> _]. exact He.
Qed.

(** A batch whose first prompt is empty and whose second is the sample
    one: the first entry is the validation failure, the second succeeds. *)
Lemma prompts_batch_one_entry_per_prompt_witness :
  exists entries tr,
    generateDoubaoSeedreamImagesBatch (fun _ => sample_world) [[]; autumn_prompt]
      {| bo_negative_prompt := None; bo_image := None; bo_size := None;
         bo_num_images := None; bo_sequential_image_generation := None;
         bo_stream := None; bo_watermark := None; bo_seed := None;
         bo_projectId := None; bo_quality := None |}
    = Some (inr entries, tr)
    /\ nth_error entries 0
       = Some {| be_prompt := []; be_result := failed (MsgZod [PromptTooSmall]) |}
    /\ option_map (fun e => o_success (be_result e)) (nth_error entries 1)
       = Some true.
Proof.
  destruct (prompts_batch_one_entry_per_prompt (fun _ => sample_world)
              [[]; autumn_prompt]
              {| bo_negative_prompt := None; bo_image := None; bo_size := None;
                 bo_num_images := None; bo_sequential_image_generation := None;
                 bo_stream := None; bo_watermark := None; bo_seed := None;
                 bo_projectId := None; bo_quality := None |})
    as (entries & tr & cuts & Hrun & _ & _ & _ & _ & Hbad).
  exists entries, tr. split; [exact Hrun|]. split.
  - apply (Hbad 0%nat [] [PromptTooSmall]); reflexivity.
  - vm_compute in Hrun. inversion Hrun. reflexivity.
Defined.

Lemma api_calls_delays (ms : Z) (n : nat) : api_calls (repeat (EvDelay ms) n) = [].
Proof. induction n as [|n IH]; [reflexivity | exact IH]. Qed.

(** X2: a batch of at least one prompt ends with a 1000 ms delay: the
    delay is made after the last prompt too; when every prompt fails
    validation the run consists of these delays alone, one per prompt, and
    no call to the provider. *)
Theorem prompts_batch_delays (ws : nat -> World) (prompts : list jsstring)
    (options : BatchOptions) :
  exists entries tr,
    generateDoubaoSeedreamImagesBatch ws prompts options = Some (inr entries, tr)
    /\ (prompts <> [] -> exists before, tr = before ++ [EvDelay 1000])
    /\ ((forall p, In p prompts ->
                   exists issues, schema_parse (batch_params p options) = inl issues) ->
        tr = repeat (EvDelay 1000) (List.length prompts) /\ api_calls tr = []).
Proof.
  unfold generateDoubaoSeedreamImagesBatch.
  destruct (prompts_loop_run ws options prompts 0 [] [])
    as (entries & ext & Hrun & _ & _ & Hend & Hall).
  exists entries, ext. split; [exact Hrun|]. split; [exact Hend|].
  intro Hbad. rewrite (Hall Hbad). split; [reflexivity|].
  apply api_calls_delays.
Qed.

Lemma prompts_batch_delays_witness :
  exists entries,
    generateDoubaoSeedreamImagesBatch (fun _ => sample_world) [[]; []]
      {| bo_negative_prompt := None; bo_image := None; bo_size := None;
         bo_num_images := None; bo_sequential_image_generation := None;
         bo_stream := None; bo_watermark := None; bo_seed := None;
         bo_projectId := None; bo_quality := None |}
    = Some (inr entries, [EvDelay 1000; EvDelay 1000]).
Proof.
  destruct (prompts_batch_delays (fun _ => sample_world) [[]; []]
              {| bo_negative_prompt := None; bo_image := None; bo_size := None;
                 bo_num_images := None; bo_sequential_image_generation := None;
                 bo_stream := None; bo_watermark := None; bo_seed := None;
                 bo_projectId := None; bo_quality := None |})
    as (entries & tr & Hrun & _ & Hall).
  exists entries. rewrite Hrun.
  destruct Hall as [-> _]; [|reflexivity].
  intros p [<- | [<- | []]]; exists [PromptTooSmall]; reflexivity.
Defined.




(** X4: every size offered by [getSupportedImageSizes] passes the
    schema, resolves to the tier of the same name and derives no resize
    directive. *)
Theorem supported_sizes_resolve_to_themselves (c : SizeChoice) (p : Params) :
  In c getSupportedImageSizes ->
  size p = Some (sc_value c) ->
  size_accepted (sc_value c) = true
  /\ size_token (api_size p) = sc_value c
  /\ target_resize p = resizeOptions p.
Proof.
  intros Hc Hs. unfold api_size, target_resize. cbn [schema_output v_size].
  rewrite Hs. cbn [default].
  destruct Hc as [<- | [<- | []]]; repeat split.
Qed.

Lemma supported_sizes_resolve_to_themselves_witness :
  size_token (api_size (with_size (lit "4K") autumn_request)) = lit "4K".
Proof.
  apply (supported_sizes_resolve_to_themselves
           {| sc_value := lit "4K";
              sc_label := lit "4K (4096" ++ [215%N] ++ lit "4096)";
              sc_ratio := lit "1:1" |}
           (with_size (lit "4K") autumn_request)).
  - right; left; reflexivity.
  - reflexivity.
Defined.

(** ** What a returned success holds *)

Lemma In_mapi_from {A B} (f : A -> nat -> B) (s : nat) (l : list A) (y : B) :
  In y (mapi_from f s l) -> exists x k, In x l /\ y = f x k.
Proof.
  revert s. induction l as [|a l IH]; intros s H; [destruct H|].
  destruct H as [<- | H].
  - exists a, s. split; [left; reflexivity | reflexivity].
  - destruct (IH _ H) as (x & k & Hx & Hy). exists x, k.
    split; [right; exact Hx | exact Hy].
Qed.

Lemma starts_with_app (prefix rest : jsstring) : starts_with prefix (prefix ++ rest).
Proof.
  unfold starts_with. rewrite firstn_app, Nat.sub_diag, firstn_all. simpl.
  apply app_nil_r.
Qed.

Lemma oss_key_generated (iw : ItemWorld) (projectId fileName : option jsstring) :
  starts_with (lit "generated-images/") (oss_key iw projectId fileName).
Proof.
  unfold oss_key. destruct (keep_truthy_str fileName);
    rewrite <- !app_assoc; apply starts_with_app.
Qed.

Lemma starts_with_truthy (prefix s : jsstring) :
  prefix <> [] -> starts_with prefix s -> truthy_str s = true.
Proof.
  unfold starts_with. intros Hne H. destruct s; [|reflexivity].
  rewrite firstn_nil in H. congruence.
Qed.

(** A successful result of the pipeline has a signed URL and a key under
    [generated-images/]. *)
Lemma pipeline_result_success (w : World) (p : Params) (q : number)
    (ro : option ResizeOptions) (urls : list jsstring) (r : ImageProcessResult) :
  In r (pipeline_results w p q ro urls) -> success r = true ->
  exists u k,
    url r = Some u /\ ossKey r = Some k
    /\ starts_with (lit "generated-images/") k.
Proof.
  intros Hin Hs. unfold pipeline_results, mapi in Hin.
  apply In_mapi_from in Hin. destruct Hin as (x & k & _ & Hr).
  unfold result_at in Hr.
  destruct (processAndUploadImage_cases (item w (Z.of_nat (k / 3 * 3)) (k mod 3)) x
              (projectId p)
              (Some (batch_file_name w (Z.of_nat (k / 3 * 3)) (k mod 3)))
              (Some q) ro)
    as [(original & processed & signedUrl & _ & Hr') | (m & Hr')];
    rewrite Hr' in Hr; subst r; [|discriminate].
  eexists. eexists. split; [reflexivity|]. split; [reflexivity|].
  apply oss_key_generated.
Qed.

Lemma successful_fields (l : list ImageProcessResult) :
  Forall (fun r => exists u k, url r = Some u /\ ossKey r = Some k
                               /\ starts_with (lit "generated-images/") k) l ->
  exists us keys,
    map url l = map Some us
    /\ map ossKey l = map Some keys
    /\ truthy_keys (map ossKey l) = keys
    /\ List.length us = List.length l
    /\ List.length keys = List.length l
    /\ Forall (starts_with (lit "generated-images/")) keys.
Proof.
  induction 1 as [|r l (u & k & Hu & Hk & Hp) _ (us & keys & E1 & E2 & E3 & L1 & L2 & F)].
  - exists [], []. repeat split. constructor.
  - exists (u :: us), (k :: keys).
    assert (T : truthy_str k = true).
    { apply (starts_with_truthy (lit "generated-images/") k); [discriminate | exact Hp]. }
    split; [cbn [map]; rewrite Hu, E1; reflexivity|].
    split; [cbn [map]; rewrite Hk, E2; reflexivity|].
    split; [cbn [map truthy_keys]; rewrite Hk, T, E3; reflexivity|].
    split; [cbn [List.length]; rewrite L1; reflexivity|].
    split; [cbn [List.length]; rewrite L2; reflexivity|].
    constructor; assumption.
Qed.

(** X5: a returned success carries at least one URL, every URL is
    defined, there is one image entry and one non-empty key under
    [generated-images/] per URL, and no error; so a caller needs to test
    [success] only. *)
Theorem success_outcome_well_formed (w : World) (p : Params) (o : Outcome)
    (tr : trace) :
  generateDoubaoSeedreamImage w p = Some (inr o, tr) ->
  o_success o = true ->
  exists us keys imgs,
    us <> []
    /\ o_urls o = Some (map Some us)
    /\ o_ossKeys o = Some keys
    /\ o_images o = Some imgs
    /\ o_error o = None
    /\ List.length keys = List.length us
    /\ map img_url imgs = map Some us
    /\ map img_ossKey imgs = map Some keys
    /\ Forall (starts_with (lit "generated-images/")) keys.
Proof.
  rewrite generate_run.
  destruct (acquire_cases w p)
    as [issues Hi | Hv Hk | t Hv Hk Hf | data urls ext Hv Hk Ha Hd Hl Hc];
    intros Hrun Hs; inversion Hrun; subst o; try discriminate.
  destruct (settle_processed (pipeline_results w p (image_quality (quality p))
                                (target_resize p) urls))
    as [[Hnil Hset] | [Hne Hset]]; rewrite Hset in *; [discriminate|].
  remember (filter success (pipeline_results w p (image_quality (quality p))
                              (target_resize p) urls)) as successful eqn:Es.
  assert (F : Forall (fun r => exists u k, url r = Some u /\ ossKey r = Some k
                                /\ starts_with (lit "generated-images/") k)
                     successful).
  { apply Forall_forall. intros r Hr. rewrite Es in Hr.
    apply filter_In in Hr. destruct Hr as [Hin Hsr].
    apply (pipeline_result_success w p _ _ urls r Hin Hsr). }
  destruct (successful_fields successful F)
    as (us & keys & E1 & E2 & E3 & L1 & L2 & FK).
  exists us, keys, (map to_image successful).
  unfold success_outcome. cbn [o_urls o_ossKeys o_images o_error].
  split; [intro Hus; subst us; destruct successful; [congruence | discriminate]|].
  rewrite E1, E3, !map_map. cbn [to_image img_url img_ossKey].
  repeat split; try assumption; try lia.
Qed.

Lemma success_outcome_well_formed_witness :
  exists us keys imgs,
    us <> []
    /\ o_urls (success_outcome
                 (filter success
                    (pipeline_results sample_world autumn_request (num_of_Z 80) None
                       [lit "https://p.example/1.png"; lit "https://p.example/2.png"])))
       = Some (map Some us)
    /\ o_ossKeys (success_outcome
                    (filter success
                       (pipeline_results sample_world autumn_request (num_of_Z 80) None
                          [lit "https://p.example/1.png"; lit "https://p.example/2.png"])))
       = Some keys
    /\ o_images (success_outcome
                   (filter success
                      (pipeline_results sample_world autumn_request (num_of_Z 80) None
                         [lit "https://p.example/1.png"; lit "https://p.example/2.png"])))
       = Some imgs
    /\ o_error (success_outcome
                  (filter success
                     (pipeline_results sample_world autumn_request (num_of_Z 80) None
                        [lit "https://p.example/1.png"; lit "https://p.example/2.png"])))
       = None
    /\ List.length keys = List.length us
    /\ map img_url imgs = map Some us
    /\ map img_ossKey imgs = map Some keys
    /\ Forall (starts_with (lit "generated-images/")) keys.
Proof.
  apply (success_outcome_well_formed sample_world autumn_request _
           ([EvFetchApi (primary_body autumn_request)]
            ++ pipeline_events sample_world
                 [lit "https://p.example/1.png"; lit "https://p.example/2.png"]));
    reflexivity.
Defined.

(** ** Quality, call volume and over-delivery *)

Lemma image_quality_within (p : Params) :
  fields_valid p -> within 10 100 (image_quality (quality p)).
Proof.
  intros (_ & _ & _ & _ & _ & Hq). unfold image_quality.
  destruct (quality p) as [[n|[|]]|].
  - destruct (Hq n eq_refl) as (v & -> & Hlo & Hhi). cbn [truthy_num].
    assert (N0 : Qeq_bool v 0 = false).
    { destruct (Qeq_bool v 0) eqn:E; [|reflexivity].
      apply Qeq_bool_eq in E. rewrite E in Hlo.
      exfalso. apply (Qlt_not_le 0 (inject_Z 1)); [reflexivity | exact Hlo]. }
    rewrite N0. cbn [negb num_mul num_of_Z].
    change (inject_Z 1) with 1%Q in Hlo. change (inject_Z 10) with 10%Q in Hhi.
    change (inject_Z 10) with 10%Q.
    destruct (round64_between (v * 10) 10 100
                (small_below_2_53 (v * 10) ltac:(lra) ltac:(lra)))
      as (r & Hr & _ & Hr0 & Hr1).
    { change (inject_Z 10) with 10%Q. lra. }
    { change (inject_Z 100) with 100%Q. lra. }
    exists r. split; [exact Hr|]. split; assumption.
  - exists 80%Q. repeat split; discriminate.
  - exists 95%Q. repeat split; discriminate.
  - exists 80%Q. repeat split; discriminate.
Qed.

(** X6: whenever the pipeline is reached, the quality it encodes at is
    the one read off the request (["standard"] and none 80, ["hd"] 95, a
    number the binary64 product of it and 10) and lies between 10 and 100.
    For an integer the product is exact; for the binary64 value nearest to
    1.1 it is 11. *)
Theorem pipeline_quality_bounds (w : World) (p : Params) (urls : list jsstring)
    (q : number) (ro : option ResizeOptions) (tr : trace) :
  acquire w p [] = Some (inr (urls, q, ro), tr) ->
  q = image_quality (quality p)
  /\ within 10 100 q
  /\ (quality p = None -> q = num_of_Z 80)
  /\ (quality p = Some (QTier standard) -> q = num_of_Z 80)
  /\ (quality p = Some (QTier hd) -> q = num_of_Z 95)
  /\ (forall v, quality p = Some (QNum (Fin v)) -> q = round64 (v * inject_Z 10))
  /\ (forall z, quality p = Some (QNum (num_of_Z z)) -> q = num_of_Z (z * 10))
  /\ round64 ((2476979795053773 # 2251799813685248) * inject_Z 10) = num_of_Z 11.
Proof.
  intro Hacq.
  destruct (acquire_cases w p)
    as [issues Hi | Hv Hk | t Hv Hk Hf | data urls' ext Hv Hk Ha Hd Hl Hc];
    inversion Hacq; subst.
  apply schema_parse_ok in Hv.
  split; [reflexivity|]. split; [apply image_quality_within, Hv|].
  assert (Hnum : forall v, quality p = Some (QNum (Fin v)) ->
                           (inject_Z 1 <= v)%Q /\ (v <= inject_Z 10)%Q
                           /\ image_quality (quality p) = round64 (v * inject_Z 10)).
  { intros v Hq. destruct Hv as (_ & _ & _ & _ & _ & Hw).
    destruct (Hw _ Hq) as (v' & Ev & Hlo & Hhi). inversion Ev; subst v'.
    split; [exact Hlo|]. split; [exact Hhi|].
    rewrite Hq. cbn [image_quality truthy_num].
    assert (N0 : Qeq_bool v 0 = false).
    { destruct (Qeq_bool v 0) eqn:E; [|reflexivity].
      apply Qeq_bool_eq in E. rewrite E in Hlo.
      exfalso. apply (Qlt_not_le 0 (inject_Z 1)); [reflexivity | exact Hlo]. }
    rewrite N0. reflexivity. }
  split; [intros ->; reflexivity|].
  split; [intros ->; reflexivity|].
  split; [intros ->; reflexivity|].
  split; [intros v Hq; apply (Hnum v Hq)|].
  split; [|vm_compute; reflexivity].
  intros z Hq. destruct (Hnum (inject_Z z) Hq) as (Hlo & Hhi & ->).
  rewrite <- Zle_Qle in Hlo, Hhi.
  apply round64_integer; [rewrite inject_Z_mult; reflexivity | lia].
Qed.

(** The poem and photo routes ask for ["hd"]: the pipeline encodes at 95. *)
Lemma pipeline_quality_bounds_witness :
  num_of_Z 95 = image_quality (quality (with_size (lit "2K")
    {| prompt := autumn_prompt; negative_prompt := None; image := None;
       size := None; num_images := None; sequential_image_generation := None;
       stream := None; watermark := None; seed := None; projectId := None;
       quality := Some (QTier hd); resizeOptions := None |})).
Proof.
  apply (proj1 (pipeline_quality_bounds sample_world
           (with_size (lit "2K")
              {| prompt := autumn_prompt; negative_prompt := None; image := None;
                 size := None; num_images := None;
                 sequential_image_generation := None;
                 stream := None; watermark := None; seed := None; projectId := None;
                 quality := Some (QTier hd); resizeOptions := None |})
           [lit "https://p.example/1.png"; lit "https://p.example/2.png"]
           (num_of_Z 95) None _ eq_refl)).
Defined.

(** X7: one call makes at most four POSTs to the provider, the primary
    one and at most three supplemental ones, whatever the provider
    answers; it makes none when validation fails or the key is missing. *)
Theorem provider_calls_bounded (w : World) (p : Params) :
  exists outcome tr,
    generateDoubaoSeedreamImage w p = Some (inr outcome, tr)
    /\ (List.length (api_calls tr) <= 4)%nat
    /\ ((exists issues, schema_parse p = inl issues)
        \/ keep_truthy_str (SEED_EDIT_KEY w) = None -> tr = []).
Proof.
  rewrite generate_run.
  destruct (acquire_cases w p)
    as [issues Hi | Hv Hk | t Hv Hk Hf | data urls ext Hv Hk Ha Hd Hl Hc].
  - eexists; eexists. split; [reflexivity|]. split; [simpl; lia | reflexivity].
  - eexists; eexists. split; [reflexivity|]. split; [simpl; lia | reflexivity].
  - eexists; eexists. split; [reflexivity|]. split; [simpl; lia|].
    intros [(issues & Hi) | Hn]; congruence.
  - eexists; eexists. split; [reflexivity|]. split.
    + change (EvFetchApi (primary_body p) :: ext)
        with ([EvFetchApi (primary_body p)] ++ ext).
      rewrite !api_calls_app, api_calls_pipeline_events, app_nil_r, Hc.
      rewrite length_app, repeat_length. cbn [api_calls flat_map app List.length].
      apply schema_parse_ok in Hv.
      destruct (requested_images_within p Hv) as (n & -> & Hlo & Hhi).
      cbn [num_sub num_of_nat num_of_Z].
      assert (Hk1 : (1 <= List.length (default [] data))%nat).
      { destruct (default [] data); [congruence | simpl; lia]. }
      assert (Hq : (n - inject_Z (Z.of_nat (List.length (default [] data)))
                    <= inject_Z 3)%Q).
      { assert (inject_Z 1 <= inject_Z (Z.of_nat (List.length (default [] data))))%Q
          by (rewrite <- Zle_Qle; lia).
        change (inject_Z 4) with 4%Q in Hhi. change (inject_Z 1) with 1%Q in H.
        change (inject_Z 3) with 3%Q. lra. }
      apply Qceiling_le in Hq. lia.
    + intros [(issues & Hi) | Hn]; congruence.
Qed.

Lemma acquire_no_supplement (w : World) (p : Params) (urls : list jsstring) :
  schema_parse p = inr (schema_output p) ->
  keep_truthy_str (SEED_EDIT_KEY w) <> None ->
  api w [] (primary_body p) = ApiOk (inr (Some urls)) ->
  urls <> [] ->
  num_lt (num_of_nat (List.length urls)) (requested_images p) = false ->
  acquire w p []
  = Some (inr (urls, image_quality (quality p), target_resize p),
          [EvFetchApi (primary_body p)]).
Proof.
  intros Hv Hk Ha Hne Hn. unfold acquire. rewrite Hv.
  unfold bind at 1. unfold ret at 1. rewrite resolve_size_pair.
  destruct (keep_truthy_str (SEED_EDIT_KEY w)) as [key|]; [|congruence].
  fold (primary_body p). unfold bind at 1. rewrite fetch_api_run, Ha.
  unfold bind at 1. unfold lift, ret at 1. cbn [default app].
  destruct urls as [|u0 us]; [congruence|].
  cbn [List.length Nat.eqb]. fold (requested_images p).
  cbn [List.length] in Hn. rewrite Hn. reflexivity.
Qed.

(** X8: when the primary response already holds at least as many URLs
    as were asked for, no supplemental call is made and every URL of the
    response goes through the pipeline: the result is not cut down to the
    count asked for. *)
Theorem over_delivery_is_kept (w : World) (p : Params) (urls : list jsstring) :
  schema_parse p = inr (schema_output p) ->
  keep_truthy_str (SEED_EDIT_KEY w) <> None ->
  api w [] (primary_body p) = ApiOk (inr (Some urls)) ->
  urls <> [] ->
  num_lt (num_of_nat (List.length urls)) (requested_images p) = false ->
  generateDoubaoSeedreamImage w p
  = Some (inr (settle (processed
                          (pipeline_results w p (image_quality (quality p))
                             (target_resize p) urls))),
          [EvFetchApi (primary_body p)] ++ pipeline_events w urls)
  /\ List.length (pipeline_results w p (image_quality (quality p))
                    (target_resize p) urls)
     = List.length urls.
Proof.
  intros Hv Hk Ha Hne Hn. rewrite generate_run.
  rewrite (acquire_no_supplement w p urls Hv Hk Ha Hne Hn).
  split; [reflexivity|]. apply length_mapi_from.
Qed.

(** One image asked, two returned, both processed and both returned. *)
Lemma over_delivery_is_kept_witness :
  exists outcome tr,
    generateDoubaoSeedreamImage sample_world autumn_request = Some (inr outcome, tr)
    /\ option_map (@List.length _) (o_urls outcome) = Some 2%nat.
Proof.
  pose proof (over_delivery_is_kept sample_world autumn_request
                [lit "https://p.example/1.png"; lit "https://p.example/2.png"]) as H.
  assert (H1 : schema_parse autumn_request = inr (schema_output autumn_request))
    by (vm_compute; reflexivity).
  assert (H2 : keep_truthy_str (SEED_EDIT_KEY sample_world) <> None) by discriminate.
  assert (H3 : api sample_world [] (primary_body autumn_request)
               = ApiOk (inr (Some [lit "https://p.example/1.png";
                                   lit "https://p.example/2.png"])))
    by (vm_compute; reflexivity).
  assert (H4 : [lit "https://p.example/1.png"; lit "https://p.example/2.png"] <> [])
    by discriminate.
  assert (H5 : num_lt (num_of_nat (List.length [lit "https://p.example/1.png";
                                                 lit "https://p.example/2.png"]))
                 (requested_images autumn_request) = false)
    by (vm_compute; reflexivity).
  destruct (H H1 H2 H3 H4 H5) as [Hrun _].
  eexists; eexists. split; [exact Hrun | vm_compute; reflexivity].
Defined.

(** ** Thumbnails *)

Lemma thumbnail_key_prefix (tw : ThumbWorld) (width height : number)
    (projectId : option jsstring) :
  starts_with (lit "thumbnails/") (thumbnail_key tw width height projectId).
Proof. unfold thumbnail_key. apply starts_with_app. Qed.

Lemma starts_with_head (a b : N) (p q s : jsstring) :
  a <> b -> starts_with (a :: p) s -> starts_with (b :: q) s -> False.
Proof.
  unfold starts_with. intros Hab Ha Hb.
  destruct s as [|c s]; simpl in Ha, Hb; [discriminate|].
  inversion Ha. inversion Hb. congruence.
Qed.



(** X10: the key of a thumbnail is never the key of a processed image:
    the two are stored under different top-level prefixes, whatever the
    project id and the file name. *)
Theorem thumbnail_and_image_keys_differ (tw : ThumbWorld) (width height : number)
    (thumbProject : option jsstring) (iw : ItemWorld)
    (projectId fileName : option jsstring) :
  thumbnail_key tw width height thumbProject <> oss_key iw projectId fileName.
Proof.
  intro E.
  pose proof (thumbnail_key_prefix tw width height thumbProject) as Ht.
  pose proof (oss_key_generated iw projectId fileName) as Hg.
  rewrite E in Ht.
  apply (starts_with_head 116 103 _ _ _ ltac:(discriminate) Ht Hg).
Qed.

(** ** The object store manager *)



Lemma downloadAndSaveImage_originalUrl (sw : SaveWorld) (imageUrl : jsstring)
    (projectId assetId : jsstring) (pageNumber : number) :
  dr_originalUrl (downloadAndSaveImage sw imageUrl projectId assetId pageNumber)
  = imageUrl.
Proof.
  unfold downloadAndSaveImage, downloadAndSaveImage_try, ebind.
  destruct (sw_fetch sw imageUrl) as [t|st txt|header [t|body]]; try reflexivity.
  destruct body as [|b body]; [reflexivity|]. cbn [List.length Nat.eqb].
  destruct (sw_put sw _ (b :: body) _) as [t|[]]; reflexivity.
Qed.



Lemma chunk_at_exact_length {A} (c : nat) (l : list A) (j : nat) :
  List.length (chunk_at c l j) = Nat.min c (List.length l - j * c).
Proof.
  unfold chunk_at. rewrite length_firstn, length_skipn. reflexivity.
Qed.

Lemma save_loop_run (sws : Z -> nat -> SaveWorld) (urls : list jsstring)
    (projectId assetId : jsstring) (c : Z)
    (onProgress : option (ProgressCall -> thrown + unit)) :
  1 <= c ->
  (forall callback call, onProgress = Some callback -> callback call = inr tt) ->
  forall (fuel j : nat) (results : list ImageDownloadResult)
         (calls : list ProgressCall),
    (chunk_count (Z.to_nat c) (List.length urls) - j < fuel)%nat ->
    List.length results = Nat.min (j * Z.to_nat c) (List.length urls) ->
    save_loop fuel sws urls projectId assetId c onProgress
      (Z.of_nat (j * Z.to_nat c)) results calls
    = Some
        (inr (results
              ++ List.concat
                   (map (saved_chunk sws projectId assetId (Z.to_nat c) urls)
                        (seq j (chunk_count (Z.to_nat c) (List.length urls) - j)))),
         match onProgress with
         | None => calls
         | Some _ =>
             calls
             ++ map (progress_at sws projectId assetId (Z.to_nat c) urls)
                    (seq j (chunk_count (Z.to_nat c) (List.length urls) - j))
         end).
Proof.
  intros Hc Hcb. remember (Z.to_nat c) as cn eqn:Hcn.
  assert (Hcn1 : (1 <= cn)%nat) by lia.
  remember (chunk_count cn (List.length urls)) as m eqn:Hm.
  induction fuel as [|fuel IH]; intros j results calls Hfuel Hlen; [lia|].
  cbn [save_loop].
  destruct (Z.of_nat (j * cn) <? Z.of_nat (List.length urls)) eqn:E.
  - apply Z.ltb_lt in E.
    assert (Hj : (j * cn < List.length urls)%nat) by lia.
    assert (Hjm : (j < m)%nat) by (subst m; apply chunk_count_spec; assumption).
    rewrite (slice_chunk urls (j * cn) c Hc Hj), <- Hcn.
    fold (chunk_at cn urls j). cbv zeta.
    fold (saved_chunk sws projectId assetId cn urls j).
    replace (Z.of_nat (j * cn) + c) with (Z.of_nat (S j * cn)) by lia.
    replace (m - j)%nat with (S (m - S j)) by lia.
    cbn [seq map List.concat].
    assert (Hlen' : List.length (results ++ saved_chunk sws projectId assetId cn urls j)
                    = Nat.min (S j * cn) (List.length urls)).
    { rewrite length_app, Hlen. unfold saved_chunk, mapi.
      rewrite length_mapi_from, chunk_at_exact_length.
      cbn [Nat.mul]. lia. }
    destruct onProgress as [callback|].
    + rewrite (Hcb callback _ eq_refl). rewrite IH by (assumption || lia).
      rewrite <- !app_assoc. cbn [app]. unfold progress_at at 2.
      rewrite Hlen'. reflexivity.
    + rewrite IH by (assumption || lia). rewrite <- !app_assoc. reflexivity.
  - apply Z.ltb_ge in E.
    assert (Hjm : ~ (j < m)%nat).
    { subst m. rewrite chunk_count_spec by assumption. lia. }
    replace (m - j)%nat with 0%nat by lia.
    cbn [seq map List.concat]. rewrite !app_nil_r.
    destruct onProgress; reflexivity.
Qed.

Lemma saved_chunks (sws : Z -> nat -> SaveWorld) (projectId assetId : jsstring)
    (c : nat) (urls : list jsstring) (m : nat) :
  (1 <= c)%nat -> (List.length urls <= m * c)%nat ->
  List.concat (map (saved_chunk sws projectId assetId c urls) (seq 0 m))
  = mapi (fun url k => saved_at sws projectId assetId c k url) urls.
Proof.
  intros Hc Hm. unfold saved_chunk.
  rewrite (mapi_chunks c m Hc
             (fun j url index =>
                downloadAndSaveImage (sws (Z.of_nat (j * c)) index) url projectId
                  assetId (num_of_Z (Z.of_nat (j * c) + Z.of_nat index + 1)))
             urls Hm).
  unfold mapi. apply mapi_from_ext. intros url k _. unfold saved_at.
  do 2 f_equal.
  pose proof (Nat.div_mod_eq k c). lia.
Qed.

Lemma save_run (sws : Z -> nat -> SaveWorld) (urls : list jsstring)
    (projectId assetId : jsstring) (concurrency : option Z)
    (onProgress : option (ProgressCall -> thrown + unit)) (fuel : nat) :
  1 <= default 3 concurrency ->
  (forall callback call, onProgress = Some callback -> callback call = inr tt) ->
  (List.length urls < fuel)%nat ->
  downloadAndSaveImages fuel sws urls projectId assetId concurrency onProgress
  = Some
      (inr (mapi (fun url k =>
                    saved_at sws projectId assetId
                      (Z.to_nat (default 3 concurrency)) k url) urls),
       match onProgress with
       | None => []
       | Some _ =>
           map (progress_at sws projectId assetId
                  (Z.to_nat (default 3 concurrency)) urls)
               (seq 0 (chunk_count (Z.to_nat (default 3 concurrency))
                         (List.length urls)))
       end).
Proof.
  intros Hc Hcb Hfuel. unfold downloadAndSaveImages.
  assert (Hcn : (1 <= Z.to_nat (default 3%Z concurrency))%nat) by lia.
  pose proof (chunk_count_le (Z.to_nat (default 3 concurrency))
                (List.length urls) Hcn) as Hle.
  pose proof (chunk_count_covers (Z.to_nat (default 3 concurrency))
                (List.length urls) Hcn) as Hcov.
  pose proof (save_loop_run sws urls projectId assetId (default 3 concurrency)
                onProgress Hc Hcb fuel 0 [] []) as H.
  cbn [Nat.mul Z.of_nat] in H. rewrite Nat.sub_0_r in H.
  rewrite H by (cbn [List.length Nat.min]; lia).
  cbn [app]. rewrite (saved_chunks _ _ _ _ _ _ Hcn Hcov).
  destruct onProgress; reflexivity.
Qed.

Lemma saved_at_originalUrl (sws : Z -> nat -> SaveWorld) (projectId assetId : jsstring)
    (c k : nat) (url : jsstring) :
  dr_originalUrl (saved_at sws projectId assetId c k url) = url.
Proof.
  unfold saved_at. apply downloadAndSaveImage_originalUrl.
Qed.

(** X12: with a concurrency of at least 1 and a progress callback that is
    absent or does not throw, [downloadAndSaveImages] resolves with one
    record per URL, in the order of the URLs: the record at position [k] is
    what [downloadAndSaveImage] returns for URL [k] with page number [k + 1],
    in the world that item [k mod concurrency] of the chunk starting at
    [k / concurrency * concurrency] meets, and it carries that URL, whether
    the download succeeded or not. *)
Theorem downloadAndSaveImages_in_order (sws : Z -> nat -> SaveWorld)
    (urls : list jsstring) (projectId assetId : jsstring) (concurrency : option Z)
    (onProgress : option (ProgressCall -> thrown + unit)) (fuel : nat) :
  1 <= default 3 concurrency ->
  (forall callback call, onProgress = Some callback -> callback call = inr tt) ->
  (List.length urls < fuel)%nat ->
  let c := Z.to_nat (default 3 concurrency) in
  exists results calls,
    downloadAndSaveImages fuel sws urls projectId assetId concurrency onProgress
    = Some (inr results, calls)
    /\ List.length results = List.length urls
    /\ map dr_originalUrl results = urls
    /\ (forall k url,
           nth_error urls k = Some url ->
           nth_error results k
           = Some (downloadAndSaveImage
                     (sws (Z.of_nat (k / c * c)) (k mod c)%nat) url
                     projectId assetId (num_of_Z (Z.of_nat k + 1))))
    /\ (onProgress = None -> calls = []).
Proof.
  intros Hc Hcb Hfuel. cbv zeta.
  rewrite (save_run sws urls projectId assetId concurrency onProgress fuel
             Hc Hcb Hfuel).
  eexists. eexists. split; [reflexivity|].
  split; [apply length_mapi_from|].
  split; [|split].
  - unfold mapi. generalize 0%nat. clear Hfuel.
    induction urls as [|u urls IH]; intro s; [reflexivity|].
    cbn [mapi_from map]. rewrite saved_at_originalUrl, IH. reflexivity.
  - intros k url Hk. unfold mapi.
    rewrite (nth_error_mapi_from _ 0 urls k url Hk). cbn [Nat.add].
    reflexivity.
  - intros ->. reflexivity.
Qed.

(** Five URLs saved two at a time, without a callback. *)
Lemma downloadAndSaveImages_in_order_witness :
  exists results calls,
    downloadAndSaveImages 6 png_host five_urls (lit "p1") (lit "a1") (Some 2) None
    = Some (inr results, calls)
    /\ List.length results = List.length five_urls
    /\ map dr_originalUrl results = five_urls
    /\ (forall k url,
           nth_error five_urls k = Some url ->
           nth_error results k
           = Some (downloadAndSaveImage
                     (png_host (Z.of_nat (k / Z.to_nat (default 3%Z (Some 2%Z))
                                          * Z.to_nat (default 3%Z (Some 2%Z))))
                        (k mod Z.to_nat (default 3%Z (Some 2%Z)))%nat) url
                     (lit "p1") (lit "a1") (num_of_Z (Z.of_nat k + 1))))
    /\ (@None (ProgressCall -> thrown + unit) = None -> calls = []).
Proof.
  apply (downloadAndSaveImages_in_order png_host five_urls (lit "p1") (lit "a1")
           (Some 2) None 6).
  - vm_compute. discriminate.
  - intros callback call H. discriminate H.
  - vm_compute. lia.
Defined.

Lemma last_some {A} (l : list A) :
  List.last (map Some l) None = nth_error l (List.length l - 1).
Proof.
  induction l as [|a [|b t] IH]; [reflexivity|reflexivity|].
  change (List.last (map Some (a :: b :: t)) None)
    with (List.last (map Some (b :: t)) None).
  rewrite IH. cbn [List.length Nat.sub nth_error].
  rewrite Nat.sub_0_r. reflexivity.
Qed.

Lemma saved_chunk_length (sws : Z -> nat -> SaveWorld) (projectId assetId : jsstring)
    (c : nat) (urls : list jsstring) (j : nat) :
  List.length (saved_chunk sws projectId assetId c urls j)
  = Nat.min c (List.length urls - j * c).
Proof.
  unfold saved_chunk, mapi. rewrite length_mapi_from. apply chunk_at_exact_length.
Qed.

Lemma saved_prefix_length (sws : Z -> nat -> SaveWorld) (projectId assetId : jsstring)
    (c : nat) (urls : list jsstring) (j : nat) :
  List.length (List.concat (map (saved_chunk sws projectId assetId c urls) (seq 0 j)))
  = Nat.min (j * c) (List.length urls).
Proof.
  induction j as [|j IH]; [reflexivity|].
  rewrite seq_S, map_app, concat_app, length_app, IH.
  cbn [Nat.add map List.concat]. rewrite app_nil_r, saved_chunk_length.
  cbn [Nat.mul]. lia.
Qed.

(** X13: a progress callback that does not throw is called once per chunk,
    after the chunk has been saved: call [j] reports
    [min ((j + 1) * concurrency) total] records completed out of [total],
    which is at least 1, and its third argument is the record at position
    [completed - 1] of the final result; when there is at least one URL the
    last call reports [completed = total]. *)
Theorem downloadAndSaveImages_progress (sws : Z -> nat -> SaveWorld)
    (urls : list jsstring) (projectId assetId : jsstring) (concurrency : option Z)
    (callback : ProgressCall -> thrown + unit) (fuel : nat) :
  1 <= default 3 concurrency ->
  (forall call, callback call = inr tt) ->
  (List.length urls < fuel)%nat ->
  let c := Z.to_nat (default 3 concurrency) in
  let total := List.length urls in
  exists results calls,
    downloadAndSaveImages fuel sws urls projectId assetId concurrency
      (Some callback)
    = Some (inr results, calls)
    /\ List.length calls = chunk_count c total
    /\ (forall j call,
           nth_error calls j = Some call ->
           pc_total call = total
           /\ pc_completed call = Nat.min (S j * c) total
           /\ (1 <= pc_completed call)%nat
           /\ pc_current call = nth_error results (pc_completed call - 1)
           /\ pc_current call <> None)
    /\ (urls <> [] ->
        exists call, nth_error calls (chunk_count c total - 1) = Some call
                     /\ pc_completed call = total).
Proof.
  intros Hc Hcb Hfuel. cbv zeta.
  assert (Hcb' : forall cb call, Some callback = Some cb -> cb call = inr tt).
  { intros cb call H. inversion H; subst. apply Hcb. }
  pose proof (save_run sws urls projectId assetId concurrency (Some callback) fuel
                Hc Hcb' Hfuel) as Hrun.
  remember (Z.to_nat (default 3 concurrency)) as c eqn:Ec.
  assert (Hc1 : (1 <= c)%nat) by lia.
  pose proof (chunk_count_covers c (List.length urls) Hc1) as Hcov.
  rewrite Hrun.
  eexists. eexists. split; [reflexivity|].
  split; [rewrite length_map, length_seq; reflexivity|].
  assert (Hcall : forall j call,
             nth_error (map (progress_at sws projectId assetId c urls)
                          (seq 0 (chunk_count c (List.length urls)))) j = Some call ->
             (j < chunk_count c (List.length urls))%nat
             /\ call = progress_at sws projectId assetId c urls j).
  { intros j call H.
    assert (Hj : (j < chunk_count c (List.length urls))%nat).
    { pose proof (nth_error_Some
                    (map (progress_at sws projectId assetId c urls)
                       (seq 0 (chunk_count c (List.length urls)))) j) as Hs.
      rewrite length_map, length_seq in Hs. apply Hs. rewrite H. discriminate. }
    split; [exact Hj|].
    rewrite nth_error_map, nth_error_seq in H.
    destruct (Nat.ltb_spec j (chunk_count c (List.length urls))) as [_|Hge];
      [|lia].
    cbn in H. inversion H. reflexivity. }
  split.
  - intros j call H. destruct (Hcall j call H) as [Hj ->].
    apply chunk_count_spec in Hj; [|assumption].
    assert (Hne : (1 <= List.length (saved_chunk sws projectId assetId c urls j))%nat).
    { rewrite saved_chunk_length. lia. }
    cbn [progress_at pc_total pc_completed pc_current].
    split; [reflexivity|]. split; [reflexivity|].
    split; [cbn [Nat.mul]; lia|].
    rewrite last_some.
    assert (Hcur : nth_error
                     (mapi (fun url k => saved_at sws projectId assetId c k url) urls)
                     (Nat.min (S j * c) (List.length urls) - 1)
                   = nth_error (saved_chunk sws projectId assetId c urls j)
                       (List.length (saved_chunk sws projectId assetId c urls j) - 1)).
    { rewrite <- (saved_chunks sws projectId assetId c urls
                    (chunk_count c (List.length urls)) Hc1 Hcov).
      assert (Hjm : (j < chunk_count c (List.length urls))%nat)
        by (apply chunk_count_spec; assumption).
      replace (chunk_count c (List.length urls))
        with (j + S (chunk_count c (List.length urls) - S j))%nat by lia.
      rewrite seq_app, map_app, concat_app. cbn [Nat.add seq map List.concat].
      rewrite nth_error_app2
        by (rewrite saved_prefix_length, saved_chunk_length in *;
            cbn [Nat.mul]; lia).
      rewrite saved_prefix_length.
      rewrite nth_error_app1
        by (rewrite saved_chunk_length in *; cbn [Nat.mul]; lia).
      f_equal. rewrite saved_chunk_length. cbn [Nat.mul]. lia. }
    split; [symmetry; exact Hcur|].
    apply nth_error_Some. lia.
  - intros Hne.
    assert (Hn : (1 <= List.length urls)%nat).
    { destruct urls; [congruence|cbn [List.length]; lia]. }
    assert (Hm : (1 <= chunk_count c (List.length urls))%nat).
    { destruct (chunk_count c (List.length urls)) eqn:E; [|lia].
      cbn [Nat.mul] in Hcov. lia. }
    exists (progress_at sws projectId assetId c urls
              (chunk_count c (List.length urls) - 1)).
    split.
    + rewrite nth_error_map, nth_error_seq.
      destruct (Nat.ltb_spec (chunk_count c (List.length urls) - 1)
                  (chunk_count c (List.length urls))) as [_|Hge]; [|lia].
      reflexivity.
    + cbn [progress_at pc_completed].
      replace (S (chunk_count c (List.length urls) - 1))
        with (chunk_count c (List.length urls)) by lia.
      lia.
Qed.

(** Five URLs saved two at a time: three calls of the callback. *)
Lemma downloadAndSaveImages_progress_witness :
  exists results calls,
    downloadAndSaveImages 6 png_host five_urls (lit "p1") (lit "a1") (Some 2)
      (Some (fun _ => inr tt))
    = Some (inr results, calls)
    /\ List.length calls = chunk_count (Z.to_nat (default 3 (Some 2)))
                             (List.length five_urls)
    /\ (forall j call,
           nth_error calls j = Some call ->
           pc_total call = List.length five_urls
           /\ pc_completed call
              = Nat.min (S j * Z.to_nat (default 3 (Some 2)))
                  (List.length five_urls)
           /\ (1 <= pc_completed call)%nat
           /\ pc_current call = nth_error results (pc_completed call - 1)
           /\ pc_current call <> None)
    /\ (five_urls <> [] ->
        exists call,
          nth_error calls (chunk_count (Z.to_nat (default 3 (Some 2)))
                             (List.length five_urls) - 1) = Some call
          /\ pc_completed call = List.length five_urls).
Proof.
  apply (downloadAndSaveImages_progress png_host five_urls (lit "p1") (lit "a1")
           (Some 2) (fun _ => inr tt) 6).
  - vm_compute. discriminate.
  - intros call. reflexivity.
  - vm_compute. lia.
Defined.

(** X14: a progress callback that throws on its first call makes
    [downloadAndSaveImages] reject with the thrown value right after the
    first chunk, although the records of that chunk have been produced: the
    callback is not called again and no result is returned. *)
Theorem downloadAndSaveImages_callback_throws (sws : Z -> nat -> SaveWorld)
    (urls : list jsstring) (projectId assetId : jsstring) (concurrency : option Z)
    (callback : ProgressCall -> thrown + unit) (t : thrown) (fuel : nat) :
  1 <= default 3 concurrency ->
  urls <> [] ->
  callback (progress_at sws projectId assetId
              (Z.to_nat (default 3 concurrency)) urls 0) = inl t ->
  downloadAndSaveImages (S fuel) sws urls projectId assetId concurrency
    (Some callback)
  = Some (inl t,
          [progress_at sws projectId assetId
             (Z.to_nat (default 3 concurrency)) urls 0])
  /\ pc_completed (progress_at sws projectId assetId
                     (Z.to_nat (default 3 concurrency)) urls 0)
     = Nat.min (Z.to_nat (default 3 concurrency)) (List.length urls)
  /\ (1 <= pc_completed (progress_at sws projectId assetId
                           (Z.to_nat (default 3%Z concurrency)) urls 0))%nat.
Proof.
  intros Hc Hne Hcb.
  assert (Hn : (1 <= List.length urls)%nat).
  { destruct urls; [congruence|cbn [List.length]; lia]. }
  split; [|split].
  - unfold downloadAndSaveImages. cbn [save_loop].
    destruct (0 <? Z.of_nat (List.length urls)) eqn:E;
      [|apply Z.ltb_ge in E; lia].
    pose proof (slice_chunk urls 0 (default 3 concurrency) Hc ltac:(lia)) as Hs.
    cbn [Z.of_nat skipn] in Hs. rewrite Hs. cbv zeta. cbn [app].
    assert (Hcall :
              {| pc_completed :=
                   List.length
                     (mapi (fun url index =>
                              downloadAndSaveImage (sws 0 index) url
                                projectId assetId
                                (num_of_Z (0 + Z.of_nat index + 1)))
                        (firstn (Z.to_nat (default 3 concurrency)) urls));
                 pc_total := List.length urls;
                 pc_current :=
                   List.last
                     (map Some
                        (mapi (fun url index =>
                                 downloadAndSaveImage (sws 0 index) url
                                   projectId assetId
                                   (num_of_Z (0 + Z.of_nat index + 1)))
                           (firstn (Z.to_nat (default 3 concurrency)) urls)))
                     None |}
              = progress_at sws projectId assetId
                  (Z.to_nat (default 3 concurrency)) urls 0).
    { unfold progress_at, saved_chunk, chunk_at. cbn [Nat.mul skipn Z.of_nat].
      f_equal. unfold mapi. rewrite length_mapi_from, length_firstn.
      rewrite Nat.add_0_r. reflexivity. }
    rewrite Hcall, Hcb. reflexivity.
  - cbn [progress_at pc_completed Nat.mul]. rewrite Nat.add_0_r. reflexivity.
  - cbn [progress_at pc_completed Nat.mul]. lia.
Qed.

(** A callback that always throws. *)
Lemma downloadAndSaveImages_callback_throws_witness :
  downloadAndSaveImages 1 png_host five_urls (lit "p1") (lit "a1") (Some 2)
    (Some (fun _ => inl (ThrownValue)))
  = Some (inl ThrownValue,
          [progress_at png_host (lit "p1") (lit "a1")
             (Z.to_nat (default 3 (Some 2))) five_urls 0]).
Proof.
  apply (proj1 (downloadAndSaveImages_callback_throws png_host five_urls
                  (lit "p1") (lit "a1") (Some 2) (fun _ => inl ThrownValue)
                  ThrownValue 0 ltac:(vm_compute; discriminate)
                  ltac:(discriminate) eq_refl)).
Defined.





(** ** The poem image route *)

Lemma buildPoemImagePrompt_length (keywords : jsstring)
    (title content : option jsstring) :
  List.length (buildPoemImagePrompt keywords title content)
  = (List.length keywords + 66 + labelled_length title + labelled_length content)%nat.
Proof.
  unfold buildPoemImagePrompt, labelled_length.
  destruct (keep_truthy_str title) as [t|];
    destruct (keep_truthy_str content) as [c|];
    rewrite ?length_app; cbn [List.length comma chongyangElements basePrompt
                                style_suffix title_label content_label]; lia.
Qed.

Lemma poem_fields_valid (keywords : jsstring) (title content : option jsstring)
    (phone : jsstring) (recordId : Z) :
  fields_valid (poem_image_params keywords title content phone recordId)
  <-> (List.length (buildPoemImagePrompt keywords title content) <= 800)%nat.
Proof.
  unfold fields_valid. cbn [poem_image_params prompt negative_prompt size num_images
                              seed quality].
  pose proof (buildPoemImagePrompt_length keywords title content) as L.
  split.
  - intros ((_ & H) & _). exact H.
  - intro H. split; [lia|].
    split; [discriminate|]. split.
    + intros s E. inversion E. reflexivity.
    + split; [discriminate|]. split; discriminate.
Qed.

(** X16: the prompt the poem image route builds is the keywords followed by
    the 66 code units of the fixed text ("，" and the festival elements, "，"
    and the base prompt, then the style), preceded by "标题：", the title and
    "，" when the title is non-empty, and before that by "内容：", the content
    and "，" when the content is non-empty. The route's call of
    [generateDoubaoSeedreamImage] passes validation exactly when this prompt
    has at most 800 code units; a longer one resolves to a validation failure
    with no request made. In every case at most one request goes to the
    provider, the primary one, for the 2K tier with this prompt. *)
Theorem poem_image_request (w : World) (keywords : jsstring)
    (title content : option jsstring) (phone : jsstring) (recordId : Z) :
  let p := poem_image_params keywords title content phone recordId in
  let fixed : jsstring :=
    [65292; 37329; 40644; 33738; 33457; 65292; 31179; 22825; 23665; 23792; 65292;
       21476; 20856; 24314; 31569; 65292; 33585; 33848; 65292; 28201; 26262; 33394;
       35843; 65292; 20013; 22269; 39118; 21476; 20856; 30011; 65292; 37325; 38451;
       33410; 20027; 39064; 65292; 35799; 24773; 30011; 24847; 65292; 32454; 33147;
       31508; 35302; 65292; 39640; 21697; 36136; 65292; 27700; 22696; 30011; 39118;
       26684; 65292; 24847; 22659; 28145; 36828; 65292; 33402; 26415; 24863; 24378]%N in
  let labelled (label : jsstring) (s : option jsstring) : jsstring :=
    match s with
    | Some (c :: v) => label ++ (c :: v) ++ [65292]%N
    | _ => []
    end in
  prompt p
  = labelled [20869; 23481; 65306]%N content
    ++ labelled [26631; 39064; 65306]%N title ++ keywords ++ fixed
  /\ List.length (prompt p)
     = (List.length keywords + 66 + labelled_length title
        + labelled_length content)%nat
  /\ (fields_valid p <-> (List.length (prompt p) <= 800)%nat)
  /\ rq_size (primary_body p) = Size2K
  /\ rq_prompt (primary_body p) = prompt p
  /\ exists outcome tr,
       generateDoubaoSeedreamImage w p = Some (inr outcome, tr)
       /\ (api_calls tr = [] \/ api_calls tr = [primary_body p])
       /\ ((800 < List.length (prompt p))%nat ->
           tr = [] /\ exists issues, outcome = failed (MsgZod issues)).
Proof.
  cbv zeta.
  split.
  { cbn [poem_image_params prompt]. unfold buildPoemImagePrompt.
    destruct content as [[|c cs]|]; destruct title as [[|t ts]|];
      cbn [keep_truthy_str truthy_str]; cbv zeta;
      rewrite <- ?app_assoc; reflexivity. }
  split; [apply buildPoemImagePrompt_length|].
  split; [apply poem_fields_valid|].
  split; [reflexivity|]. split; [reflexivity|].
  rewrite generate_run.
  destruct (acquire_cases w (poem_image_params keywords title content phone recordId))
    as [issues Hi | Hv Hk | t Hv Hk Hf | data urls ext Hv Hk Ha Hd Hl Hc].
  - eexists; eexists. split; [reflexivity|]. split; [left; reflexivity|].
    intros _. split; [reflexivity|]. exists issues. reflexivity.
  - eexists; eexists. split; [reflexivity|]. split; [left; reflexivity|].
    intros Hlong. apply schema_parse_ok, poem_fields_valid in Hv.
    cbn [poem_image_params prompt] in Hlong. lia.
  - eexists; eexists. split; [reflexivity|]. split; [right; reflexivity|].
    intros Hlong. apply schema_parse_ok, poem_fields_valid in Hv.
    cbn [poem_image_params prompt] in Hlong. lia.
  - eexists; eexists. split; [reflexivity|]. split.
    + right.
      change (EvFetchApi (primary_body (poem_image_params keywords title content
                                          phone recordId)) :: ext)
        with ([EvFetchApi (primary_body (poem_image_params keywords title content
                                           phone recordId))] ++ ext).
      rewrite !api_calls_app, api_calls_pipeline_events, app_nil_r, Hc.
      change (requested_images (poem_image_params keywords title content phone
                                  recordId)) with (num_of_Z 1).
      cbn [num_sub num_of_nat num_of_Z].
      assert (Hk1 : (1 <= List.length (default [] data))%nat).
      { destruct (default [] data); [congruence | simpl; lia]. }
      assert (Hq : (inject_Z 1 - inject_Z (Z.of_nat (List.length (default [] data)))
                    <= inject_Z 0)%Q).
      { assert (inject_Z 1 <= inject_Z (Z.of_nat (List.length (default [] data))))%Q
          by (rewrite <- Zle_Qle; lia).
        change (inject_Z 1) with 1%Q in *. change (inject_Z 0) with 0%Q. lra. }
      apply Qceiling_le in Hq.
      replace (Z.to_nat (Qceiling (inject_Z 1
                                   - inject_Z (Z.of_nat (List.length (default [] data))))))
        with 0%nat by lia.
      reflexivity.
    + intros Hlong. apply schema_parse_ok, poem_fields_valid in Hv.
      cbn [poem_image_params prompt] in Hlong. lia.
Qed.

(** ** The poem route: choice of a template *)

Lemma better_fold (elements : list jsstring) :
  forall (l : list PoemTemplate) (b0 : option PoemTemplate) (m0 : nat),
    (fold_left (better elements) l (b0, m0) = (b0, m0)
     /\ forall t, In t l -> (matches elements t <= m0)%nat)
    \/ (exists l1 b l2,
          l = l1 ++ b :: l2
          /\ fold_left (better elements) l (b0, m0) = (Some b, matches elements b)
          /\ (m0 < matches elements b)%nat
          /\ (forall t, In t l1 -> (matches elements t < matches elements b)%nat)
          /\ (forall t, In t l2 -> (matches elements t <= matches elements b)%nat)).
Proof.
  induction l as [|t l IH]; intros b0 m0.
  - left. split; [reflexivity|]. intros t [].
  - cbn [fold_left].
    destruct (Nat.ltb_spec m0 (matches elements t)) as [Hlt|Hge].
    + assert (Hs : better elements (b0, m0) t = (Some t, matches elements t)).
      { unfold better. cbn [snd]. apply Nat.ltb_lt in Hlt. rewrite Hlt. reflexivity. }
      rewrite Hs. right.
      destruct (IH (Some t) (matches elements t))
        as [[Hf Hall] | (l1 & b & l2 & Hl & Hf & Hm & H1 & H2)].
      * exists [], t, l. split; [reflexivity|]. split; [exact Hf|].
        split; [exact Hlt|]. split; [intros t' []|exact Hall].
      * exists (t :: l1), b, l2. split; [rewrite Hl; reflexivity|].
        split; [exact Hf|]. split; [lia|]. split; [|exact H2].
        intros t' [<-|Hin]; [exact Hm | apply H1; exact Hin].
    + assert (Hs : better elements (b0, m0) t = (b0, m0)).
      { unfold better. cbn [snd]. apply Nat.ltb_ge in Hge. rewrite Hge. reflexivity. }
      rewrite Hs.
      destruct (IH b0 m0)
        as [[Hf Hall] | (l1 & b & l2 & Hl & Hf & Hm & H1 & H2)].
      * left. split; [exact Hf|]. intros t' [<-|Hin]; [exact Hge | apply Hall; exact Hin].
      * right. exists (t :: l1), b, l2. split; [rewrite Hl; reflexivity|].
        split; [exact Hf|]. split; [exact Hm|]. split; [|exact H2].
        intros t' [<-|Hin]; [lia | apply H1; exact Hin].
Qed.

Lemma random_index (random : Q) :
  (0 <= random)%Q -> (random < 1)%Q ->
  0 <= Qfloor (random * inject_Z 4) < 4.
Proof.
  intros H0 H1. split.
  - change 0 with (Qfloor (inject_Z 0)). apply Qfloor_resp_le.
    change (inject_Z 0) with 0%Q. change (inject_Z 4) with 4%Q. lra.
  - assert (H : (random * inject_Z 4 < inject_Z 4)%Q).
    { change (inject_Z 4) with 4%Q. lra. }
    pose proof (Qfloor_le (random * inject_Z 4)) as Hf.
    assert (Hlt : (inject_Z (Qfloor (random * inject_Z 4)) < inject_Z 4)%Q)
      by (eapply Qle_lt_trans; eassumption).
    rewrite <- Zlt_Qlt in Hlt. exact Hlt.
Qed.

Lemma select_cases (random : Q) (elements : list jsstring) :
  (0 <= random)%Q -> (random < 1)%Q ->
  exists i t,
    nth_error POEM_TEMPLATES i = Some t
    /\ selectPoemTemplate random elements = Some (pick_of t)
    /\ (forall t', In t' POEM_TEMPLATES ->
                   (matches elements t' <= matches elements t)%nat)
    /\ ((matches elements t = 0)%nat ->
        Z.of_nat i = Qfloor (random * inject_Z 4))
    /\ ((0 < matches elements t)%nat ->
        forall j t', (j < i)%nat -> nth_error POEM_TEMPLATES j = Some t' ->
                     (matches elements t' < matches elements t)%nat).
Proof.
  intros H0 H1. unfold selectPoemTemplate.
  change (at_index POEM_TEMPLATES 0) with (Some template_0).
  change (inject_Z (Z.of_nat (List.length POEM_TEMPLATES))) with (inject_Z 4).
  destruct (better_fold elements POEM_TEMPLATES (Some template_0) 0)
    as [[Hf Hall] | (l1 & b & l2 & Hl & Hf & Hm & Hb1 & Hb2)]; rewrite Hf.
  - cbn [Nat.eqb].
    pose proof (random_index random H0 H1) as Hr.
    remember (Qfloor (random * inject_Z 4)) as z eqn:Ez.
    assert (Hz : z = 0 \/ z = 1 \/ z = 2 \/ z = 3) by lia.
    assert (Hzero : forall t, In t POEM_TEMPLATES -> matches elements t = 0%nat).
    { intros t Hin. specialize (Hall t Hin). lia. }
    exists (Z.to_nat z).
    destruct Hz as [-> | [-> | [-> | ->]]];
      [exists template_0 | exists template_1 | exists template_2 | exists template_3];
      (split; [reflexivity|]); (split; [reflexivity|]);
      (split; [intros t' Hin; rewrite (Hzero t' Hin); lia|]);
      (split; [intros _; reflexivity|]);
      intros Hpos; exfalso;
      [ pose proof (Hzero template_0) as Hc
      | pose proof (Hzero template_1) as Hc
      | pose proof (Hzero template_2) as Hc
      | pose proof (Hzero template_3) as Hc ];
      cbn [POEM_TEMPLATES In] in Hc; rewrite Hc in Hpos by tauto; lia.
  - assert (Hnz : (matches elements b =? 0)%nat = false)
      by (apply Nat.eqb_neq; lia).
    rewrite Hnz. cbn [option_map].
    exists (List.length l1), b.
    split; [rewrite Hl, nth_error_app2, Nat.sub_diag by lia; reflexivity|].
    split; [reflexivity|].
    split.
    { intros t' Hin. rewrite Hl in Hin. apply in_app_or in Hin.
      destruct Hin as [Hin|[<-|Hin]];
        [specialize (Hb1 t' Hin); lia | lia | apply Hb2; exact Hin]. }
    split; [intros Hc; lia|].
    intros _ j t' Hj Hn. rewrite Hl, nth_error_app1 in Hn by exact Hj.
    apply nth_error_In in Hn. apply Hb1. exact Hn.
Qed.



(** X18: a poem taken from the templates always gives the poem image route
    a prompt that passes the validation of [generateDoubaoSeedreamImage]:
    with the pick's keywords, title and poem the built prompt has at most
    139 code units. *)
Theorem template_poem_prompt_is_valid (random : Q) (elements : list jsstring)
    (phone : jsstring) (recordId : Z) :
  (0 <= random)%Q -> (random < 1)%Q ->
  exists pick,
    selectPoemTemplate random elements = Some pick
    /\ (List.length (buildPoemImagePrompt (pk_keywords pick) (Some (pk_title pick))
                       (Some (pk_content pick))) <= 139)%nat
    /\ fields_valid (poem_image_params (pk_keywords pick) (Some (pk_title pick))
                       (Some (pk_content pick)) phone recordId).
Proof.
  intros H0 H1.
  destruct (select_cases random elements H0 H1) as (i & t & Hn & Hs & _).
  exists (pick_of t). split; [exact Hs|].
  assert (L : (List.length (buildPoemImagePrompt (pk_keywords (pick_of t))
                              (Some (pk_title (pick_of t)))
                              (Some (pk_content (pick_of t)))) <= 139)%nat).
  { apply nth_error_In in Hn. cbn [POEM_TEMPLATES In] in Hn.
    destruct Hn as [<- | [<- | [<- | [<- | []]]]]; vm_compute; lia. }
  split; [exact L|]. apply poem_fields_valid. lia.
Qed.

(** The same request, for a record of phone 13800000000. *)
Lemma template_poem_prompt_is_valid_witness :
  exists pick,
    selectPoemTemplate (1 # 2) [element_3; element_0] = Some pick
    /\ (List.length (buildPoemImagePrompt (pk_keywords pick) (Some (pk_title pick))
                       (Some (pk_content pick))) <= 139)%nat
    /\ fields_valid (poem_image_params (pk_keywords pick) (Some (pk_title pick))
                       (Some (pk_content pick)) (lit "13800000000") 7).
Proof.
  apply (template_poem_prompt_is_valid (1 # 2) [element_3; element_0]
           (lit "13800000000") 7).
  - vm_compute. discriminate.
  - vm_compute. reflexivity.
Defined.

(** ** Where the generated images are stored *)

Lemma batch_key (iw : ItemWorld) (w : World) (i : Z) (index : nat)
    (projectId : option jsstring) :
  starts_with (batch_key_prefix projectId)
    (oss_key iw projectId (Some (batch_file_name w i index))).
Proof.
  unfold oss_key, batch_key_prefix, keep_truthy_str.
  assert (T : truthy_str (batch_file_name w i index) = true) by reflexivity.
  rewrite T. cbv zeta. unfold batch_file_name.
  change (lit "/batch-") with (lit "/" ++ lit "batch-").
  rewrite <- !app_assoc.
  replace (lit "generated-images/"
           ++ str_or projectId (lit "default")
           ++ lit "/" ++ lit "batch-"
           ++ dec (i + Z.of_nat index + 1) ++ lit "-"
           ++ dec (date_now w i index) ++ lit ".webp")
    with ((lit "generated-images/" ++ str_or projectId (lit "default")
           ++ lit "/" ++ lit "batch-")
          ++ dec (i + Z.of_nat index + 1) ++ lit "-"
          ++ dec (date_now w i index) ++ lit ".webp")
    by (rewrite <- !app_assoc; reflexivity).
  apply starts_with_app.
Qed.

Lemma pipeline_result_key (w : World) (p : Params) (q : number)
    (ro : option ResizeOptions) (urls : list jsstring) (r : ImageProcessResult) :
  In r (pipeline_results w p q ro urls) -> success r = true ->
  exists k, ossKey r = Some k /\ starts_with (batch_key_prefix (projectId p)) k.
Proof.
  intros Hin Hs. unfold pipeline_results, mapi in Hin.
  apply In_mapi_from in Hin. destruct Hin as (x & k & _ & Hr).
  unfold result_at in Hr.
  destruct (processAndUploadImage_cases (item w (Z.of_nat (k / 3 * 3)) (k mod 3)) x
              (projectId p)
              (Some (batch_file_name w (Z.of_nat (k / 3 * 3)) (k mod 3)))
              (Some q) ro)
    as [(original & processed & signedUrl & _ & Hr') | (m & Hr')];
    rewrite Hr' in Hr; subst r; [|discriminate].
  eexists. split; [reflexivity|]. apply batch_key.
Qed.

Lemma truthy_keys_prefix (prefix : jsstring) (l : list ImageProcessResult) :
  Forall (fun r => exists k, ossKey r = Some k /\ starts_with prefix k) l ->
  Forall (starts_with prefix) (truthy_keys (map ossKey l)).
Proof.
  induction 1 as [|r l (k & Hk & Hp) _ IH]; [constructor|].
  cbn [map truthy_keys]. rewrite Hk.
  destruct (truthy_str k); [constructor; assumption | assumption].
Qed.

Lemma outcome_keys (w : World) (p : Params) (o : Outcome) (tr : trace) :
  generateDoubaoSeedreamImage w p = Some (inr o, tr) ->
  o_success o = true ->
  exists keys,
    o_ossKeys o = Some keys
    /\ Forall (starts_with (batch_key_prefix (projectId p))) keys.
Proof.
  rewrite generate_run.
  destruct (acquire_cases w p)
    as [issues Hi | Hv Hk | t Hv Hk Hf | data urls ext Hv Hk Ha Hd Hl Hc];
    intros Hrun Hs; inversion Hrun; subst o; try discriminate.
  destruct (settle_processed (pipeline_results w p (image_quality (quality p))
                                (target_resize p) urls))
    as [[Hnil Hset] | [Hne Hset]]; rewrite Hset in *; [discriminate|].
  eexists. split; [reflexivity|].
  apply truthy_keys_prefix. apply Forall_forall. intros r Hr.
  apply filter_In in Hr. destruct Hr as [Hin Hsr].
  apply (pipeline_result_key w p _ _ urls r Hin Hsr).
Qed.

(** X19: every key a successful call returns lies in the directory of the
    project and is a batch file: it starts with
    [generated-images/<projectId>/batch-], with [default] in place of a
    missing or empty project id. *)
Theorem generated_keys_under_project (w : World) (p : Params) (o : Outcome)
    (tr : trace) :
  generateDoubaoSeedreamImage w p = Some (inr o, tr) ->
  o_success o = true ->
  exists keys,
    o_ossKeys o = Some keys
    /\ Forall (starts_with (lit "generated-images/"
                            ++ str_or (projectId p) (lit "default")
                            ++ lit "/batch-")) keys.
Proof.
  intros Hrun Hs. exact (outcome_keys w p o tr Hrun Hs).
Qed.

(** The sample request, which names no project. *)
Lemma generated_keys_under_project_witness :
  exists keys,
    o_ossKeys (success_outcome
                 (filter success
                    (pipeline_results sample_world autumn_request (num_of_Z 80) None
                       [lit "https://p.example/1.png"; lit "https://p.example/2.png"])))
    = Some keys
    /\ Forall (starts_with (lit "generated-images/"
                            ++ str_or (projectId autumn_request) (lit "default")
                            ++ lit "/batch-")) keys.
Proof.
  apply (generated_keys_under_project sample_world autumn_request _
           ([EvFetchApi (primary_body autumn_request)]
            ++ pipeline_events sample_world
                 [lit "https://p.example/1.png"; lit "https://p.example/2.png"]));
    reflexivity.
Defined.

Lemma digits_of_digits (phone : jsstring) :
  forallb is_digit (digits_of phone) = true.
Proof.
  unfold digits_of. apply forallb_forall. intros c Hc.
  apply filter_In in Hc. apply Hc.
Qed.

Lemma digits_of_nil (phone : jsstring) :
  digits_of phone = [] -> forallb (fun c => negb (is_digit c)) phone = true.
Proof.
  unfold digits_of. intro H. apply forallb_forall. intros c Hc.
  apply Bool.negb_true_iff.
  apply (proj1 (filter_nil_iff is_digit phone) H c Hc).
Qed.

(** X20: the photo restore routes store under a prefix
    [photo-restore/<segment>/<uuid>] whose segment is [guest] when the
    phone has no digit and otherwise the digits of the phone, nothing else
    of it. Their request to [generateDoubaoSeedreamImage] always passes
    validation, and every key a successful call returns starts with
    [generated-images/] followed by that prefix and [/batch-]; so none of
    them is the key of the uploaded original. *)
Theorem photo_restore_keys (w : World) (originalUrl uuid phone ext : jsstring) :
  let projectPrefix := makeProjectPrefix uuid phone in
  let p := photo_restore_params originalUrl projectPrefix in
  fields_valid p
  /\ (exists segment,
        projectPrefix = lit "photo-restore/" ++ segment ++ lit "/" ++ uuid
        /\ ((segment = lit "guest"
             /\ forallb (fun c => negb (is_digit c)) phone = true)
            \/ (segment = digits_of phone /\ segment <> []
                /\ forallb is_digit segment = true)))
  /\ (forall o tr,
         generateDoubaoSeedreamImage w p = Some (inr o, tr) ->
         o_success o = true ->
         exists keys,
           o_ossKeys o = Some keys
           /\ Forall (fun k =>
                        starts_with (lit "generated-images/" ++ projectPrefix
                                     ++ lit "/batch-") k
                        /\ k <> original_key projectPrefix ext) keys).
Proof.
  cbv zeta. split; [|split].
  - unfold fields_valid. cbn [photo_restore_params prompt negative_prompt size
                                num_images seed quality].
    split; [vm_compute; split; apply le_n || (repeat constructor)|].
    split; [discriminate|]. split.
    + intros s E. inversion E. reflexivity.
    + split; [discriminate|]. split; discriminate.
  - unfold makeProjectPrefix. cbv zeta.
    destruct (digits_of phone) as [|d ds] eqn:E.
    + exists (lit "guest"). split; [reflexivity|]. left.
      split; [reflexivity|]. apply digits_of_nil. exact E.
    + exists (d :: ds). split; [reflexivity|]. right.
      split; [reflexivity|]. split; [discriminate|].
      rewrite <- E. apply digits_of_digits.
  - intros o tr Hrun Hs.
    destruct (outcome_keys w _ o tr Hrun Hs) as (keys & Hk & Hall).
    exists keys. split; [exact Hk|].
    apply Forall_forall. intros k Hin.
    rewrite Forall_forall in Hall. specialize (Hall k Hin).
    unfold batch_key_prefix in Hall.
    cbn [photo_restore_params projectId str_or] in Hall.
    assert (T : truthy_str (makeProjectPrefix uuid phone) = true) by reflexivity.
    rewrite T in Hall. split; [exact Hall|].
    intro Heq. subst k.
    apply (starts_with_head 103%N 112%N
             (lit "enerated-images/" ++ makeProjectPrefix uuid phone ++ lit "/batch-")
             (lit "hoto-restore/") 
             (original_key (makeProjectPrefix uuid phone) ext));
      [discriminate | exact Hall |].
    unfold original_key, makeProjectPrefix. cbv zeta.
    rewrite <- !app_assoc.
    exact (starts_with_app (lit "photo-restore/") _).
Qed.
